(** * The weekly recipes job: a shallow embedding and its properties

    This development embeds [jobs/weekly_recipes/handler.py] and states the
    properties its specification gives for the recipe discovery pipeline:
    link extraction, URL normalisation, recipe classification, title
    selection, deduplication, weekly selection and the job entry point.

    Conventions of the embedding.
    - A Python [str] is a [list ascii] (written [str]); string literals are
      read through the coercion [str_of_string].  Text is taken to be ASCII:
      [lower], [isspace] and [isalpha] act on the ASCII range as Python does.
    - A Python function that may raise returns [Exc A]: [Ok a] or [Raise e].
    - The parts of the Python standard library the handler calls are
      embedded from CPython ([urllib.parse], [datetime], the string
      methods) as the Python 3.12 runtime of the job has them, or, where
      they are too large to embed, taken as the fields
      of a class: [UrlLib] ([urljoin] and the address checks of
      [urllib.parse]), [HtmlLib] (the tokenizer of [html.parser]),
      [RandomLib] (the seeded sampler of [random]). *)

From stdpp Require Import gmap strings list sorting.
From Stdlib Require Import Ascii ZArith Lia DecimalString.
From Stdlib Require String DecimalZ.

Local Open Scope Z_scope.

(** ** Strings and exceptions *)

Abbreviation str := (list ascii).

Definition str_of_string (s : string) : str := String.list_ascii_of_string s.
Coercion str_of_string : string >-> list.

Record exn := Exn { exn_type : str; exn_msg : str }.

Inductive Exc (A : Type) : Type :=
| Ok (a : A)
| Raise (e : exn).
Arguments Ok {A} a.
Arguments Raise {A} e.

#[global] Instance Exc_ret : MRet Exc := fun A a => Ok a.
#[global] Instance Exc_bind : MBind Exc := fun A B f m =>
  match m with
  | Ok a => f a
  | Raise e => Raise e
  end.

Definition ValueError (msg : str) : exn := Exn "ValueError" msg.

(** ** The Python string methods the handler uses *)

Module Py.

Definition ord (c : ascii) : Z := Z.of_nat (nat_of_ascii c).
Definition chr (z : Z) : ascii := ascii_of_nat (Z.to_nat z).

Definition isupper (c : ascii) : bool := (65 <=? ord c) && (ord c <=? 90).
Definition islower (c : ascii) : bool := (97 <=? ord c) && (ord c <=? 122).
Definition isdigit (c : ascii) : bool := (48 <=? ord c) && (ord c <=? 57).
Definition isalpha (c : ascii) : bool := isupper c || islower c.
Definition isascii (c : ascii) : bool := ord c <? 128.

(** [str.isspace] on the ASCII range: TAB..CR, FS..US and the blank. *)
Definition isspace (c : ascii) : bool :=
  ((9 <=? ord c) && (ord c <=? 13)) || ((28 <=? ord c) && (ord c <=? 32)).

Definition lower_char (c : ascii) : ascii :=
  if isupper c then chr (ord c + 32) else c.

(** [s.lower()] *)
Definition lower (s : str) : str := lower_char <$> s.

(** [c in s] for a single character, and its negation. *)
Definition has (c : ascii) (s : str) : bool := bool_decide (c ∈ s).

(** [s.lstrip(chars)], [s.rstrip(chars)], [s.strip(chars)], the set of
    characters given as a predicate. *)
Fixpoint lstrip (p : ascii -> bool) (s : str) : str :=
  match s with
  | [] => []
  | c :: s' => if p c then lstrip p s' else s
  end.

Fixpoint rstrip (p : ascii -> bool) (s : str) : str :=
  match s with
  | [] => []
  | c :: s' =>
      match rstrip p s' with
      | [] => if p c then [] else [c]
      | r => c :: r
      end
  end.

Definition strip (p : ascii -> bool) (s : str) : str := rstrip p (lstrip p s).

Definition is_char (c : ascii) : ascii -> bool := fun x => bool_decide (x = c).

(** [s.split(sep)] for a one-character separator: empty pieces are kept
    and the empty string gives one empty piece. *)
Fixpoint split (sep : ascii) (s : str) : list str :=
  match s with
  | [] => [[]]
  | c :: s' =>
      if bool_decide (c = sep) then [] :: split sep s'
      else match split sep s' with
           | piece :: rest => (c :: piece) :: rest
           | [] => [[c]]
           end
  end.

(** [s.split()]: the maximal runs of non-blank characters. [cur] holds the
    run being read, last character first. *)
Definition flush (cur : str) : list str :=
  match cur with [] => [] | _ => [rev cur] end.

Fixpoint split_ws_go (cur : str) (s : str) : list str :=
  match s with
  | [] => flush cur
  | c :: s' =>
      if isspace c then flush cur ++ split_ws_go [] s'
      else split_ws_go (c :: cur) s'
  end.

Definition split_ws (s : str) : list str := split_ws_go [] s.

(** [sep.join(parts)] *)
Fixpoint join (sep : str) (parts : list str) : str :=
  match parts with
  | [] => []
  | [p] => p
  | p :: rest => p ++ sep ++ join sep rest
  end.

(** [s.find(c)] and [s.find(c, start)]; [None] stands for [-1]. *)
Fixpoint find (c : ascii) (s : str) : option nat :=
  match s with
  | [] => None
  | x :: s' => if bool_decide (x = c) then Some 0%nat else S <$> find c s'
  end.

Definition find_from (c : ascii) (start : nat) (s : str) : option nat :=
  (fun i => (start + i)%nat) <$> find c (drop start s).

(** [s.rfind(c)] *)
Fixpoint rfind (c : ascii) (s : str) : option nat :=
  match s with
  | [] => None
  | x :: s' =>
      match rfind c s' with
      | Some i => Some (S i)
      | None => if bool_decide (x = c) then Some 0%nat else None
      end
  end.

(** [s.partition(c)] and [s.rpartition(c)] for a one-character separator *)
Definition partition (c : ascii) (s : str) : str * str * str :=
  match find c s with
  | Some i => (take i s, [c], drop (S i) s)
  | None => (s, [], [])
  end.

Definition rpartition (c : ascii) (s : str) : str * str * str :=
  match rfind c s with
  | Some i => (take i s, [c], drop (S i) s)
  | None => ([], [], s)
  end.

(** [s.startswith(p)] and [sub in s] *)
Fixpoint startswith (p s : str) : bool :=
  match p, s with
  | [], _ => true
  | _ :: _, [] => false
  | a :: p', b :: s' => bool_decide (a = b) && startswith p' s'
  end.

Fixpoint contains (sub s : str) : bool :=
  startswith sub s ||
  match s with
  | [] => false
  | _ :: s' => contains sub s'
  end.

(** [s[i:j]] for [0 <= i], [0 <= j] *)
Definition slice (i j : nat) (s : str) : str := take (j - i) (drop i s).

(** [str(n)] for an [int] *)
Definition str_of_int (z : Z) : str :=
  String.list_ascii_of_string (NilZero.string_of_int (Z.to_int z)).

(** [bool(s)] for a string and for an optional string ([None] is falsy). *)
Definition truthy (s : str) : bool := negb (bool_decide (s = [])).
Definition truthy_opt (o : option str) : bool :=
  match o with Some s => truthy s | None => false end.

End Py.

(** ** [urllib.parse]: [urlsplit], [urlparse], [urlunsplit], [urlunparse]

    Embedded from [Lib/urllib/parse.py] of CPython as its maintenance
    releases have it since [urlunsplit] writes [//] before a path that
    starts with [//] (3.11.11 is one; the job is deployed on the Python 3.12
    runtime).  Two checks of [urlsplit] consult other modules ([ipaddress]
    for a bracketed host, [unicodedata] for a non-ASCII netloc); they are
    fields of [UrlLib], as is [urljoin]. *)

Class UrlLib := {
  (** [_check_bracketed_host(hostname)]: returns or raises [ValueError] *)
  _check_bracketed_host : str -> Exc unit;
  (** the NFKC part of [_checknetloc(netloc)], reached for a non-ASCII netloc *)
  _checknetloc_nfkc : str -> Exc unit;
  (** [urllib.parse.urljoin(base, url)] *)
  urljoin : str -> str -> Exc str;
}.

Module UrlParse.

Definition uses_netloc : list str :=
  str_of_string <$>
    [""; "ftp"; "http"; "gopher"; "nntp"; "telnet"; "imap"; "wais"; "file";
     "mms"; "https"; "shttp"; "snews"; "prospero"; "rtsp"; "rtsps"; "rtspu";
     "rsync"; "svn"; "svn+ssh"; "sftp"; "nfs"; "git"; "git+ssh"; "ws";
     "wss"]%string.

Definition uses_params : list str :=
  str_of_string <$>
    [""; "ftp"; "hdl"; "prospero"; "http"; "imap"; "https"; "shttp"; "rtsp";
     "rtsps"; "rtspu"; "sip"; "sips"; "mms"; "sftp"; "tel"]%string.

Definition scheme_chars : str :=
  "abcdefghijklmnopqrstuvwxyzABCDEFGHIJKLMNOPQRSTUVWXYZ0123456789+-.".

(** [_WHATWG_C0_CONTROL_OR_SPACE]: the characters 0x00 .. 0x20 *)
Definition _WHATWG_C0_CONTROL_OR_SPACE (c : ascii) : bool := Py.ord c <=? 32.

(** [_UNSAFE_URL_BYTES_TO_REMOVE]: TAB, CR, LF *)
Definition _UNSAFE_URL_BYTES_TO_REMOVE (c : ascii) : bool :=
  bool_decide (Py.ord c = 9 \/ Py.ord c = 13 \/ Py.ord c = 10).

Record SplitResult := mkSplitResult {
  s_scheme : str; s_netloc : str; s_path : str;
  s_query : str; s_fragment : str }.

Record ParseResult := mkParseResult {
  scheme : str; netloc : str; path : str;
  params : str; query : str; fragment : str }.

(** [if c in url: a, b = url.split(c, 1)], else [(url, '')] *)
Definition split_once (c : ascii) (url : str) : str * str :=
  match Py.find c url with
  | Some i => (take i url, drop (S i) url)
  | None => (url, [])
  end.

Definition _splitparams (url : str) : str * str :=
  match Py.rfind "/" url with
  | Some slash =>
      match Py.find_from ";" slash url with
      | Some i => (take i url, drop (S i) url)
      | None => (url, [])
      end
  | None =>
      match Py.find ";" url with
      | Some i => (take i url, drop (S i) url)
      | None => (take (length url - 1) url, url)  (* url[:-1], url[0:] *)
      end
  end.

Definition _splitnetloc (url : str) (start : nat) : str * str :=
  let delim :=
    foldl (fun delim c =>
             match Py.find_from c start url with
             | Some wdelim => Nat.min delim wdelim
             | None => delim
             end)
          (length url) ["/"; "?"; "#"]%char in
  (Py.slice start delim url, drop delim url).

(** [netloc.partition('[')[2].partition(']')[0]] *)
Definition bracketed_host (netloc : str) : str :=
  (Py.partition "]" (Py.partition "[" netloc).2).1.1.

Definition _checknetloc `{UrlLib} (netloc : str) : Exc unit :=
  if negb (Py.truthy netloc) || forallb Py.isascii netloc then Ok ()
  else _checknetloc_nfkc netloc.

(** The scheme prefix of [urlsplit]: [url[:i].lower(), url[i+1:]] when the
    text before the first colon is a scheme name. *)
Definition split_scheme (url : str) : str * str :=
  match Py.find ":" url, url with
  | Some i, c0 :: _ =>
      if bool_decide (0 < i)%nat && Py.isascii c0 && Py.isalpha c0
         && forallb (fun c => Py.has c scheme_chars) (take i url)
      then (Py.lower (take i url), drop (S i) url)
      else ([], url)
  | _, _ => ([], url)
  end.

Definition urlsplit `{UrlLib} (url : str) : Exc SplitResult :=
  let url := Py.lstrip _WHATWG_C0_CONTROL_OR_SPACE url in
  let url := filter (fun c => negb (_UNSAFE_URL_BYTES_TO_REMOVE c)) url in
  let '(scheme, url) := split_scheme url in
  '(netloc, url) ←
    (if bool_decide (take 2 url = "//") then
       let '(netloc, url) := _splitnetloc url 2 in
       if (Py.has "[" netloc && negb (Py.has "]" netloc))
          || (Py.has "]" netloc && negb (Py.has "[" netloc))
       then Raise (ValueError "Invalid IPv6 URL")
       else
         _ ← (if Py.has "[" netloc && Py.has "]" netloc
              then _check_bracketed_host (bracketed_host netloc)
              else Ok ());
         Ok (netloc, url)
     else Ok ([], url));
  let '(url, fragment) := split_once "#" url in
  let '(url, query) := split_once "?" url in
  _ ← _checknetloc netloc;
  Ok (mkSplitResult scheme netloc url query fragment).

Definition urlparse `{UrlLib} (url : str) : Exc ParseResult :=
  '(mkSplitResult scheme netloc url query fragment) ← urlsplit url;
  let '(url, params) :=
    if bool_decide (scheme ∈ uses_params) && Py.has ";" url
    then _splitparams url else (url, []) in
  Ok (mkParseResult scheme netloc url params query fragment).

Definition urlunsplit (scheme netloc url query fragment : str) : str :=
  let url :=
    if Py.truthy netloc
       || (Py.truthy scheme && bool_decide (scheme ∈ uses_netloc))
       || bool_decide (take 2 url = "//")
    then
      let url :=
        if Py.truthy url && negb (bool_decide (take 1 url = "/"))
        then "/" ++ url else url in
      "//" ++ netloc ++ url
    else url in
  let url := if Py.truthy scheme then scheme ++ ":" ++ url else url in
  let url := if Py.truthy query then url ++ "?" ++ query else url in
  let url := if Py.truthy fragment then url ++ "#" ++ fragment else url in
  url.

Definition urlunparse (p : ParseResult) : str :=
  let url :=
    if Py.truthy (params p) then path p ++ ";" ++ params p else path p in
  urlunsplit (scheme p) (netloc p) url (query p) (fragment p).

(** [ParseResult.geturl()] *)
Definition geturl (p : ParseResult) : str := urlunparse p.

(** [ParseResult._hostinfo] and [ParseResult.hostname]: the host of the
    netloc, without user info and port, in lower case. *)
Definition _hostinfo (p : ParseResult) : str * option str :=
  let netloc := netloc p in
  let '(_, _, hostinfo) := Py.rpartition "@" netloc in
  let '(_, have_open_br, bracketed) := Py.partition "[" hostinfo in
  let '(hostname, port) :=
    if Py.truthy have_open_br then
      let '(hostname, _, port) := Py.partition "]" bracketed in
      let '(_, _, port) := Py.partition ":" port in
      (hostname, port)
    else
      let '(hostname, _, port) := Py.partition ":" hostinfo in
      (hostname, port) in
  (hostname, if negb (Py.truthy port) then None else Some port).

Definition hostname (p : ParseResult) : option str :=
  let hostname := (_hostinfo p).1 in
  if negb (Py.truthy hostname) then None
  else
    let '(hostname, percent, zone) := Py.partition "%" hostname in
    Some (Py.lower hostname ++ percent ++ zone).

End UrlParse.

(** ** [datetime]: the calendar arithmetic behind [isocalendar] and [strftime]

    Embedded from CPython 3.11, [Lib/datetime.py]. *)

Module Datetime.

(** An aware [datetime]; [utcoffset_hours] is the fixed offset of its
    [timezone]. *)
Record datetime := mkDatetime {
  year : Z; month : Z; day : Z;
  hour : Z; minute : Z; second : Z; microsecond : Z;
  utcoffset_hours : Z }.

Definition _is_leap (year : Z) : bool :=
  (year mod 4 =? 0) && (negb (year mod 100 =? 0) || (year mod 400 =? 0)).

Definition _days_before_year (year : Z) : Z :=
  let y := year - 1 in
  y * 365 + y / 4 - y / 100 + y / 400.

Definition _DAYS_BEFORE_MONTH : list Z :=
  [-1; 0; 31; 59; 90; 120; 151; 181; 212; 243; 273; 304; 334].

Definition _days_before_month (year month : Z) : Z :=
  nth (Z.to_nat month) _DAYS_BEFORE_MONTH 0
  + (if (2 <? month) && _is_leap year then 1 else 0).

Definition _ymd2ord (year month day : Z) : Z :=
  _days_before_year year + _days_before_month year month + day.

Definition _isoweek1monday (year : Z) : Z :=
  let THURSDAY := 3 in
  let firstday := _ymd2ord year 1 1 in
  let firstweekday := (firstday + 6) mod 7 in
  let week1monday := firstday - firstweekday in
  if THURSDAY <? firstweekday then week1monday + 7 else week1monday.

(** [now.isocalendar()]: ISO year, ISO week number, ISO weekday *)
Definition isocalendar (self : datetime) : Z * Z * Z :=
  let year := year self in
  let week1monday := _isoweek1monday year in
  let today := _ymd2ord year (month self) (day self) in
  let week := (today - week1monday) / 7 in
  let day := (today - week1monday) mod 7 in
  if week <? 0 then
    let year := year - 1 in
    let week1monday := _isoweek1monday year in
    let week := (today - week1monday) / 7 in
    let day := (today - week1monday) mod 7 in
    (year, week + 1, day + 1)
  else if (52 <=? week) && (_isoweek1monday (year + 1) <=? today) then
    (year + 1, 0 + 1, day + 1)
  else (year, week + 1, day + 1).

Definition month_abbr : list str :=
  str_of_string <$>
    ["Jan"; "Feb"; "Mar"; "Apr"; "May"; "Jun";
     "Jul"; "Aug"; "Sep"; "Oct"; "Nov"; "Dec"]%string.

(** [%d]: the day of the month on two digits *)
Definition two_digits (z : Z) : str :=
  if z <? 10 then "0" ++ Py.str_of_int z else Py.str_of_int z.

(** [now.strftime("Week of %b %d, %Y")] *)
Definition strftime_week_of (self : datetime) : str :=
  "Week of " ++ nth (Z.to_nat (month self - 1)) month_abbr [] ++ " "
    ++ two_digits (day self) ++ ", " ++ Py.str_of_int (year self).

End Datetime.

(** ** The data of the handler *)

(** The dictionary built for an [<a>] element: [text] is set when the
    element is closed. *)
Record anchor := mkAnchor {
  href : option str;
  title_attr : option str;
  aria_label : option str;
  text : option str }.

(** [{"title": title, "url": url}] *)
Record recipe := mkRecipe { recipe_title : str; recipe_url : str }.

#[global] Instance anchor_eq_dec : EqDecision anchor.
Proof. solve_decision. Defined.
#[global] Instance recipe_eq_dec : EqDecision recipe.
Proof. solve_decision. Defined.

(** The handler calls that [HTMLParser.feed] makes.  [OtherMarkup] stands for
    comments, declarations and processing instructions, whose handlers
    [AnchorExtractor] inherits and which do nothing. *)
Inductive event :=
| StartTag (tag : str) (attrs : list (str * option str))
| EndTag (tag : str)
| StartEndTag (tag : str) (attrs : list (str * option str))
| Data (data : str)
| OtherMarkup.

Class HtmlLib := {
  (** the sequence of handler calls of [HTMLParser.feed(html)], or the
      exception it raises *)
  feed_events : str -> Exc (list event);
}.

Class RandomLib := {
  Random_state : Type;
  (** [random.Random(seed)] *)
  Random : str -> Random_state;
  (** [chooser.sample(population, k)] *)
  sample : Random_state -> list recipe -> Z -> Exc (list recipe);
}.

(** What the documentation of [random.sample] promises: a list of [k]
    elements when [0 <= k <= len(population)]. *)
Class RandomSpec `{RandomLib} := {
  sample_length : forall g population k,
    0 <= k <= Z.of_nat (length population) ->
    exists result, sample g population k = Ok result
                   /\ Z.of_nat (length result) = k;
}.

(** ** [jobs/weekly_recipes/handler.py] *)

Definition RECIPE_PAGES : list str :=
  str_of_string <$>
    ["https://www.noracooks.com/category/meal-type/dinner/";
     "https://www.noracooks.com/category/meal-type/lunch/"]%string.

Definition EXCLUDED_PATH_PREFIXES : list str :=
  str_of_string <$>
    ["category"; "tag"; "page"; "wp-content"; "wp-json"; "author"]%string.

Definition EXCLUDED_PATH_FRAGMENTS : list str :=
  str_of_string <$>
    ["privacy"; "terms"; "contact"; "about"; "disclaimer"; "shop"; "store";
     "print"]%string.

(** The host set of [is_recipe_url] *)
Definition ALLOWED_HOSTS : list str :=
  str_of_string <$> ["www.noracooks.com"; "noracooks.com"]%string.

(** *** class [AnchorExtractor] *)

Record AnchorExtractor := mkAnchorExtractor {
  anchors : list anchor;
  _current : option anchor;
  _text_parts : list str }.

Definition AnchorExtractor_init : AnchorExtractor :=
  {| anchors := []; _current := None; _text_parts := [] |}.

(** [{key: value for key, value in attrs}]: a later attribute of the same
    name replaces an earlier one. *)
Definition attr_map_of (attrs : list (str * option str))
  : gmap str (option str) :=
  foldl (fun m kv => <[kv.1 := kv.2]> m) ∅ attrs.

(** [attr_map.get(key)] *)
Definition attr_get (m : gmap str (option str)) (key : str) : option str :=
  default None (m !! key).

Definition handle_starttag (self : AnchorExtractor) (tag : str)
    (attrs : list (str * option str)) : AnchorExtractor :=
  if bool_decide (tag ≠ "a") then self
  else
    let attr_map := attr_map_of attrs in
    {| anchors := anchors self;
       _current := Some {| href := attr_get attr_map "href";
                           title_attr := attr_get attr_map "title";
                           aria_label := attr_get attr_map "aria-label";
                           text := None |};
       _text_parts := [] |}.

Definition handle_data (self : AnchorExtractor) (data : str)
  : AnchorExtractor :=
  match _current self with
  | Some _ =>
      {| anchors := anchors self;
         _current := _current self;
         _text_parts := _text_parts self ++ [data] |}
  | None => self
  end.

(** The text of a closed anchor: [" ".join(parts).strip()], then
    [" ".join(text.split())]. *)
Definition anchor_text (parts : list str) : str :=
  let text := Py.strip Py.isspace (Py.join " " parts) in
  Py.join " " (Py.split_ws text).

Definition handle_endtag (self : AnchorExtractor) (tag : str)
  : AnchorExtractor :=
  match _current self with
  | Some current =>
      if bool_decide (tag ≠ "a") then self
      else
        let text := anchor_text (_text_parts self) in
        let current :=
          {| href := href current; title_attr := title_attr current;
             aria_label := aria_label current; text := Some text |} in
        {| anchors := anchors self ++ [current];
           _current := None;
           _text_parts := [] |}
  | None => self
  end.

(** One handler call; [HTMLParser.handle_startendtag] calls
    [handle_starttag] and then [handle_endtag]. *)
Definition handle (self : AnchorExtractor) (e : event) : AnchorExtractor :=
  match e with
  | StartTag tag attrs => handle_starttag self tag attrs
  | EndTag tag => handle_endtag self tag
  | StartEndTag tag attrs => handle_endtag (handle_starttag self tag attrs) tag
  | Data data => handle_data self data
  | OtherMarkup => self
  end.

(** The handler calls of one [feed], in order. *)
Definition feed (self : AnchorExtractor) (events : list event)
  : AnchorExtractor :=
  foldl handle self events.

(** *** [pick_title] *)

Definition clean_title (candidate : str) : str :=
  Py.strip Py.isspace (Py.join " " (Py.split_ws candidate)).

(** [4 <= len(cleaned) <= 120] *)
Definition acceptable (cleaned : str) : bool :=
  (4 <=? length cleaned)%nat && (length cleaned <=? 120)%nat.
Arguments acceptable : simpl never.

Fixpoint pick_title_loop (candidates : list (option str)) : option str :=
  match candidates with
  | [] => None
  | candidate :: rest =>
      match candidate with
      | Some c =>
          if negb (Py.truthy c) then pick_title_loop rest
          else
            let cleaned := clean_title c in
            if acceptable cleaned then Some cleaned
            else pick_title_loop rest
      | None => pick_title_loop rest
      end
  end.

Definition pick_title (anchor : anchor) : option str :=
  let candidates := [text anchor; aria_label anchor; title_attr anchor] in
  pick_title_loop candidates.

(** *** [dedupe_recipes] *)

Fixpoint dedupe_loop (recipes : list recipe) (seen : gset str)
    (deduped : list recipe) : list recipe :=
  match recipes with
  | [] => deduped
  | recipe :: rest =>
      let url := Py.lower (recipe_url recipe) in
      if bool_decide (url ∈ seen) then dedupe_loop rest seen deduped
      else dedupe_loop rest ({[ url ]} ∪ seen) (deduped ++ [recipe])
  end.

Definition dedupe_recipes (recipes : list recipe) : list recipe :=
  dedupe_loop recipes ∅ [].

(** *** [format_recipes] *)

Definition newline : str := [ascii_of_nat 10].

Fixpoint format_entries (idx : Z) (recipes : list recipe) : list str :=
  match recipes with
  | [] => []
  | recipe :: rest =>
      [Py.str_of_int idx ++ ". " ++ recipe_title recipe;
       "   " ++ recipe_url recipe;
       []] ++ format_entries (idx + 1) rest
  end.

Definition format_recipes (recipes : list recipe) (week_label : str) : str :=
  let lines := ["Weekly vegan recipe picks (" ++ week_label ++ ")"; []] in
  let lines := lines ++ format_entries 1 recipes in
  let lines := lines ++ [str_of_string "Sources:"] in
  let lines := lines ++ ((fun url => "- " ++ url) <$> RECIPE_PAGES) in
  Py.join newline lines.

(** *** [is_recipe_url], [strip_url], [extract_recipes] *)

Section Urls.
Context `{UrlLib}.

Definition is_recipe_url (url : str) : Exc bool :=
  parsed ← UrlParse.urlparse url;
  if negb (bool_decide (UrlParse.scheme parsed
                          ∈ (str_of_string <$> ["http"; "https"]%string)))
  then Ok false
  else
    let host := Py.lower (UrlParse.netloc parsed) in
    if negb (bool_decide (host ∈ ALLOWED_HOSTS)) then Ok false
    else
      let path := Py.strip (Py.is_char "/") (UrlParse.path parsed) in
      if negb (Py.truthy path) then Ok false
      else
        let segments := filter (fun segment => Py.truthy segment)
                               (Py.split "/" path) in
        match segments with
        | [] => Ok false
        | segment0 :: _ =>
            if bool_decide (Py.lower segment0 ∈ EXCLUDED_PATH_PREFIXES)
            then Ok false
            else if existsb (fun fragment =>
                               Py.contains fragment (Py.lower path))
                            EXCLUDED_PATH_FRAGMENTS
            then Ok false
            else Ok true
        end.

Definition strip_url (url : str) : Exc str :=
  parsed ← UrlParse.urlparse url;
  let path := UrlParse.path parsed in
  let path :=
    if bool_decide (path ≠ "/") then Py.rstrip (Py.is_char "/") path
    else path in
  let cleaned :=
    {| UrlParse.scheme := UrlParse.scheme parsed;
       UrlParse.netloc := UrlParse.netloc parsed;
       UrlParse.path := path;
       UrlParse.params := UrlParse.params parsed;
       UrlParse.query := [];
       UrlParse.fragment := [] |} in
  Ok (UrlParse.geturl cleaned).

(** The body of the loop of [extract_recipes] over [parser.anchors]. *)
Fixpoint extract_loop (base_url : str) (anchors : list anchor)
    (recipes : list recipe) : Exc (list recipe) :=
  match anchors with
  | [] => Ok recipes
  | anchor :: rest =>
      match href anchor with
      | Some href_ =>
          if negb (Py.truthy href_) then extract_loop base_url rest recipes
          else
            url ← urljoin base_url href_;
            url ← strip_url url;
            recipe_like ← is_recipe_url url;
            if negb recipe_like then extract_loop base_url rest recipes
            else
              match pick_title anchor with
              | Some title =>
                  if negb (Py.truthy title)
                  then extract_loop base_url rest recipes
                  else extract_loop base_url rest
                         (recipes ++ [mkRecipe title url])
              | None => extract_loop base_url rest recipes
              end
      | None => extract_loop base_url rest recipes
      end
  end.

Definition extract_recipes `{HtmlLib} (html : str) (base_url : str)
  : Exc (list recipe) :=
  events ← feed_events html;
  let parser := feed AnchorExtractor_init events in
  extract_loop base_url (anchors parser) [].

End Urls.

(** *** [pick_weekly_recipes] *)

Section Weekly.
Context `{RandomLib}.

(** [f"{year}-W{week}"] *)
Definition week_seed (now : Datetime.datetime) : str :=
  let '(year, week, _) := Datetime.isocalendar now in
  Py.str_of_int year ++ "-W" ++ Py.str_of_int week.

Definition pick_weekly_recipes (recipes : list recipe) (count : Z)
    (now : Datetime.datetime) : Exc (list recipe) :=
  let seed := week_seed now in
  let chooser := Random seed in
  if Z.of_nat (length recipes) <=? count then Ok recipes
  else sample chooser recipes count.

End Weekly.

(** *** [main] and its collaborators *)

(** What one run meets outside the handler. *)
Record World := mkWorld {
  (** [os.environ.get(name)] *)
  environ_get : str -> option str;
  (** [urlopen(req, timeout=30)] followed by [read().decode("utf-8")] *)
  http_get : str -> Exc str;
  (** [datetime.now(timezone(timedelta(hours=-5)))] *)
  est_now : Datetime.datetime;
  (** [import boto3; boto3.client("ses")], then the outcome of
      [ses.send_email] for a sender, recipient, subject and body *)
  ses_client : Exc (str -> str -> str -> str -> Exc unit);
}.

(** The dictionary [main] returns. *)
Inductive response :=
| StatusSuccess (recipe_count : nat)
| StatusError (message : str).

Record email := mkEmail {
  mail_sender : str; mail_recipient : str;
  mail_subject : str; mail_body : str }.

(** One run: the lines printed, the message handed to [send_email] if there
    was one, and what [main] returned or raised. *)
Record run := mkRun {
  printed : list str;
  handed_over : option email;
  returned : Exc response }.

Section Main.
Context `{UrlLib} `{HtmlLib} `{RandomLib}.
Variable world : World.

Definition fetch_url (url : str) : Exc str := http_get world url.

(** [send_email]: the lines it prints and its result. *)
Definition send_email (sender recipient subject body : str)
  : list str * Exc bool :=
  match ses_client world with
  | Raise e => ([], Raise e)
  | Ok ses_send_email =>
      match ses_send_email sender recipient subject body with
      | Ok _ => ([str_of_string "Email sent successfully"], Ok true)
      | Raise e => (["SES error: " ++ exn_msg e], Ok false)
      end
  end.

(** The loop of [main] over [RECIPE_PAGES]: the recipes gathered and the
    lines printed for the sources that failed. *)
Fixpoint gather (pages : list str) (recipes : list recipe)
    (log : list str) : list recipe * list str :=
  match pages with
  | [] => (recipes, log)
  | url :: rest =>
      match (html ← fetch_url url; extract_recipes html url) with
      | Ok found => gather rest (recipes ++ found) log
      | Raise exc =>
          gather rest recipes
            (log ++ ["Failed to fetch or parse " ++ url ++ ": "
                     ++ exn_msg exc])
      end
  end.

Definition no_recipes_body : str :=
  "No recipes were found this week. "
  ++ "Please check the source pages or parser rules." ++ newline ++ newline
  ++ "Sources:" ++ newline
  ++ "- " ++ nth 0 RECIPE_PAGES [] ++ newline
  ++ "- " ++ nth 1 RECIPE_PAGES [] ++ newline.

Definition main : run :=
  let recipient := environ_get world "RECIPIENT_EMAIL" in
  let sender := environ_get world "SENDER_EMAIL" in
  match recipient, sender with
  | Some recipient_, Some sender_ =>
      if negb (Py.truthy recipient_ && Py.truthy sender_) then
        mkRun [str_of_string "Missing required environment variables"] None
              (Ok (StatusError "Missing config"))
      else
        let '(recipes, log) := gather RECIPE_PAGES [] [] in
        let recipes := dedupe_recipes recipes in
        let week_label := Datetime.strftime_week_of (est_now world) in
        let composed :=
          match recipes with
          | [] =>
              Ok ("Weekly Vegan Recipes - " ++ week_label
                    ++ " - No recipes found",
                  no_recipes_body)
          | _ =>
              selected ← pick_weekly_recipes recipes 5 (est_now world);
              Ok ("Weekly Vegan Recipes - " ++ week_label,
                  format_recipes selected week_label)
          end in
        match composed with
        | Raise e => mkRun log None (Raise e)
        | Ok (subject, body) =>
            let log := log ++ ["Sending email: " ++ subject] in
            let '(lines, success) :=
              send_email sender_ recipient_ subject body in
            mkRun (log ++ lines)
                  (Some (mkEmail sender_ recipient_ subject body))
                  (match success with
                   | Raise e => Raise e
                   | Ok true => Ok (StatusSuccess (length recipes))
                   | Ok false => Ok (StatusError "Failed to send email")
                   end)
        end
  | _, _ =>
      mkRun [str_of_string "Missing required environment variables"] None
            (Ok (StatusError "Missing config"))
  end.

End Main.

(** ** A concrete library and concrete runs

    One instance of each interface, used to evaluate the handler on concrete
    inputs.  The tokenizer is a table of two pages with the handler calls
    [html.parser] makes for them, any other input being read as text;
    [demo_urljoin] resolves the one relative reference the pages use and
    returns any other reference as it is, as [urljoin] does for an absolute
    URL; the sampler draws from a pool, as [random.sample] does for a small
    population, with a linear congruential generator in place of the
    Mersenne Twister. *)

Module Demo.

Definition dinner : str :=
  "https://www.noracooks.com/category/meal-type/dinner/".
Definition lunch : str :=
  "https://www.noracooks.com/category/meal-type/lunch/".

Definition chili_page : str :=
  "<a href='/recipes/vegan-chili/'>Vegan Chili</a>".
Definition unclosed_page : str := "<a href='/x'>Hello".

Definition demo_urljoin (base url : str) : Exc str :=
  if bool_decide (url = "/recipes/vegan-chili/")
     && bool_decide (base = dinner \/ base = lunch)
  then Ok (str_of_string "https://www.noracooks.com/recipes/vegan-chili/")
  else if bool_decide (url = []) then Ok base
  else Ok url.

#[export] Instance url_lib : UrlLib := {|
  _check_bracketed_host := fun _ => Ok ();
  _checknetloc_nfkc := fun _ => Ok ();
  urljoin := demo_urljoin |}.

Definition demo_feed_events (html : str) : Exc (list event) :=
  if bool_decide (html = chili_page) then
    Ok [StartTag "a" [(str_of_string "href",
                       Some (str_of_string "/recipes/vegan-chili/"))];
        Data "Vegan Chili"; EndTag "a"]
  else if bool_decide (html = unclosed_page) then
    Ok [StartTag "a" [(str_of_string "href", Some (str_of_string "/x"))];
        Data "Hello"]
  else Ok [Data html].

#[export] Instance html_lib : HtmlLib := {|
  feed_events := demo_feed_events |}.

Definition lcg (x : Z) : Z := (x * 1103515245 + 12345) mod 2147483648.

Definition seed_value (seed : str) : Z :=
  foldl (fun acc c => (acc * 31 + Py.ord c) mod 2147483648) 7 seed.

(** [result[i] = pool[j]; pool[j] = pool[n - i - 1]] for [j] below the
    number of candidates left. *)
Fixpoint pool_sample (x : Z) (pool : list recipe) (k : nat) : list recipe :=
  match k with
  | O => []
  | S k' =>
      let n := length pool in
      let j := Z.to_nat (x mod Z.of_nat n) in
      match pool !! j, pool !! (n - 1)%nat with
      | Some picked, Some moved =>
          picked :: pool_sample (lcg x) (take (n - 1) (<[j := moved]> pool)) k'
      | _, _ => []
      end
  end.

Definition demo_sample (g : Z) (population : list recipe) (k : Z)
  : Exc (list recipe) :=
  if (0 <=? k) && (k <=? Z.of_nat (length population))
  then Ok (pool_sample g population (Z.to_nat k))
  else Raise (ValueError "Sample larger than population or is negative").

#[export] Instance random_lib : RandomLib := {|
  Random_state := Z;
  Random := seed_value;
  sample := demo_sample |}.

Definition environ (name : str) : option str :=
  if bool_decide (name = "RECIPIENT_EMAIL")
  then Some (str_of_string "cook@example.org")
  else if bool_decide (name = "SENDER_EMAIL")
  then Some (str_of_string "cron@example.org")
  else None.

(** The dinner page cannot be fetched, the lunch page lists one recipe. *)
Definition http (url : str) : Exc str :=
  if bool_decide (url = lunch) then Ok chili_page
  else Raise (Exn "URLError" "<urlopen error timed out>").

Definition wednesday : Datetime.datetime :=
  Datetime.mkDatetime 2026 11 4 9 0 0 0 (-5).
Definition friday : Datetime.datetime :=
  Datetime.mkDatetime 2026 11 6 18 30 0 0 (-5).

Definition ses_accepts : Exc (str -> str -> str -> str -> Exc unit) :=
  Ok (fun _ _ _ _ => Ok ()).
Definition ses_rejects : Exc (str -> str -> str -> str -> Exc unit) :=
  Ok (fun _ _ _ _ => Raise (Exn "ClientError" "MessageRejected")).

Definition world_delivered : World :=
  mkWorld environ http wednesday ses_accepts.
Definition world_undelivered : World :=
  mkWorld environ http wednesday ses_rejects.

Definition numbered (n : nat) : list recipe :=
  (fun i => mkRecipe ("Recipe number " ++ Py.str_of_int (Z.of_nat i))
                     ("https://www.noracooks.com/r"
                        ++ Py.str_of_int (Z.of_nat i))) <$> seq 0 n.

End Demo.

(** ** The deduplicator as the specification words it

    An entry is kept when no earlier entry has the same URL, compared
    case-insensitively; the entries kept stay in their order. *)

Definition url_key (r : recipe) : str := Py.lower (recipe_url r).

Definition first_occurrence (recipes : list recipe) (i : nat) (r : recipe)
  : bool :=
  forallb (fun earlier => negb (bool_decide (url_key earlier = url_key r)))
          (take i recipes).

Definition spec_dedupe (recipes : list recipe) : list recipe :=
  omap id
    (imap (fun i r => if first_occurrence recipes i r then Some r else None)
          recipes).

(** What the loop appends for the entries still to read, given the
    entries read so far. *)
Fixpoint kept_after (earlier rest : list recipe) : list recipe :=
  match rest with
  | [] => []
  | r :: rest' =>
      (if bool_decide (url_key r ∈ url_key <$> earlier) then [] else [r])
        ++ kept_after (earlier ++ [r]) rest'
  end.

(** ** Vocabulary for the statements about the extractor and the run *)

(** An event that opens or closes an [<a>] element. *)
Definition anchor_tag (e : event) : bool :=
  match e with
  | StartTag tag _ | EndTag tag | StartEndTag tag _ => bool_decide (tag = "a")
  | Data _ | OtherMarkup => false
  end.

(** An event that closes an [<a>] element. *)
Definition closes_anchor (e : event) : bool :=
  match e with
  | EndTag tag | StartEndTag tag _ => bool_decide (tag = "a")
  | StartTag _ _ | Data _ | OtherMarkup => false
  end.

(** The text nodes among the events. *)
Definition data_of (events : list event) : list str :=
  omap (fun e => match e with Data data => Some data | _ => None end) events.

(** The record the extractor makes of an [<a>] element with the attributes
    [attrs] that is closed after the text nodes [parts]. *)
Definition closed_anchor (attrs : list (str * option str)) (parts : list str)
  : anchor :=
  {| href := attr_get (attr_map_of attrs) "href";
     title_attr := attr_get (attr_map_of attrs) "title";
     aria_label := attr_get (attr_map_of attrs) "aria-label";
     text := Some (anchor_text parts) |}.

(** The ISO year and ISO week number of an instant. *)
Definition iso_year_week (now : Datetime.datetime) : Z * Z :=
  let '(year, week, _) := Datetime.isocalendar now in (year, week).

(** The recipes one source page contributes to a run: those extracted from
    it when it is fetched and parsed, none when either step raises. *)
Definition source_recipes `{UrlLib} `{HtmlLib} (world : World) (url : str)
  : list recipe :=
  match (html ← fetch_url world url; extract_recipes html url) with
  | Ok found => found
  | Raise _ => []
  end.

(** ** Vocabulary for the statements about URLs *)

(** [sub] occurs in [s] as a run of consecutive characters. *)
Definition substring (sub s : str) : Prop :=
  exists before after, s = before ++ sub ++ after.

(** The non-empty pieces of [s] between occurrences of [c]. *)
Definition segments_of (c : ascii) (s : str) : list str :=
  filter (fun segment => Py.truthy segment) (Py.split c s).

(** The first segment of a path: the first non-empty piece between
    slashes. *)
Definition first_segment (path : str) : option str :=
  head (segments_of "/" path).

(** ** The classifier as the specification words it

    The conditions of the specification on a scheme, a host and a path: the
    scheme is http or https; the host, compared without regard to case, is
    an allowed host; the path stripped of its leading and trailing slashes
    is not empty; its first segment, in lower case, is no excluded prefix;
    the path in lower case contains no excluded fragment. *)
Definition claimed_recipe_url (scheme host path : str) : bool :=
  bool_decide (scheme = "http" \/ scheme = "https")
  && bool_decide (Py.lower host ∈ ALLOWED_HOSTS)
  && Py.truthy (Py.strip (Py.is_char "/") path)
  && match first_segment path with
     | Some segment =>
         negb (bool_decide (Py.lower segment ∈ EXCLUDED_PATH_PREFIXES))
     | None => false
     end
  && negb (existsb (fun fragment => Py.contains fragment (Py.lower path))
                   EXCLUDED_PATH_FRAGMENTS).

(** What [urlsplit] accepts as a scheme: characters of [scheme_chars], the
    first an ASCII letter, in lower case. *)
Definition scheme_ok (s : str) : Prop :=
  Forall (fun c => Py.has c UrlParse.scheme_chars = true) s
  /\ (exists c0 t, s = c0 :: t /\ Py.isascii c0 && Py.isalpha c0 = true)
  /\ Py.lower s = s.

(** No TAB, CR or LF. *)
Definition safe (s : str) : Prop :=
  Forall (fun c => UrlParse._UNSAFE_URL_BYTES_TO_REMOVE c = false) s.

(** The checks [urlsplit] makes on a netloc, in its order. *)
Definition netloc_checks `{UrlLib} (netloc : str) : Exc unit :=
  if (Py.has "[" netloc && negb (Py.has "]" netloc))
     || (Py.has "]" netloc && negb (Py.has "[" netloc))
  then Raise (ValueError "Invalid IPv6 URL")
  else
    _ ← (if Py.has "[" netloc && Py.has "]" netloc
         then _check_bracketed_host (UrlParse.bracketed_host netloc)
         else Ok ());
    UrlParse._checknetloc netloc.

(** A path that is empty or starts with a slash. *)
Definition rooted (path : str) : Prop :=
  path = [] \/ exists t, path = "/"%char :: t.

(** The text [urlunsplit] puts before the netloc. *)
Definition scheme_prefix (s : str) : str :=
  if Py.truthy s then s ++ ":" else [].

(** A text that [urlsplit] reads as it stands, finding no scheme in it. *)
Definition schemeless (t : str) : Prop :=
  Py.lstrip UrlParse._WHATWG_C0_CONTROL_OR_SPACE t = t
  /\ UrlParse.split_scheme t = ([], t).

(** The path as [urlunsplit] writes it after [//]: with a slash before it
    when it is not empty and has none. *)
Definition slashed (path : str) : str :=
  if Py.truthy path && negb (bool_decide (take 1 path = "/"))
  then "/" ++ path else path.

(** The path [strip_url] keeps. *)
Definition strip_path (path : str) : str :=
  if bool_decide (path ≠ "/") then Py.rstrip (Py.is_char "/") path else path.

(** The last segment of a path: the text after its last [/], the whole path
    when it has none. *)
Definition last_segment (path : str) : str :=
  match Py.rfind "/" path with
  | Some slash => drop (S slash) path
  | None => path
  end.

(** The paths that a second [strip_url] reads differently.  For a scheme
    whose URLs [urlparse] cuts parameters from, the first [;] of the last
    segment marks the parameters; the mark is exposed when it is the last
    character of the segment (nothing follows it, and [geturl] writes no [;]
    for empty parameters), or when it is the first character of a segment
    with more than the leading slash in front of it (the slash before the
    mark then ends the path, and is stripped). *)
Definition exposed_mark (scheme path : str) : bool :=
  bool_decide (scheme ∈ UrlParse.uses_params)
  && match Py.find ";" (last_segment path) with
     | Some k =>
         bool_decide (S k = length (last_segment path))
         || (bool_decide (k = 0%nat)
             && bool_decide (length (last_segment path) + 2 <= length path)%nat)
     | None => false
     end.

(** [urlunparse] and [urlunsplit] for an empty query and fragment, in three
    steps: the parameters are put behind the path, the netloc in front when
    there is one to write, the scheme before that. *)
Definition with_params (path params : str) : str :=
  if Py.truthy params then path ++ ";" ++ params else path.

Definition writes_netloc (scheme netloc url : str) : bool :=
  Py.truthy netloc
  || (Py.truthy scheme && bool_decide (scheme ∈ UrlParse.uses_netloc))
  || bool_decide (take 2 url = "//").

Definition written (scheme netloc url : str) : str :=
  scheme_prefix scheme
    ++ (if writes_netloc scheme netloc url
        then "//" ++ netloc ++ slashed url else url).

(** The path [urlsplit] reads in [written scheme netloc url]. *)
Definition read_back (scheme netloc url : str) : str :=
  if writes_netloc scheme netloc url then slashed url else url.

(** The path and the parameters [urlparse] makes of the path of
    [urlsplit]. *)
Definition params_of (scheme url : str) : str * str :=
  if bool_decide (scheme ∈ UrlParse.uses_params) && Py.has ";" url
  then UrlParse._splitparams url else (url, []).

(** What one [strip_url] makes of the path [urlsplit] reads. *)
Definition strip_step (scheme url : str) : str :=
  with_params (strip_path (params_of scheme url).1) (params_of scheme url).2.

(** What [urlsplit] needs to read [written scheme netloc url] back. *)
Definition readable `{UrlLib} (scheme netloc url : str) : Prop :=
  (scheme = [] \/ scheme_ok scheme)
  /\ safe netloc
  /\ ("/"%char ∉ netloc) /\ ("?"%char ∉ netloc) /\ ("#"%char ∉ netloc)
  /\ netloc_checks netloc = Ok ()
  /\ safe url /\ ("?"%char ∉ url) /\ ("#"%char ∉ url)
  /\ (writes_netloc scheme netloc url = false -> scheme = [] ->
      schemeless url).

(** ** The title selector as the specification words it

    A candidate with its internal whitespace collapsed and its ends trimmed
    is the words of the candidate, its maximal runs of characters that are
    not blank, with one space between them.  The candidates present, in the
    order visible text, [aria_label], [title_attr], are cleaned so; the
    first whose cleaned length lies between 4 and 120 is the title. *)

Definition collapsed (candidate : str) : str :=
  Py.join " " (Py.split_ws candidate).

Definition spec_pick_title (a : anchor) : option str :=
  head (filter (fun cleaned => 4 <= length cleaned <= 120)%nat
               (collapsed <$> omap id [text a; aria_label a; title_attr a])).

(** ** Vocabulary for well-formed documents *)

(** The handler calls for one [<a>] element: its start tag, what is inside
    it, its end tag. *)
Definition anchor_element (attrs : list (str * option str))
    (body : list event) : list event :=
  StartTag "a" attrs :: body ++ [EndTag "a"].

(** One [<a>] element with the markup in front of it. *)
Record block := mkBlock {
  block_before : list event;
  block_attrs : list (str * option str);
  block_body : list event }.

(** A document whose anchors are closed and not nested: blocks, then the
    markup after the last anchor. *)
Definition document (blocks : list block) (after : list event) : list event :=
  concat ((fun b => block_before b
                      ++ anchor_element (block_attrs b) (block_body b))
            <$> blocks) ++ after.

Definition plain (events : list event) : bool :=
  forallb (fun e => negb (anchor_tag e)) events.

Definition plain_block (b : block) : bool :=
  plain (block_before b) && plain (block_body b).

(** The value of the last attribute named [key], as [dict.get] returns
    it. *)
Definition last_attr (attrs : list (str * option str)) (key : str)
  : option str :=
  match last (filter (fun kv => kv.1 = key) attrs) with
  | Some kv => kv.2
  | None => None
  end.

(** ** Vocabulary for cleaned text *)

(** A word: a non-empty run of characters none of which is blank. *)
Definition word (w : str) : Prop :=
  w <> [] /\ Forall (fun c => Py.isspace c = false) w.

(** ** Vocabulary for the loop of [extract_recipes] *)

(** What the body of the loop does with one anchor: the recipe it appends,
    if any, or the exception it raises. *)
Definition recipe_of_anchor `{UrlLib} (base_url : str) (a : anchor)
  : Exc (option recipe) :=
  match href a with
  | Some href_ =>
      if negb (Py.truthy href_) then Ok None
      else
        url ← urljoin base_url href_;
        url ← strip_url url;
        recipe_like ← is_recipe_url url;
        if negb recipe_like then Ok None
        else
          match pick_title a with
          | Some title =>
              if negb (Py.truthy title) then Ok None
              else Ok (Some (mkRecipe title url))
          | None => Ok None
          end
  | None => Ok None
  end.

(** A recipe as the loop makes it from an anchor of the page. *)
Definition made_from `{UrlLib} (base_url : str) (anchors : list anchor)
    (r : recipe) : Prop :=
  exists a href_ joined,
    a ∈ anchors /\ href a = Some href_ /\ href_ <> []
    /\ urljoin base_url href_ = Ok joined
    /\ strip_url joined = Ok (recipe_url r)
    /\ is_recipe_url (recipe_url r) = Ok true
    /\ pick_title a = Some (recipe_title r).

(** ** Vocabulary for the statements about a run *)

(** The line [main] prints for one source page: none when the page is
    fetched and parsed, the failure message when either step raises. *)
Definition source_failure `{UrlLib} `{HtmlLib} (world : World) (url : str)
  : list str :=
  match (html ← fetch_url world url; extract_recipes html url) with
  | Ok _ => []
  | Raise exc =>
      ["Failed to fetch or parse " ++ url ++ ": " ++ exn_msg exc]
  end.

(** Both addresses are set in the environment and neither is empty. *)
Definition configured (world : World) : bool :=
  Py.truthy_opt (environ_get world "RECIPIENT_EMAIL")
  && Py.truthy_opt (environ_get world "SENDER_EMAIL").

(** ** Vocabulary for the statements about the message body *)

(** A string without a line feed. *)
Definition single_line (s : str) : Prop := ascii_of_nat 10 ∉ s.

(** The query and the fragment as they follow the path in the text of a URL;
    [None] when the URL has no [?], no [#]. *)
Definition query_suffix (q : option str) : str :=
  match q with Some q => "?" ++ q | None => [] end.
Definition fragment_suffix (f : option str) : str :=
  match f with Some f => "#" ++ f | None => [] end.

(** A scheme, a netloc and a path that can be written one after the other
    and read back: a scheme name in lower case or none, a netloc without
    [/], [?], [#] that passes the checks of [urlsplit], a path that is empty
    or starts with [/] and has no [?], [#], [;]. *)
Definition writable `{UrlLib} (s n path : str) : Prop :=
  (s = [] \/ scheme_ok s)
  /\ safe n /\ ("/"%char ∉ n) /\ ("?"%char ∉ n) /\ ("#"%char ∉ n)
  /\ netloc_checks n = Ok ()
  /\ safe path /\ rooted path
  /\ ("?"%char ∉ path) /\ ("#"%char ∉ path) /\ (";"%char ∉ path).

(** A scheme name as it may be written, in either case: characters of
    [scheme_chars], the first an ASCII letter. *)
Definition scheme_name (s : str) : Prop :=
  Forall (fun c => Py.has c UrlParse.scheme_chars = true) s
  /\ (exists c0 t, s = c0 :: t /\ Py.isascii c0 && Py.isalpha c0 = true).

(** * Properties *)

(** ** Facts about the string methods *)

Section Strings.

Implicit Types (s t sub : str) (c x : ascii) (p : ascii -> bool).

Lemma truthy_true s : Py.truthy s = true <-> s <> [].
Proof. unfold Py.truthy. case_bool_decide; naive_solver. Qed.

Lemma truthy_false s : Py.truthy s = false <-> s = [].
Proof. unfold Py.truthy. case_bool_decide; naive_solver. Qed.

Lemma has_true c s : Py.has c s = true <-> c ∈ s.
Proof. unfold Py.has. apply bool_decide_eq_true. Qed.

Lemma has_false c s : Py.has c s = false <-> c ∉ s.
Proof. unfold Py.has. apply bool_decide_eq_false. Qed.

(** *** [lstrip], [rstrip], [strip] *)

Lemma lstrip_decompose c s :
  exists k, s = replicate k c ++ Py.lstrip (Py.is_char c) s.
Proof.
  induction s as [|x s [k IH]]; [by exists 0%nat|].
  simpl. unfold Py.is_char at 1. case_bool_decide as Hx.
  - subst x. exists (S k). simpl. by f_equal.
  - by exists 0%nat.
Qed.

Lemma lstrip_head p s x t : Py.lstrip p s = x :: t -> p x = false.
Proof.
  induction s as [|y s IH]; simpl; [done|].
  destruct (p y) eqn:Hy; [done|]. intros [= -> _]. done.
Qed.

Lemma rstrip_decompose c s :
  exists k, s = Py.rstrip (Py.is_char c) s ++ replicate k c.
Proof.
  induction s as [|x s [k IH]]; [by exists 0%nat|].
  simpl. destruct (Py.rstrip (Py.is_char c) s) as [|y r] eqn:Hr.
  - simpl in IH. unfold Py.is_char. case_bool_decide as Hx.
    + subst x. exists (S k). simpl. by f_equal.
    + exists k. simpl. by f_equal.
  - exists k. simpl. by f_equal.
Qed.

Lemma rstrip_cons_keep p x s :
  p x = false -> exists r, Py.rstrip p (x :: s) = x :: r.
Proof.
  intros Hx. simpl. destruct (Py.rstrip p s); rewrite ?Hx; by eexists.
Qed.

Lemma rstrip_head p s x t :
  Py.rstrip p s = x :: t -> exists t', s = x :: t'.
Proof.
  destruct s as [|y s]; simpl; [done|].
  destruct (Py.rstrip p s); [destruct (p y)|]; intros [= -> _]; by eexists.
Qed.

Lemma strip_decompose c s :
  exists j k,
    s = replicate j c ++ Py.strip (Py.is_char c) s ++ replicate k c.
Proof.
  destruct (lstrip_decompose c s) as [j Hj].
  destruct (rstrip_decompose c (Py.lstrip (Py.is_char c) s)) as [k Hk].
  exists j, k. unfold Py.strip. by rewrite <- Hk.
Qed.

Lemma strip_head c s x t :
  Py.strip (Py.is_char c) s = x :: t -> x <> c.
Proof.
  unfold Py.strip. intros Hs.
  destruct (rstrip_head _ _ _ _ Hs) as [t' Ht'].
  apply lstrip_head in Ht'. unfold Py.is_char in Ht'.
  by apply bool_decide_eq_false in Ht'.
Qed.

Lemma rstrip_cons_fixed p y s :
  s <> [] -> Py.rstrip p s = s -> Py.rstrip p (y :: s) = y :: s.
Proof. intros Hne Hs. simpl. rewrite Hs. by destruct s. Qed.

Lemma truthy_cons x s : Py.truthy (x :: s) = true.
Proof. done. Qed.

(** An [rstrip] that leaves a string as it is does so again. *)
Lemma rstrip_idemp p s : Py.rstrip p (Py.rstrip p s) = Py.rstrip p s.
Proof.
  induction s as [|x s IH]; [done|].
  simpl. destruct (Py.rstrip p s) as [|y r] eqn:Hr.
  - destruct (p x) eqn:Hx; simpl; by rewrite ?Hx.
  - change (Py.rstrip p (x :: y :: r))
      with (match Py.rstrip p (y :: r) with
            | [] => if p x then [] else [x]
            | r0 => x :: r0
            end).
    by rewrite IH.
Qed.

Lemma rstrip_sub p s x : x ∈ Py.rstrip p s -> x ∈ s.
Proof.
  induction s as [|y s IH]; simpl; [done|].
  destruct (Py.rstrip p s) as [|z r].
  - destruct (p y); set_solver.
  - set_solver.
Qed.

(** *** [split] on a separator and the non-empty pieces *)

Lemma split_cons_sep c s : Py.split c (c :: s) = [] :: Py.split c s.
Proof. simpl. by rewrite bool_decide_true. Qed.

Lemma split_cons_other c x s :
  x <> c ->
  exists piece rest,
    Py.split c s = piece :: rest /\ Py.split c (x :: s) = (x :: piece) :: rest.
Proof.
  intros Hx. simpl. rewrite bool_decide_false by done.
  destruct s as [|y s]; simpl; [by eexists _, _|].
  case_bool_decide; [by eexists _, _|].
  destruct (Py.split c s); by eexists _, _.
Qed.

Lemma split_app_sep c s t :
  Py.split c (s ++ c :: t) = Py.split c s ++ Py.split c t.
Proof.
  induction s as [|x s IH].
  - by rewrite app_nil_l, split_cons_sep.
  - destruct (decide (x = c)) as [->|Hx].
    + rewrite <- app_comm_cons, !split_cons_sep, IH. done.
    + rewrite <- app_comm_cons.
      destruct (split_cons_other c x (s ++ c :: t) Hx)
        as (piece & rest & Hsplit & ->).
      destruct (split_cons_other c x s Hx) as (piece' & rest' & Hsplit' & ->).
      rewrite IH, Hsplit' in Hsplit. by injection Hsplit as <- <-.
Qed.

Lemma segments_of_cons_sep c s : segments_of c (c :: s) = segments_of c s.
Proof.
  unfold segments_of. rewrite split_cons_sep.
  by rewrite filter_cons_False by (simpl; tauto).
Qed.

Lemma segments_of_replicate c k : segments_of c (replicate k c) = [].
Proof.
  induction k as [|k IH]; [done|].
  simpl. by rewrite segments_of_cons_sep.
Qed.

Lemma segments_of_lead c k s :
  segments_of c (replicate k c ++ s) = segments_of c s.
Proof.
  induction k as [|k IH]; [done|].
  simpl. by rewrite segments_of_cons_sep.
Qed.

Lemma segments_of_trail c k s :
  segments_of c (s ++ replicate k c) = segments_of c s.
Proof.
  destruct k as [|k]; [by rewrite app_nil_r|].
  unfold segments_of. simpl. rewrite split_app_sep, filter_app.
  fold (segments_of c (replicate k c)).
  by rewrite segments_of_replicate, app_nil_r.
Qed.

Lemma segments_of_strip c s :
  segments_of c (Py.strip (Py.is_char c) s) = segments_of c s.
Proof.
  destruct (strip_decompose c s) as (j & k & Hs).
  rewrite Hs at 2. by rewrite segments_of_lead, segments_of_trail.
Qed.

(** A stripped path that is not empty has a first segment. *)
Lemma segments_of_strip_nonempty c s :
  Py.strip (Py.is_char c) s <> [] ->
  exists segment rest,
    segments_of c (Py.strip (Py.is_char c) s) = segment :: rest.
Proof.
  intros Hne. destruct (Py.strip (Py.is_char c) s) as [|x t] eqn:Hs; [done|].
  apply strip_head in Hs.
  destruct (split_cons_other c x t Hs) as (piece & rest & _ & Hsplit).
  unfold segments_of. rewrite Hsplit.
  rewrite filter_cons_True by done. by eexists _, _.
Qed.

(** *** [startswith] and [in] *)

Lemma startswith_spec sub s :
  Py.startswith sub s = true <-> exists after, s = sub ++ after.
Proof.
  revert s. induction sub as [|a sub IH]; intros s; simpl.
  - split; [by exists s | done].
  - destruct s as [|b s].
    + split; [done | by intros [after ?]].
    + rewrite andb_true_iff, bool_decide_eq_true, IH. split.
      * intros [-> [after ->]]. by exists after.
      * intros [after [= -> ->]]. split; [done | by exists after].
Qed.

Lemma contains_spec sub s : Py.contains sub s = true <-> substring sub s.
Proof.
  unfold substring. induction s as [|x s IH].
  - simpl. rewrite orb_false_r, startswith_spec. split.
    + intros [after ->]. by exists [], after.
    + intros (before & after & Hs). symmetry in Hs.
      apply app_eq_nil in Hs as [-> Hs]. exists after. by rewrite Hs.
  - cbn [Py.contains]. rewrite orb_true_iff, IH, startswith_spec. split.
    + intros [[after ->]|(before & after & ->)].
      * by exists [], after.
      * by exists (x :: before), after.
    + intros ([|y before] & after & Hs).
      * left. by exists after.
      * right. injection Hs as -> ->. by exists before, after.
Qed.

Lemma substring_cons_drop sub c s :
  c ∉ sub -> sub <> [] -> substring sub (c :: s) -> substring sub s.
Proof.
  intros Hc Hne ([|y before] & after & Hs).
  - destruct sub as [|z sub]; [done|]. injection Hs as -> _.
    exfalso. apply Hc. left.
  - injection Hs as _ ->. by exists before, after.
Qed.

Lemma substring_snoc_drop sub c s :
  c ∉ sub -> sub <> [] -> substring sub (s ++ [c]) -> substring sub s.
Proof.
  intros Hc Hne (before & after & Hs).
  destruct after as [|z after _] using rev_ind.
  - rewrite app_nil_r in Hs.
    destruct sub as [|y sub _] using rev_ind; [done|].
    rewrite app_assoc in Hs. apply app_inj_tail in Hs as [_ ->].
    exfalso. apply Hc. set_solver.
  - rewrite !app_assoc in Hs. apply app_inj_tail in Hs as [-> _].
    exists before, after. by rewrite app_assoc.
Qed.

Lemma substring_extend sub lead trail s :
  substring sub s -> substring sub (lead ++ s ++ trail).
Proof.
  intros (before & after & ->). exists (lead ++ before), (after ++ trail).
  by rewrite <- !app_assoc.
Qed.

Lemma substring_strip c sub s :
  c ∉ sub -> sub <> [] ->
  substring sub (Py.strip (Py.is_char c) s) <-> substring sub s.
Proof.
  intros Hc Hne. destruct (strip_decompose c s) as (j & k & Hs).
  split.
  - intros Hsub. rewrite Hs. by apply substring_extend.
  - rewrite Hs at 1. generalize (Py.strip (Py.is_char c) s). intros core.
    clear Hs. induction j as [|j IHj]; simpl.
    + induction k as [|k IHk]; [by rewrite app_nil_r|].
      intros Hsub. apply IHk.
      apply (substring_snoc_drop sub c); [done..|].
      rewrite <- app_assoc.
      by replace (replicate k c ++ [c]) with (replicate (S k) c)
        by (by rewrite <- replicate_S_end).
    + intros Hsub. apply IHj. by apply (substring_cons_drop sub c).
Qed.

(** *** [lower] *)

Lemma lower_char_slash x : Py.lower_char x = "/"%char <-> x = "/"%char.
Proof.
  destruct x as [[] [] [] [] [] [] [] []]; vm_compute; split; congruence.
Qed.

Lemma lower_lstrip_slash s :
  Py.lower (Py.lstrip (Py.is_char "/") s)
  = Py.lstrip (Py.is_char "/") (Py.lower s).
Proof.
  induction s as [|x s IH]; [done|].
  cbn [Py.lower fmap list_fmap Py.lstrip]. unfold Py.is_char at 1 3.
  pose proof (lower_char_slash x).
  repeat case_bool_decide; try naive_solver.
Qed.

Lemma lower_rstrip_slash s :
  Py.lower (Py.rstrip (Py.is_char "/") s)
  = Py.rstrip (Py.is_char "/") (Py.lower s).
Proof.
  induction s as [|x s IH]; [done|].
  cbn [Py.lower fmap list_fmap Py.rstrip]. fold (Py.lower s). rewrite <- IH.
  destruct (Py.rstrip (Py.is_char "/") s) as [|y r]; [|done].
  cbn [Py.lower fmap list_fmap]. unfold Py.is_char.
  pose proof (lower_char_slash x).
  repeat case_bool_decide; try naive_solver.
Qed.

Lemma lower_strip_slash s :
  Py.lower (Py.strip (Py.is_char "/") s)
  = Py.strip (Py.is_char "/") (Py.lower s).
Proof. unfold Py.strip. by rewrite lower_rstrip_slash, lower_lstrip_slash. Qed.

(** *** [find] *)

Lemma find_None c s : Py.find c s = None <-> c ∉ s.
Proof.
  induction s as [|x s IH]; simpl; [set_solver|].
  case_bool_decide as Hx.
  - subst x. set_solver.
  - rewrite fmap_None, IH. set_solver.
Qed.

Lemma find_Some c s i :
  Py.find c s = Some i -> s !! i = Some c /\ c ∉ take i s.
Proof.
  revert i. induction s as [|x s IH]; intros i; simpl; [done|].
  case_bool_decide as Hx.
  - intros [= <-]. subst x. simpl. split; [done | set_solver].
  - destruct (Py.find c s) as [j|]; [|done].
    intros [= <-]. destruct (IH j eq_refl) as [Hj Htake]. simpl.
    split; [done | set_solver].
Qed.

Lemma find_app_notin c s t :
  c ∉ s -> Py.find c (s ++ t) = (fun i => (length s + i)%nat) <$> Py.find c t.
Proof.
  intros Hc. induction s as [|x s IH]; simpl.
  - by destruct (Py.find c t).
  - rewrite bool_decide_false by set_solver.
    rewrite IH by set_solver. by destruct (Py.find c t).
Qed.

Lemma find_notin c s : c ∉ s -> Py.find c s = None.
Proof. apply find_None. Qed.

Lemma find_head c s : Py.find c (c :: s) = Some 0%nat.
Proof. simpl. by rewrite bool_decide_true. Qed.

Lemma find_Some_split c s i :
  Py.find c s = Some i -> s = take i s ++ c :: drop (S i) s.
Proof.
  intros [Hi _]%find_Some. by rewrite take_drop_middle.
Qed.

(** [s.find(c, start)] finds the first [c] at or after [start]. *)
Lemma find_from_Some c start s w :
  Py.find_from c start s = Some w ->
  (start <= w)%nat /\ s !! w = Some c
  /\ forall d, (d <= w)%nat -> c ∉ Py.slice start d s.
Proof.
  unfold Py.find_from, Py.slice.
  destruct (Py.find c (drop start s)) as [i|] eqn:Hfind; [|done].
  intros [= <-]. destruct (find_Some _ _ _ Hfind) as [Hi Htake].
  rewrite lookup_drop in Hi. split; [lia|]. split; [done|].
  intros d Hd Hin. apply Htake.
  apply elem_of_take in Hin as (j & Hj & Hlt).
  apply elem_of_take. exists j. split; [done | lia].
Qed.

Lemma find_from_None c start s d :
  Py.find_from c start s = None -> c ∉ Py.slice start d s.
Proof.
  unfold Py.find_from, Py.slice. rewrite fmap_None, find_None.
  intros Hc Hin. apply Hc.
  apply elem_of_take in Hin as (j & Hj & _). by apply list_elem_of_lookup_2 in Hj.
Qed.

End Strings.

(** ** Deduplication *)

Section Dedupe.

Implicit Types (recipes rest deduped earlier : list recipe) (seen : gset str).

Lemma dedupe_loop_kept rest : forall earlier seen deduped,
  (forall k, k ∈ seen <-> k ∈ url_key <$> earlier) ->
  dedupe_loop rest seen deduped = deduped ++ kept_after earlier rest.
Proof.
  induction rest as [|r rest IH]; intros earlier seen deduped Hseen; simpl.
  - by rewrite app_nil_r.
  - fold (url_key r).
    assert (Hnext : forall k, k ∈ {[url_key r]} ∪ seen
                              <-> k ∈ url_key <$> (earlier ++ [r])).
    { intros k. rewrite fmap_app, elem_of_app, <- Hseen. simpl.
      rewrite list_elem_of_singleton. set_solver. }
    repeat case_bool_decide; simpl.
    + apply IH. intros k. rewrite <- Hnext. set_solver.
    + exfalso. naive_solver.
    + exfalso. naive_solver.
    + rewrite (IH (earlier ++ [r])) by done. by rewrite <- app_assoc.
Qed.

Lemma first_occurrence_spec recipes i r :
  first_occurrence recipes i r
  = negb (bool_decide (url_key r ∈ url_key <$> take i recipes)).
Proof.
  unfold first_occurrence.
  induction (take i recipes) as [|x l IH]; simpl; [done|].
  rewrite IH.
  repeat case_bool_decide; simpl; try done; exfalso; set_solver.
Qed.

Lemma kept_after_indexed rest : forall earlier,
  kept_after earlier rest
  = omap id
      (imap (fun i r =>
               if first_occurrence (earlier ++ rest) (length earlier + i) r
               then Some r else None) rest).
Proof.
  induction rest as [|r rest IH]; intros earlier; [done|].
  simpl. rewrite first_occurrence_spec, Nat.add_0_r, take_app_length.
  rewrite (IH (earlier ++ [r])).
  assert (Htail :
    imap (fun i r0 =>
            if first_occurrence ((earlier ++ [r]) ++ rest)
                 (length (earlier ++ [r]) + i) r0 then Some r0 else None) rest
    = imap ((fun i r0 =>
            if first_occurrence (earlier ++ r :: rest)
                 (length earlier + i) r0 then Some r0 else None) ∘ S) rest).
  { apply imap_ext. intros i x _. simpl.
    rewrite <- app_assoc, length_app. simpl.
    by replace (length earlier + 1 + i)%nat with (length earlier + S i)%nat
      by lia. }
  rewrite Htail.
  by destruct (bool_decide (url_key r ∈ url_key <$> earlier)).
Qed.

Lemma dedupe_recipes_spec recipes : dedupe_recipes recipes = spec_dedupe recipes.
Proof.
  unfold dedupe_recipes, spec_dedupe.
  rewrite (dedupe_loop_kept recipes [] ∅ []) by set_solver.
  by rewrite kept_after_indexed.
Qed.

Lemma kept_after_sublist rest : forall earlier,
  sublist (kept_after earlier rest) rest.
Proof.
  induction rest as [|r rest IH]; intros earlier; simpl; [done|].
  case_bool_decide; simpl.
  - by apply sublist_cons.
  - by apply sublist_skip.
Qed.

Lemma kept_after_keys rest : forall earlier k,
  k ∈ url_key <$> kept_after earlier rest
  <-> k ∈ url_key <$> rest /\ k ∉ url_key <$> earlier.
Proof.
  induction rest as [|r rest IH]; intros earlier k; simpl.
  - set_solver.
  - rewrite fmap_app, elem_of_app, IH, fmap_app, elem_of_app, elem_of_cons.
    simpl. rewrite list_elem_of_singleton.
    case_bool_decide; simpl.
    + rewrite elem_of_nil. split; [naive_solver|].
      intros [[->|?] ?]; naive_solver.
    + rewrite list_elem_of_singleton.
      destruct (decide (k = url_key r)); naive_solver.
Qed.

Lemma kept_after_NoDup rest : forall earlier,
  NoDup (url_key <$> kept_after earlier rest).
Proof.
  induction rest as [|r rest IH]; intros earlier; simpl; [constructor|].
  case_bool_decide; simpl; [apply IH|].
  constructor; [|apply IH].
  rewrite kept_after_keys, fmap_app, elem_of_app. simpl.
  rewrite list_elem_of_singleton. naive_solver.
Qed.

Lemma dedupe_recipes_kept recipes :
  dedupe_recipes recipes = kept_after [] recipes.
Proof.
  unfold dedupe_recipes.
  by rewrite (dedupe_loop_kept recipes [] ∅ []) by set_solver.
Qed.

Lemma dedupe_recipes_length recipes :
  length (dedupe_recipes recipes)
  = size (list_to_set (url_key <$> recipes) : gset str).
Proof.
  rewrite dedupe_recipes_kept.
  rewrite <- (length_fmap url_key (kept_after [] recipes)).
  rewrite <- (size_list_to_set (C := gset str))
    by apply kept_after_NoDup.
  f_equal. apply set_eq. intros k.
  rewrite !elem_of_list_to_set, kept_after_keys. set_solver.
Qed.

(** C4. [dedupe_recipes] keeps exactly the first entry of every
    lowercased URL, in the order of the input: it equals [spec_dedupe], it
    is a subsequence of the input, no two entries kept share a lowercased
    URL, and there are at most as many entries as distinct lowercased
    URLs in the input. *)
Theorem dedupe_recipes_first_occurrences (recipes : list recipe) :
  dedupe_recipes recipes = spec_dedupe recipes
  /\ sublist (dedupe_recipes recipes) recipes
  /\ NoDup (url_key <$> dedupe_recipes recipes)
  /\ (length (dedupe_recipes recipes)
      <= size (list_to_set (url_key <$> recipes) : gset str))%nat.
Proof.
  split; [apply dedupe_recipes_spec|].
  rewrite dedupe_recipes_length, dedupe_recipes_kept.
  auto using kept_after_sublist, kept_after_NoDup.
Qed.

End Dedupe.

(** ** The link extractor *)

Section Extractor.

Implicit Types (self : AnchorExtractor) (events body : list event).

Lemma feed_app self events body :
  feed self (events ++ body) = feed (feed self events) body.
Proof. apply foldl_app. Qed.

Lemma feed_cons self e events :
  feed self (e :: events) = feed (handle self e) events.
Proof. done. Qed.

(** Between two anchor tags an open anchor only gathers text. *)
Lemma feed_inside body : forall found current parts,
  forallb (fun e => negb (anchor_tag e)) body = true ->
  feed (mkAnchorExtractor found (Some current) parts) body
  = mkAnchorExtractor found (Some current) (parts ++ data_of body).
Proof.
  induction body as [|e body IH]; intros found current parts Hbody.
  - by rewrite app_nil_r.
  - simpl in Hbody. apply andb_true_iff in Hbody as [He Hbody].
    rewrite feed_cons.
    destruct e as [tag attrs|tag|tag attrs|data|]; simpl in He;
      try (apply negb_true_iff, bool_decide_eq_false in He);
      cbn [handle data_of omap list_omap];
      unfold handle_starttag, handle_endtag, handle_data;
      rewrite ?bool_decide_true by done; cbn [_current anchors _text_parts];
      rewrite ?bool_decide_true by done; rewrite IH by done;
      by rewrite <- ?app_assoc.
Qed.

(** Outside an anchor, events other than anchor tags change nothing. *)
Lemma feed_outside body : forall found parts,
  forallb (fun e => negb (anchor_tag e)) body = true ->
  feed (mkAnchorExtractor found None parts) body
  = mkAnchorExtractor found None parts.
Proof.
  induction body as [|e body IH]; intros found parts Hbody; [done|].
  simpl in Hbody. apply andb_true_iff in Hbody as [He Hbody].
  rewrite feed_cons.
  destruct e as [tag attrs|tag|tag attrs|data|]; simpl in He;
    try (apply negb_true_iff, bool_decide_eq_false in He);
    cbn [handle]; unfold handle_starttag, handle_endtag, handle_data;
    rewrite ?bool_decide_true by done; cbn [_current anchors _text_parts];
    by rewrite IH.
Qed.

(** Events that do not close an anchor add no record. *)
Lemma handle_unclosed self e :
  closes_anchor e = false ->
  anchors (handle self e) = anchors self
  /\ (is_Some (_current self) -> is_Some (_current (handle self e))).
Proof.
  intros He. destruct self as [found [current|] parts];
    destruct e as [tag attrs|tag|tag attrs|data|]; simpl in He;
    try (apply bool_decide_eq_false in He);
    cbn [handle]; unfold handle_starttag, handle_endtag, handle_data;
    cbn [_current anchors _text_parts];
    repeat case_bool_decide; cbn [_current anchors _text_parts];
    try done; split; try done; intros _; by eexists.
Qed.

Lemma feed_unclosed events : forall self,
  forallb (fun e => negb (closes_anchor e)) events = true ->
  anchors (feed self events) = anchors self
  /\ (is_Some (_current self) -> is_Some (_current (feed self events))).
Proof.
  induction events as [|e events IH]; intros self Hev; [done|].
  simpl in Hev. apply andb_true_iff in Hev as [He Hev].
  apply negb_true_iff in He.
  rewrite feed_cons. destruct (IH (handle self e) Hev) as [IHa IHc].
  destruct (handle_unclosed self e He) as [Ha Hc].
  rewrite IHa, Ha. auto.
Qed.

(** C8, as the code has it.  An [<a>] element still open when the input
    ends gets no record: after an opening [<a>], events that do not close
    it leave the list of records as it was and the element open. *)
Theorem unclosed_anchor_yields_no_record self attrs events :
  forallb (fun e => negb (closes_anchor e)) events = true ->
  anchors (feed self (StartTag "a" attrs :: events)) = anchors self
  /\ is_Some (_current (feed self (StartTag "a" attrs :: events))).
Proof.
  intros Hev. rewrite feed_cons.
  destruct (feed_unclosed events (handle self (StartTag "a" attrs)) Hev)
    as [Ha Hc].
  rewrite Ha. split; [done|]. apply Hc. simpl. by eexists.
Qed.

Lemma handle_starttag_a self attrs :
  handle_starttag self "a" attrs
  = mkAnchorExtractor (anchors self)
      (Some (mkAnchor (attr_get (attr_map_of attrs) "href")
                      (attr_get (attr_map_of attrs) "title")
                      (attr_get (attr_map_of attrs) "aria-label") None))
      [].
Proof. done. Qed.

(** C10. When a second [<a>] opens before the first is closed, the first
    gets no record: the run of events below leaves exactly one new record,
    that of the inner element with the text read since it opened, whatever
    the outer attributes and the events between the two opening tags are;
    the last [</a>], which matches nothing, is ignored. *)
Theorem nested_anchor_keeps_inner_only self outer inner mid body tail :
  forallb (fun e => negb (closes_anchor e)) mid = true ->
  forallb (fun e => negb (anchor_tag e)) body = true ->
  forallb (fun e => negb (anchor_tag e)) tail = true ->
  feed self (StartTag "a" outer :: mid ++ StartTag "a" inner :: body)
  = mkAnchorExtractor (anchors self)
      (Some (mkAnchor (attr_get (attr_map_of inner) "href")
                      (attr_get (attr_map_of inner) "title")
                      (attr_get (attr_map_of inner) "aria-label") None))
      (data_of body)
  /\ feed self (StartTag "a" outer :: mid ++ StartTag "a" inner :: body
                  ++ [EndTag "a"])
     = mkAnchorExtractor
         (anchors self ++ [closed_anchor inner (data_of body)]) None []
  /\ feed self (StartTag "a" outer :: mid ++ StartTag "a" inner :: body
                  ++ EndTag "a" :: tail ++ [EndTag "a"])
     = mkAnchorExtractor
         (anchors self ++ [closed_anchor inner (data_of body)]) None [].
Proof.
  intros Hmid Hbody Htail.
  assert (Hopen :
    feed self (StartTag "a" outer :: mid ++ StartTag "a" inner :: body)
    = mkAnchorExtractor (anchors self)
        (Some (mkAnchor (attr_get (attr_map_of inner) "href")
                        (attr_get (attr_map_of inner) "title")
                        (attr_get (attr_map_of inner) "aria-label") None))
        (data_of body)).
  { rewrite app_comm_cons, feed_app, feed_cons.
    destruct (feed_unclosed (StartTag "a" outer :: mid) self) as [Hfound _];
      [done|].
    cbn [handle]. rewrite handle_starttag_a, Hfound.
    by rewrite feed_inside. }
  assert (Hclosed :
    feed self (StartTag "a" outer :: mid ++ StartTag "a" inner :: body
                 ++ [EndTag "a"])
    = mkAnchorExtractor
        (anchors self ++ [closed_anchor inner (data_of body)]) None []).
  { replace (StartTag "a" outer :: mid ++ StartTag "a" inner :: body
               ++ [EndTag "a"])
      with ((StartTag "a" outer :: mid ++ StartTag "a" inner :: body)
              ++ [EndTag "a"])
      by (simpl; f_equal; by rewrite <- app_assoc).
    rewrite feed_app, Hopen. reflexivity. }
  split; [done|]. split; [done|].
  replace (StartTag "a" outer :: mid ++ StartTag "a" inner :: body
             ++ EndTag "a" :: tail ++ [EndTag "a"])
    with ((StartTag "a" outer :: mid ++ StartTag "a" inner :: body
             ++ [EndTag "a"]) ++ tail ++ [EndTag "a"]).
  2:{ simpl. f_equal. rewrite <- !app_assoc. simpl. f_equal. f_equal.
      by rewrite <- app_assoc. }
  rewrite feed_app, Hclosed, feed_app, feed_outside by done. done.
Qed.

End Extractor.

(** ** Weekly selection *)

Section WeeklyProofs.
Context `{RandomLib}.

Implicit Types (recipes : list recipe) (count : Z).

(** The seed is a function of the ISO year and the ISO week alone. *)
Lemma week_seed_year_week now :
  week_seed now
  = Py.str_of_int (iso_year_week now).1 ++ "-W"
      ++ Py.str_of_int (iso_year_week now).2.
Proof.
  unfold week_seed, iso_year_week.
  by destruct (Datetime.isocalendar now) as [[year week] weekday].
Qed.

(** C1. Two instants of the same ISO year and ISO week give the same seed
    and so the same selection, for every list and every count. *)
Theorem pick_weekly_recipes_same_week recipes count
    (A B : Datetime.datetime) :
  iso_year_week A = iso_year_week B ->
  week_seed A = week_seed B
  /\ pick_weekly_recipes recipes count A
     = pick_weekly_recipes recipes count B.
Proof.
  intros Hweek.
  assert (Hseed : week_seed A = week_seed B)
    by by rewrite !week_seed_year_week, Hweek.
  split; [done|]. unfold pick_weekly_recipes. by rewrite Hseed.
Qed.

Context `{!RandomSpec}.

(** The two ways out of [pick_weekly_recipes]. *)
Lemma pick_weekly_recipes_cases recipes count now :
  0 <= count ->
  (Z.of_nat (length recipes) <= count
   /\ pick_weekly_recipes recipes count now = Ok recipes)
  \/ (count < Z.of_nat (length recipes)
      /\ exists selected,
           pick_weekly_recipes recipes count now = Ok selected
           /\ Z.of_nat (length selected) = count).
Proof.
  intros Hcount. unfold pick_weekly_recipes.
  destruct (Z.leb_spec (Z.of_nat (length recipes)) count) as [Hle|Hgt].
  - by left.
  - right. split; [done|].
    apply (sample_length (Random (week_seed now)) recipes count). lia.
Qed.

(** C3. For a count that is not negative the selection has
    [min(count, len(recipes))] entries, and it is the list given when that
    list has at most [count] entries. *)
Theorem pick_weekly_recipes_size recipes count now :
  0 <= count ->
  exists selected,
    pick_weekly_recipes recipes count now = Ok selected
    /\ Z.of_nat (length selected) = Z.min count (Z.of_nat (length recipes))
    /\ (Z.of_nat (length recipes) <= count -> selected = recipes).
Proof.
  intros Hcount.
  destruct (pick_weekly_recipes_cases recipes count now Hcount)
    as [[Hle Hpick]|[Hgt (selected & Hpick & Hlen)]].
  - exists recipes. split; [done|]. split; [lia | done].
  - exists selected. split; [done|]. split; lia.
Qed.

End WeeklyProofs.

Section DemoLibrary.
Import Demo.

Lemma pool_sample_length k : forall x pool,
  (k <= length pool)%nat -> length (pool_sample x pool k) = k.
Proof.
  induction k as [|k IH]; intros x pool Hk; [done|].
  cbn [pool_sample].
  assert (Hn : (0 < length pool)%nat) by lia.
  assert (Hj : (Z.to_nat (x mod Z.of_nat (length pool)) < length pool)%nat).
  { pose proof (Z.mod_pos_bound x (Z.of_nat (length pool))). lia. }
  destruct (lookup_lt_is_Some_2 pool _ Hj) as [picked ->].
  destruct (lookup_lt_is_Some_2 pool (length pool - 1)%nat) as [moved ->];
    [lia|].
  simpl. f_equal. apply IH.
  rewrite length_take, length_insert. lia.
Qed.

#[global] Instance demo_random_spec : @RandomSpec Demo.random_lib.
Proof.
  constructor. intros g population k Hk. simpl. unfold demo_sample.
  destruct (Z.leb_spec 0 k); [|lia].
  destruct (Z.leb_spec k (Z.of_nat (length population))); [|lia].
  simpl. eexists. split; [done|].
  rewrite pool_sample_length; lia.
Qed.

(** Wednesday 4 and Friday 6 November 2026 lie in ISO week 45 of 2026. *)
Lemma pick_weekly_recipes_same_week_witness :
  iso_year_week wednesday = iso_year_week friday
  /\ pick_weekly_recipes (numbered 8) 5 wednesday
     = pick_weekly_recipes (numbered 8) 5 friday.
Proof.
  split; [reflexivity|].
  apply (pick_weekly_recipes_same_week (numbered 8) 5 wednesday friday).
  reflexivity.
Defined.

Lemma pick_weekly_recipes_size_witness :
  0 <= 5
  /\ exists selected,
       pick_weekly_recipes (numbered 8) 5 wednesday = Ok selected
       /\ Z.of_nat (length selected) = Z.min 5 (Z.of_nat (length (numbered 8)))
       /\ (Z.of_nat (length (numbered 8)) <= 5 -> selected = numbered 8).
Proof.
  split; [lia|].
  apply (pick_weekly_recipes_size (numbered 8) 5 wednesday). lia.
Defined.

End DemoLibrary.

(** ** Anchors without a usable [href] *)

Section EmptyHref.
Context `{UrlLib}.

Implicit Types (before after : list anchor) (found : list recipe).

Lemma extract_loop_skips base_url a after before : forall found,
  Py.truthy_opt (href a) = false ->
  extract_loop base_url (before ++ a :: after) found
  = extract_loop base_url (before ++ after) found.
Proof.
  intros found Ha. revert found.
  induction before as [|x before IH]; intros found.
  - simpl. destruct (href a) as [h|]; [|done].
    simpl in Ha. by rewrite Ha.
  - simpl. unfold mbind, Exc_bind.
    repeat (case_match; try done); apply IH.
Qed.

(** C9. An anchor whose [href] is the empty string is skipped as one
    without [href] is: with either in the list the loop gives what it
    gives without the anchor, whatever the library does for [urljoin],
    so nothing is resolved, classified or titled for it. *)
Theorem empty_href_is_skipped base_url a before after found :
  let empty_href :=
    {| href := Some []; title_attr := title_attr a;
       aria_label := aria_label a; text := text a |} in
  let no_href :=
    {| href := None; title_attr := title_attr a;
       aria_label := aria_label a; text := text a |} in
  extract_loop base_url (before ++ empty_href :: after) found
  = extract_loop base_url (before ++ after) found
  /\ extract_loop base_url (before ++ empty_href :: after) found
     = extract_loop base_url (before ++ no_href :: after) found.
Proof.
  intros empty_href no_href.
  rewrite !extract_loop_skips by done. done.
Qed.

End EmptyHref.

(** ** The run *)

Section MainProofs.
Context `{UrlLib} `{HtmlLib} `{RandomLib} `{!RandomSpec}.

Lemma gather_recipes world pages : forall recipes log,
  (gather world pages recipes log).1
  = recipes ++ concat (source_recipes world <$> pages).
Proof.
  induction pages as [|url pages IH]; intros recipes log; simpl.
  - by rewrite app_nil_r.
  - unfold source_recipes at 1.
    destruct (html ← fetch_url world url; extract_recipes html url)
      as [found|exc]; rewrite IH; [by rewrite app_assoc | done].
Qed.

(** C7, as the code has it.  Whatever sources fail, the recipes of the
    sources that did not fail are deduplicated, the week's selection is
    formatted and handed to the mail channel; the run returns the success
    result when the addresses are configured and the channel accepts the
    message. *)
Theorem main_survives_source_failures world recipient sender send :
  environ_get world "RECIPIENT_EMAIL" = Some recipient ->
  environ_get world "SENDER_EMAIL" = Some sender ->
  Py.truthy recipient = true ->
  Py.truthy sender = true ->
  ses_client world = Ok send ->
  (forall subject body, send sender recipient subject body = Ok ()) ->
  let recipes :=
    dedupe_recipes (concat (source_recipes world <$> RECIPE_PAGES)) in
  let week_label := Datetime.strftime_week_of (est_now world) in
  returned (main world) = Ok (StatusSuccess (length recipes))
  /\ exists subject body,
       handed_over (main world)
       = Some (mkEmail sender recipient subject body)
       /\ (recipes = [] -> body = no_recipes_body)
       /\ (recipes <> [] ->
           exists selected,
             pick_weekly_recipes recipes 5 (est_now world) = Ok selected
             /\ Z.of_nat (length selected)
                = Z.min 5 (Z.of_nat (length recipes))
             /\ body = format_recipes selected week_label).
Proof.
  intros Hrecipient Hsender Hr Hs Hses Hsend. cbv zeta.
  unfold main. rewrite Hrecipient, Hsender, Hr, Hs. cbn [andb negb].
  pose proof (gather_recipes world RECIPE_PAGES [] []) as Hgather.
  destruct (gather world RECIPE_PAGES [] []) as [gathered log].
  cbn [fst app] in Hgather. subst gathered.
  generalize (dedupe_recipes (concat (source_recipes world <$> RECIPE_PAGES))).
  intros recipes. unfold send_email. rewrite Hses.
  destruct recipes as [|r recipes'].
  - rewrite Hsend. cbn [returned handed_over length]. split; [done|].
    eexists _, _. split; [done|]. split; [done|]. by intros [].
  - assert (Hpick : exists selected,
      pick_weekly_recipes (r :: recipes') 5 (est_now world) = Ok selected
      /\ Z.of_nat (length selected)
         = Z.min 5 (Z.of_nat (length (r :: recipes')))).
    { destruct (pick_weekly_recipes_cases (r :: recipes') 5 (est_now world))
        as [[Hle Hpick]|[Hgt (selected & Hpick & Hlen)]]; [lia| |].
      - exists (r :: recipes'). split; [done | lia].
      - exists selected. split; [done | lia]. }
    destruct Hpick as (selected & Hsel & Hlen).
    rewrite Hsel. cbn [mbind Exc_bind]. rewrite Hsend.
    cbn [returned handed_over]. split; [done|].
    eexists _, _. split; [done|]. split; [done|].
    intros _. by exists selected.
Qed.

End MainProofs.

Section DemoRuns.
Import Demo.

(** A run in which the dinner page cannot be fetched and the mail channel
    accepts the message. *)
Lemma main_survives_source_failures_witness :
  fetch_url world_delivered dinner
    = Raise (Exn "URLError" "<urlopen error timed out>")
  /\ returned (main world_delivered) = Ok (StatusSuccess 1).
Proof.
  split; [reflexivity|].
  refine (proj1 (main_survives_source_failures world_delivered
                   "cook@example.org" "cron@example.org"
                   (fun _ _ _ _ => Ok ()) _ _ _ _ _ _));
    reflexivity.
Defined.

(** The dinner page cannot be fetched, the lunch page gives one recipe,
    the mail channel refuses the message: the run returns the error
    result. *)
Lemma main_error_despite_successful_source :
  fetch_url world_undelivered dinner
    = Raise (Exn "URLError" "<urlopen error timed out>")
  /\ source_recipes world_undelivered lunch
     = [mkRecipe "Vegan Chili"
                 "https://www.noracooks.com/recipes/vegan-chili"]
  /\ returned (main world_undelivered)
     = Ok (StatusError "Failed to send email").
Proof. vm_compute. done. Qed.

End DemoRuns.

Section DemoExtractor.
Import Demo.

(** The input [<a href='/x'>Hello] ends inside the anchor: the parser has
    no record for it and no recipe comes of it. *)
Lemma unclosed_anchor_is_lost :
  feed_events unclosed_page
    = Ok [StartTag "a" [(str_of_string "href", Some (str_of_string "/x"))];
          Data "Hello"]
  /\ anchors (feed AnchorExtractor_init
                [StartTag "a" [(str_of_string "href",
                                Some (str_of_string "/x"))];
                 Data "Hello"]) = []
  /\ extract_recipes unclosed_page lunch = Ok [].
Proof. vm_compute. done. Qed.

Lemma unclosed_anchor_yields_no_record_witness :
  anchors (feed AnchorExtractor_init
             [StartTag "a" [(str_of_string "href",
                             Some (str_of_string "/x"))];
              Data "Hello"; StartTag "b" []])
  = [].
Proof.
  apply (unclosed_anchor_yields_no_record AnchorExtractor_init
           [(str_of_string "href", Some (str_of_string "/x"))]
           [Data "Hello"; StartTag "b" []]).
  reflexivity.
Defined.

(** [<a href='/one'>One <a href='/two'>Two Two</a> tail</a>] *)
Lemma nested_anchor_keeps_inner_only_witness :
  feed AnchorExtractor_init
    [StartTag "a" [(str_of_string "href", Some (str_of_string "/one"))];
     Data "One ";
     StartTag "a" [(str_of_string "href", Some (str_of_string "/two"))];
     Data "Two Two"; EndTag "a"; Data " tail"; EndTag "a"]
  = mkAnchorExtractor
      [mkAnchor (Some (str_of_string "/two")) None None
                (Some (str_of_string "Two Two"))]
      None [].
Proof.
  apply (nested_anchor_keeps_inner_only AnchorExtractor_init
           [(str_of_string "href", Some (str_of_string "/one"))]
           [(str_of_string "href", Some (str_of_string "/two"))]
           [Data "One "] [Data "Two Two"] [Data " tail"]);
    reflexivity.
Defined.

End DemoExtractor.


(** ** The recipe classifier *)

Section Classifier.
Context `{UrlLib}.

Lemma fragments_plain fragment :
  fragment ∈ EXCLUDED_PATH_FRAGMENTS ->
  ("/"%char ∉ fragment) /\ fragment <> [].
Proof.
  revert fragment. apply Forall_forall.
  by apply (bool_decide_unpack _).
Qed.

(** The test of the loop over [EXCLUDED_PATH_FRAGMENTS], made on the
    stripped path, is a test on the whole path. *)
Lemma no_fragment_in_path path :
  existsb (fun fragment =>
             Py.contains fragment
               (Py.lower (Py.strip (Py.is_char "/") path)))
          EXCLUDED_PATH_FRAGMENTS = false
  <-> forall fragment,
        fragment ∈ EXCLUDED_PATH_FRAGMENTS ->
        ~ substring fragment (Py.lower path).
Proof.
  rewrite <- not_true_iff_false, existsb_exists. split.
  - intros Hnone fragment Hin Hsub. apply Hnone. exists fragment.
    split; [by apply list_elem_of_In|].
    destruct (fragments_plain fragment Hin) as [Hslash Hne].
    apply contains_spec. rewrite lower_strip_slash.
    by apply substring_strip.
  - intros Hnone (fragment & Hin%list_elem_of_In & Hsub).
    destruct (fragments_plain fragment Hin) as [Hslash Hne].
    apply (Hnone fragment Hin).
    apply contains_spec in Hsub. rewrite lower_strip_slash in Hsub.
    by apply substring_strip in Hsub.
Qed.

(** C2, as the code has it.  [is_recipe_url] returns true exactly when the
    URL parses and: the scheme is http or https; the netloc, user info and
    port included, is an allowed host once in lower case; the path of
    [urlparse], which is without the parameters behind a [;] of the last
    segment, is not empty when stripped of slashes; its first segment, in
    lower case, is no excluded prefix; no excluded fragment occurs in that
    path in lower case. *)
Theorem is_recipe_url_iff (url : str) :
  is_recipe_url url = Ok true <->
  exists parsed,
    UrlParse.urlparse url = Ok parsed
    /\ (UrlParse.scheme parsed = "http" \/ UrlParse.scheme parsed = "https")
    /\ Py.lower (UrlParse.netloc parsed) ∈ ALLOWED_HOSTS
    /\ Py.strip (Py.is_char "/") (UrlParse.path parsed) <> []
    /\ (exists segment,
          first_segment (UrlParse.path parsed) = Some segment
          /\ Py.lower segment ∉ EXCLUDED_PATH_PREFIXES)
    /\ (forall fragment,
          fragment ∈ EXCLUDED_PATH_FRAGMENTS ->
          ~ substring fragment (Py.lower (UrlParse.path parsed))).
Proof.
  unfold is_recipe_url.
  destruct (UrlParse.urlparse url) as [parsed|e]; cbn [mbind Exc_bind];
    [|split; [done | by intros (? & ? & _)]].
  set (path := Py.strip (Py.is_char "/") (UrlParse.path parsed)).
  fold (segments_of "/" path).
  assert (Hsegments : segments_of "/" (UrlParse.path parsed)
                      = segments_of "/" path)
    by (symmetry; apply segments_of_strip).
  pose proof (no_fragment_in_path (UrlParse.path parsed)) as Hfragments.
  fold path in Hfragments.
  split.
  - intros Hcode. exists parsed. split; [done|].
    unfold first_segment. rewrite Hsegments.
    case_bool_decide as Hscheme; [|done]. cbn [negb] in Hcode.
    case_bool_decide as Hhost; [|done]. cbn [negb] in Hcode.
    destruct (Py.truthy path) eqn:Hpath; [|done]. cbn [negb] in Hcode.
    apply truthy_true in Hpath.
    destruct (segments_of "/" path) as [|segment0 rest]; [done|].
    case_bool_decide as Hprefix; [done|].
    destruct (existsb _ EXCLUDED_PATH_FRAGMENTS) eqn:Hfrag; [done|].
    split; [set_solver|]. split; [done|]. split; [done|].
    split; [by exists segment0 | by apply Hfragments].
  - intros (parsed' & [= <-] & Hscheme & Hhost & Hpath & Hsegment & Hfrag).
    rewrite bool_decide_true by set_solver. cbn [negb].
    rewrite bool_decide_true by done. cbn [negb].
    apply truthy_true in Hpath as Htruthy. fold path in Htruthy.
    rewrite Htruthy. cbn [negb].
    destruct Hsegment as (segment & Hhead & Hprefix).
    unfold first_segment in Hhead. rewrite Hsegments in Hhead.
    destruct (segments_of "/" path) as [|segment0 rest]; [done|].
    injection Hhead as ->.
    rewrite bool_decide_false by done.
    apply Hfragments in Hfrag. by rewrite Hfrag.
Qed.

(** The classifier computes the conditions of the specification with the
    whole netloc in the place of the host and the path of [urlparse],
    without the parameters, in the place of the path. *)
Lemma is_recipe_url_claimed (url : str) :
  is_recipe_url url
  = (parsed ← UrlParse.urlparse url;
     Ok (claimed_recipe_url (UrlParse.scheme parsed) (UrlParse.netloc parsed)
           (UrlParse.path parsed))).
Proof.
  unfold is_recipe_url, claimed_recipe_url.
  destruct (UrlParse.urlparse url) as [parsed|e]; cbn [mbind Exc_bind];
    [|done].
  set (path := Py.strip (Py.is_char "/") (UrlParse.path parsed)).
  fold (segments_of "/" path).
  unfold first_segment. rewrite <- (segments_of_strip "/" (UrlParse.path parsed)).
  fold path.
  assert (Hfragments :
    existsb (fun fragment => Py.contains fragment (Py.lower path))
            EXCLUDED_PATH_FRAGMENTS
    = existsb (fun fragment =>
                 Py.contains fragment (Py.lower (UrlParse.path parsed)))
              EXCLUDED_PATH_FRAGMENTS).
  { pose proof fragments_plain as Hplain. revert Hplain.
    generalize EXCLUDED_PATH_FRAGMENTS. intros fragments Hplain.
    induction fragments as [|fragment fragments IH]; [done|].
    cbn [existsb]. rewrite IH by (intros ? ?; apply Hplain; by right).
    f_equal. destruct (Hplain fragment) as [Hslash Hne]; [left|].
    apply eq_true_iff_eq. rewrite !contains_spec.
    subst path. rewrite lower_strip_slash. by apply substring_strip. }
  rewrite <- Hfragments.
  rewrite (bool_decide_ext
             (UrlParse.scheme parsed
                ∈ (str_of_string <$> ["http"; "https"]%string))
             (UrlParse.scheme parsed = "http"
              \/ UrlParse.scheme parsed = "https")) by set_solver.
  destruct (bool_decide (_ \/ _)); [|done]. cbn [negb andb].
  destruct (bool_decide (_ ∈ ALLOWED_HOSTS)); [|done]. cbn [negb andb].
  destruct (Py.truthy path); [|done]. cbn [negb andb].
  destruct (segments_of "/" path) as [|segment0 rest]; [done|].
  cbn [head]. destruct (bool_decide (_ ∈ EXCLUDED_PATH_PREFIXES)); [done|].
  cbn [negb andb]. by destruct (existsb _ _).
Qed.

End Classifier.

(** ** URL normalisation *)

Section UrlFacts.
Context `{UrlLib}.

Implicit Types (s t url rest : str) (c x : ascii).

(** *** Characters *)

Lemma scheme_char_facts c :
  Py.has c UrlParse.scheme_chars = true ->
  Py.has (Py.lower_char c) UrlParse.scheme_chars = true
  /\ c <> ":"%char
  /\ UrlParse._UNSAFE_URL_BYTES_TO_REMOVE c = false.
Proof.
  destruct c as [[] [] [] [] [] [] [] []]; vm_compute; intros Hc;
    try discriminate Hc; repeat split; congruence.
Qed.

Lemma lower_char_idemp c : Py.lower_char (Py.lower_char c) = Py.lower_char c.
Proof. by destruct c as [[] [] [] [] [] [] [] []]. Qed.

Lemma letter_facts c :
  Py.isascii c && Py.isalpha c = true ->
  Py.isascii (Py.lower_char c) && Py.isalpha (Py.lower_char c) = true
  /\ UrlParse._WHATWG_C0_CONTROL_OR_SPACE c = false.
Proof.
  destruct c as [[] [] [] [] [] [] [] []]; vm_compute; intros Hc;
    try discriminate Hc; by split.
Qed.

Lemma safe_app s t : safe (s ++ t) <-> safe s /\ safe t.
Proof. apply Forall_app. Qed.

Lemma safe_filter s :
  safe (filter (fun c => negb (UrlParse._UNSAFE_URL_BYTES_TO_REMOVE c)) s).
Proof.
  apply Forall_forall. intros c [Hc _]%list_elem_of_filter.
  by destruct (UrlParse._UNSAFE_URL_BYTES_TO_REMOVE c).
Qed.

Lemma filter_safe s :
  safe s ->
  filter (fun c => negb (UrlParse._UNSAFE_URL_BYTES_TO_REMOVE c)) s = s.
Proof.
  induction 1 as [|c s Hc Hs IH]; [done|].
  rewrite filter_cons_True by by rewrite Hc. by rewrite IH.
Qed.

Lemma scheme_ok_safe s : scheme_ok s -> safe s.
Proof.
  intros [Hchars _]. eapply Forall_impl; [done|].
  intros c Hc. simpl in Hc. apply scheme_char_facts in Hc. tauto.
Qed.

Lemma scheme_ok_no_colon s : scheme_ok s -> ":"%char ∉ s.
Proof.
  intros [Hchars _] Hin. rewrite Forall_forall in Hchars.
  apply Hchars, scheme_char_facts in Hin. naive_solver.
Qed.

(** *** The scheme *)

Lemma split_scheme_inv url s rest :
  UrlParse.split_scheme url = (s, rest) ->
  (s = [] /\ rest = url) \/ (scheme_ok s /\ exists i, rest = drop i url).
Proof.
  unfold UrlParse.split_scheme.
  destruct (Py.find ":" url) as [i|] eqn:Hfind; [|naive_solver].
  destruct url as [|c0 url']; [naive_solver|].
  destruct (bool_decide (0 < i)%nat) eqn:Hi; [|naive_solver].
  destruct (Py.isascii c0) eqn:Hascii; [|naive_solver].
  destruct (Py.isalpha c0) eqn:Halpha; [|naive_solver].
  destruct (forallb _ (take i (c0 :: url'))) eqn:Hall; [|naive_solver].
  cbn [andb]. intros [= <- <-]. right.
  split; [|by exists (S i)].
  apply bool_decide_eq_true in Hi.
  destruct i as [|i]; [lia|]. cbn [take] in *. cbn [forallb] in Hall.
  apply andb_true_iff in Hall as [Hhead Hall].
  rewrite forallb_forall in Hall.
  repeat split.
  - cbn [Py.lower fmap list_fmap]. constructor.
    + by apply scheme_char_facts.
    + apply Forall_fmap, Forall_forall. intros c Hc. simpl.
      by apply scheme_char_facts, Hall, list_elem_of_In.
  - eexists _, _. split; [done|]. apply letter_facts. by rewrite Hascii.
  - unfold Py.lower. rewrite <- list_fmap_compose.
    apply list_fmap_ext. intros ? c _. simpl. apply lower_char_idemp.
Qed.

Lemma split_scheme_unparse s rest :
  scheme_ok s -> UrlParse.split_scheme (s ++ ":" ++ rest) = (s, rest).
Proof.
  intros Hs. pose proof (scheme_ok_no_colon s Hs) as Hcolon.
  destruct Hs as (Hchars & (c0 & t & -> & Hc0) & Hlower).
  unfold UrlParse.split_scheme.
  rewrite find_app_notin by done.
  change (str_of_string ":" ++ rest) with (":"%char :: rest).
  rewrite find_head. cbn [fmap option_fmap option_map].
  rewrite Nat.add_0_r. cbn [app].
  change (c0 :: t ++ ":"%char :: rest) with ((c0 :: t) ++ ":"%char :: rest).
  rewrite take_app_length.
  rewrite bool_decide_true by (simpl; lia).
  apply andb_true_iff in Hc0 as [-> ->]. cbn [andb].
  assert (Hall : forallb (fun c => Py.has c UrlParse.scheme_chars) (c0 :: t)
                 = true).
  { apply forallb_forall. intros c Hc%list_elem_of_In.
    rewrite Forall_forall in Hchars. by apply Hchars. }
  rewrite Hall, Hlower. f_equal.
  rewrite drop_app, drop_ge by lia.
  by replace (S (length (c0 :: t)) - length (c0 :: t))%nat with 1%nat by lia.
Qed.

Lemma split_scheme_slash rest :
  UrlParse.split_scheme ("/"%char :: rest) = ([], "/"%char :: rest).
Proof.
  unfold UrlParse.split_scheme.
  destruct (Py.find ":" ("/"%char :: rest)); [|done].
  by rewrite andb_false_r.
Qed.

(** *** The netloc *)

Lemma delim_fold url start cs : forall d0,
  let d := foldl (fun delim c =>
                    match Py.find_from c start url with
                    | Some wdelim => Nat.min delim wdelim
                    | None => delim
                    end) d0 cs in
  (d <= d0)%nat
  /\ (forall c w, c ∈ cs -> Py.find_from c start url = Some w -> (d <= w)%nat)
  /\ (d = d0 \/ exists c, c ∈ cs /\ Py.find_from c start url = Some d).
Proof.
  induction cs as [|c cs IH]; intros d0; cbn [foldl].
  - split; [lia|]. split; [set_solver | by left].
  - destruct (Py.find_from c start url) as [w|] eqn:Hfind.
    + destruct (IH (Nat.min d0 w)) as (Hle & Hall & Hwhich).
      split; [lia|]. split.
      * intros c' w' [->|Hin]%elem_of_cons Hfind'.
        -- rewrite Hfind in Hfind'. injection Hfind' as <-. lia.
        -- by apply (Hall c').
      * destruct Hwhich as [Hd|(c' & Hin & Hfind')].
        -- destruct (Nat.min_spec d0 w) as [[_ Hmin]|[_ Hmin]].
           ++ left. lia.
           ++ right. exists c. split; [left|]. by rewrite Hd, Hmin.
        -- right. exists c'. split; [by right | done].
    + destruct (IH d0) as (Hle & Hall & Hwhich).
      split; [done|]. split.
      * intros c' w' [->|Hin]%elem_of_cons Hfind'.
        -- by rewrite Hfind in Hfind'.
        -- by apply (Hall c').
      * destruct Hwhich as [Hd|(c' & Hin & Hfind')]; [by left|].
        right. exists c'. split; [by right | done].
Qed.

Lemma splitnetloc_inv url netloc rest :
  take 2 url = "//" ->
  UrlParse._splitnetloc url 2 = (netloc, rest) ->
  url = "//" ++ netloc ++ rest
  /\ ("/"%char ∉ netloc) /\ ("?"%char ∉ netloc) /\ ("#"%char ∉ netloc)
  /\ (rest = [] \/ exists c t, rest = c :: t
                               /\ c ∈ ["/"; "?"; "#"]%char).
Proof.
  intros Hstart. unfold UrlParse._splitnetloc.
  pose proof (delim_fold url 2 ["/"; "?"; "#"]%char (length url))
    as (Hle & Hall & Hwhich).
  set (d := foldl _ (length url) _) in *. intros [= <- <-].
  assert (Hlen : (2 <= length url)%nat).
  { destruct url as [|? [|? ?]]; [done..|simpl; lia]. }
  assert (Hd : (2 <= d)%nat).
  { destruct Hwhich as [->|(c & _ & Hfind)]; [done|].
    by apply find_from_Some in Hfind as [? _]. }
  assert (Hnot : forall c, c ∈ ["/"; "?"; "#"]%char -> c ∉ Py.slice 2 d url).
  { intros c Hc. destruct (Py.find_from c 2 url) as [w|] eqn:Hfind.
    - apply find_from_Some in Hfind as Hspec.
      destruct Hspec as (_ & _ & Hslice). apply Hslice. by apply (Hall c).
    - by apply find_from_None. }
  split.
  { rewrite <- Hstart. unfold Py.slice.
    replace (drop d url) with (drop (d - 2) (drop 2 url))
      by (rewrite drop_drop; f_equal; lia).
    by rewrite (take_drop (d - 2)), take_drop. }
  split; [apply Hnot; set_solver|].
  split; [apply Hnot; set_solver|].
  split; [apply Hnot; set_solver|].
  destruct Hwhich as [->|(c & Hin & Hfind)].
  - left. by rewrite drop_all.
  - right. apply find_from_Some in Hfind as (_ & Hc & _).
    exists c, (drop (S d) url). split; [|done].
    by apply drop_S.
Qed.

Lemma splitnetloc_unparse netloc path :
  "/"%char ∉ netloc -> "?"%char ∉ netloc -> "#"%char ∉ netloc ->
  "?"%char ∉ path -> "#"%char ∉ path -> rooted path ->
  UrlParse._splitnetloc ("//" ++ netloc ++ path) 2 = (netloc, path).
Proof.
  intros Hslash Hquery Hhash Hpq Hph Hrooted.
  unfold UrlParse._splitnetloc, Py.find_from, Py.slice.
  change (drop 2 (str_of_string "//" ++ netloc ++ path))
    with (netloc ++ path).
  cbn [foldl]. rewrite !find_app_notin by done.
  rewrite (find_notin "?" path), (find_notin "#" path) by done.
  cbn [fmap option_fmap option_map].
  change (length (str_of_string "//" ++ netloc ++ path))
    with (S (S (length (netloc ++ path)))).
  rewrite length_app.
  destruct Hrooted as [->|[t ->]].
  - cbn [Py.find fmap option_fmap option_map length]. rewrite Nat.add_0_r.
    replace (S (S (length netloc)) - 2)%nat with (length netloc) by lia.
    rewrite app_nil_r, take_ge by lia.
    change (drop (S (S (length netloc))) (str_of_string "//" ++ netloc))
      with (drop (length netloc) netloc).
    by rewrite drop_all.
  - rewrite find_head. cbn [fmap option_fmap option_map].
    replace (Nat.min (S (S (length netloc + length ("/"%char :: t))))
                     (2 + (length netloc + 0)))%nat
      with (S (S (length netloc))) by (simpl; lia).
    replace (S (S (length netloc)) - 2)%nat with (length netloc) by lia.
    rewrite take_app_length.
    change (drop (S (S (length netloc)))
                 (str_of_string "//" ++ netloc ++ "/"%char :: t))
      with (drop (length netloc) (netloc ++ "/"%char :: t)).
    by rewrite drop_app_length.
Qed.

(** *** Query, fragment and parameters *)

Lemma split_once_notin c s : c ∉ s -> UrlParse.split_once c s = (s, []).
Proof. intros Hc. unfold UrlParse.split_once. by rewrite find_notin. Qed.

Lemma split_once_fst c s :
  (exists i, (UrlParse.split_once c s).1 = take i s)
  /\ c ∉ (UrlParse.split_once c s).1.
Proof.
  unfold UrlParse.split_once.
  destruct (Py.find c s) as [i|] eqn:Hfind; cbn [fst].
  - split; [by exists i|]. by apply find_Some in Hfind as [_ ?].
  - split; [|by apply find_None].
    exists (length s). by rewrite take_ge.
Qed.

Lemma splitparams_fst url : exists i, (UrlParse._splitparams url).1 = take i url.
Proof.
  unfold UrlParse._splitparams.
  destruct (Py.rfind "/" url) as [slash|].
  - destruct (Py.find_from ";" slash url) as [i|]; cbn [fst];
      [by eexists|]. exists (length url). by rewrite take_ge.
  - destruct (Py.find ";" url) as [i|]; cbn [fst]; by eexists.
Qed.

Lemma rooted_take i path : rooted path -> rooted (take i path).
Proof.
  intros [->|[t ->]]; [left; by destruct i|].
  destruct i as [|i]; [by left|]. right. by eexists.
Qed.

Lemma notin_take c i s : c ∉ s -> c ∉ take i s.
Proof.
  intros Hc Hin. apply Hc.
  apply elem_of_take in Hin as (j & Hj & _). by apply list_elem_of_lookup_2 in Hj.
Qed.

(** *** Texts without a scheme *)

Lemma lstrip_length (p : ascii -> bool) s :
  (length (Py.lstrip p s) <= length s)%nat.
Proof.
  induction s as [|x s IH]; simpl; [done|]. destruct (p x); simpl; lia.
Qed.

Lemma lstrip_fixed (p : ascii -> bool) s :
  Py.lstrip p s = s <-> s = [] \/ exists x t, s = x :: t /\ p x = false.
Proof.
  destruct s as [|x t]; [naive_solver|]. simpl.
  destruct (p x) eqn:Hx.
  - split.
    + intros Heq. pose proof (lstrip_length p t) as Hlen.
      rewrite Heq in Hlen. simpl in Hlen. lia.
    + intros [?|(x' & t' & Heq & Hx')]; [done|].
      injection Heq as <- <-. congruence.
  - split; [|done]. intros _. right. by eexists _, _.
Qed.

Lemma lstrip_take (p : ascii -> bool) s k :
  Py.lstrip p s = s -> Py.lstrip p (take k s) = take k s.
Proof.
  rewrite !lstrip_fixed. intros [->|(x & t & -> & Hx)].
  - left. by destruct k.
  - destruct k as [|k]; [by left|]. right. by eexists _, _.
Qed.

Lemma unsafe_is_c0 c :
  UrlParse._WHATWG_C0_CONTROL_OR_SPACE c = false ->
  UrlParse._UNSAFE_URL_BYTES_TO_REMOVE c = false.
Proof. by destruct c as [[] [] [] [] [] [] [] []]. Qed.

Lemma lstrip_cleaned url :
  let cleaned :=
    filter (fun c => negb (UrlParse._UNSAFE_URL_BYTES_TO_REMOVE c))
           (Py.lstrip UrlParse._WHATWG_C0_CONTROL_OR_SPACE url) in
  Py.lstrip UrlParse._WHATWG_C0_CONTROL_OR_SPACE cleaned = cleaned.
Proof.
  intros cleaned. subst cleaned. apply lstrip_fixed.
  destruct (Py.lstrip _ url) as [|x t] eqn:Hstrip; [by left|].
  apply lstrip_head in Hstrip as Hx. right.
  rewrite filter_cons_True by by rewrite (unsafe_is_c0 x Hx).
  by eexists _, _.
Qed.

Lemma find_take c s k :
  Py.find c (take k s)
  = match Py.find c s with
    | Some i => if bool_decide (i < k)%nat then Some i else None
    | None => None
    end.
Proof.
  revert k. induction s as [|x s IH]; intros k; [by destruct k|].
  destruct k as [|k]; simpl.
  - case_bool_decide; [done|]. by destruct (Py.find c s).
  - case_bool_decide.
    + by rewrite ?bool_decide_true by lia.
    + rewrite IH. destruct (Py.find c s) as [i|]; simpl; [|done].
      destruct (decide (i < k)%nat).
      * by rewrite !bool_decide_true by lia.
      * by rewrite !bool_decide_false by lia.
Qed.

Lemma split_scheme_take t k :
  UrlParse.split_scheme t = ([], t) ->
  UrlParse.split_scheme (take k t) = ([], take k t).
Proof.
  unfold UrlParse.split_scheme. rewrite find_take.
  destruct (Py.find ":" t) as [i|] eqn:Hfind; [|done].
  destruct (decide (i < k)%nat) as [Hik|Hik];
    [rewrite (bool_decide_true (i < k)%nat) by done
    |rewrite (bool_decide_false (i < k)%nat) by done; by intros _].
  destruct t as [|c0 t']; [by destruct k|].
  destruct k as [|k]; [lia|]. cbn [take].
  change (c0 :: take k t') with (take (S k) (c0 :: t')).
  rewrite take_take. replace (i `min` S k)%nat with i by lia.
  destruct (bool_decide (0 < i)%nat && Py.isascii c0 && Py.isalpha c0
            && forallb (fun c => Py.has c UrlParse.scheme_chars)
                       (take i (c0 :: t'))) eqn:Hcond; [|done].
  intros [= Hlower _]. exfalso.
  apply andb_true_iff in Hcond as [Hcond _].
  apply andb_true_iff in Hcond as [Hcond _].
  apply andb_true_iff in Hcond as [Hi%bool_decide_eq_true _].
  destruct i as [|i]; [lia|]. done.
Qed.

Lemma schemeless_take t k : schemeless t -> schemeless (take k t).
Proof.
  intros [Hstrip Hscheme].
  split; [by apply lstrip_take | by apply split_scheme_take].
Qed.

Lemma schemeless_rooted t : rooted t -> schemeless t.
Proof.
  intros [->|[t' ->]]; [done|]. split; [done | apply split_scheme_slash].
Qed.

(** The path [urlsplit] cuts out of what follows the netloc. *)
Lemma path_of_rest rest :
  safe rest ->
  let path := (UrlParse.split_once "?" (UrlParse.split_once "#" rest).1).1 in
  safe path /\ ("?"%char ∉ path) /\ ("#"%char ∉ path)
  /\ (schemeless rest -> schemeless path)
  /\ ((rest = [] \/ exists c t, rest = c :: t /\ c ∈ ["/"; "?"; "#"]%char) ->
      rooted path).
Proof.
  intros Hsafe path.
  destruct (split_once_fst "#" rest) as [[i Hi] Hhash].
  destruct (split_once_fst "?" (UrlParse.split_once "#" rest).1)
    as [[j Hj] Hquery].
  fold path in Hj, Hquery.
  split; [rewrite Hj, Hi; by apply Forall_take, Forall_take|].
  split; [done|].
  split; [rewrite Hj; by apply notin_take|].
  split; [rewrite Hj, Hi; intros ?; by apply schemeless_take, schemeless_take|].
  intros [->|(c & t & -> & Hc)]; [left; by rewrite Hj, Hi, !take_nil|].
  apply elem_of_cons in Hc as [->|Hc].
  { rewrite Hj, Hi. apply rooted_take, rooted_take. right. by eexists. }
  left. apply elem_of_cons in Hc as [->|Hc].
  - subst path. rewrite Hi. destruct i as [|i]; [done|].
    unfold UrlParse.split_once. cbn [take]. by rewrite find_head.
  - apply list_elem_of_singleton in Hc as ->. subst path.
    unfold UrlParse.split_once at 2. by rewrite find_head.
Qed.

(** *** What [urlsplit] returns *)

Lemma netloc_checks_nil : netloc_checks [] = Ok ().
Proof. done. Qed.

Lemma urlsplit_inv url r :
  UrlParse.urlsplit url = Ok r ->
  (UrlParse.s_scheme r = [] \/ scheme_ok (UrlParse.s_scheme r))
  /\ safe (UrlParse.s_netloc r) /\ safe (UrlParse.s_path r)
  /\ ("/"%char ∉ UrlParse.s_netloc r) /\ ("?"%char ∉ UrlParse.s_netloc r)
  /\ ("#"%char ∉ UrlParse.s_netloc r)
  /\ ("?"%char ∉ UrlParse.s_path r) /\ ("#"%char ∉ UrlParse.s_path r)
  /\ netloc_checks (UrlParse.s_netloc r) = Ok ()
  /\ (UrlParse.s_netloc r <> [] -> rooted (UrlParse.s_path r))
  /\ (UrlParse.s_netloc r = [] -> UrlParse.s_scheme r = [] ->
      schemeless (UrlParse.s_path r)).
Proof.
  unfold UrlParse.urlsplit.
  pose proof (lstrip_cleaned url) as Hstrip. cbv zeta in Hstrip.
  set (cleaned := filter _ (Py.lstrip _ url)) in *.
  assert (Hcleaned : safe cleaned) by apply safe_filter.
  destruct (UrlParse.split_scheme cleaned) as [s rest] eqn:Hscheme.
  assert (Hbare : s = [] -> schemeless rest).
  { intros ->. destruct (split_scheme_inv _ _ _ Hscheme)
      as [[_ ->]|[(_ & (? & ? & ? & _) & _) _]]; done. }
  apply split_scheme_inv in Hscheme.
  assert (Hs : s = [] \/ scheme_ok s) by naive_solver.
  assert (Hrest : safe rest).
  { destruct Hscheme as [[_ ->]|[_ [i ->]]]; [done | by apply Forall_drop]. }
  clear Hscheme. case_bool_decide as Hstart.
  - destruct (UrlParse._splitnetloc rest 2) as [n rest'] eqn:Hnetloc.
    apply splitnetloc_inv in Hnetloc
      as (Hurl & Hslash & Hquery & Hhash & Hhead); [|done].
    assert (Hsafe : safe n /\ safe rest').
    { rewrite Hurl in Hrest. by apply safe_app in Hrest as [_ ?%safe_app]. }
    destruct Hsafe as [Hn Hrest'].
    destruct ((Py.has "[" n && negb (Py.has "]" n))
              || (Py.has "]" n && negb (Py.has "[" n))) eqn:Hbrackets;
      [done|].
    destruct (if Py.has "[" n && Py.has "]" n
              then _check_bracketed_host (UrlParse.bracketed_host n)
              else Ok ()) as [[]|e] eqn:Hcheck;
      [|done].
    cbn [mbind Exc_bind].
    pose proof (path_of_rest rest' Hrest') as (Hp & Hpq & Hph & _ & Hrooted).
    destruct (UrlParse.split_once "#" rest') as [u fragment].
    cbn [fst] in *.
    destruct (UrlParse.split_once "?" u) as [path query].
    cbn [fst] in *.
    destruct (UrlParse._checknetloc n) as [[]|e] eqn:Hnfkc; [|done].
    intros [= <-]. cbn [UrlParse.s_scheme UrlParse.s_netloc UrlParse.s_path].
    repeat (split; [done|]).
    split; [unfold netloc_checks; by rewrite Hbrackets, Hcheck|].
    split; [by intros _; apply Hrooted|].
    intros _ _. by apply schemeless_rooted, Hrooted.
  - cbn [mbind Exc_bind].
    pose proof (path_of_rest rest Hrest) as (Hp & Hpq & Hph & Hschemeless & _).
    destruct (UrlParse.split_once "#" rest) as [u fragment].
    cbn [fst] in *.
    destruct (UrlParse.split_once "?" u) as [path query].
    cbn [fst] in *.
    destruct (UrlParse._checknetloc []) as [[]|e]; [|done].
    intros [= <-]. cbn [UrlParse.s_scheme UrlParse.s_netloc UrlParse.s_path].
    split; [done|]. split; [constructor|]. split; [done|].
    do 3 (split; [set_solver|]). do 3 (split; [done|]).
    split; [done|]. intros _ Hnil. by apply Hschemeless, Hbare.
Qed.

Lemma lstrip_keep (p : ascii -> bool) x t :
  p x = false -> Py.lstrip p (x :: t) = x :: t.
Proof. intros Hx. simpl. by rewrite Hx. Qed.

(** [urlsplit] reads back a scheme, a netloc and a rooted path written one
    after the other. *)
Lemma urlsplit_unparse s n path :
  (s = [] \/ scheme_ok s) ->
  safe n -> safe path ->
  "/"%char ∉ n -> "?"%char ∉ n -> "#"%char ∉ n ->
  "?"%char ∉ path -> "#"%char ∉ path -> rooted path ->
  netloc_checks n = Ok () ->
  UrlParse.urlsplit (scheme_prefix s ++ "//" ++ n ++ path)
  = Ok (UrlParse.mkSplitResult s n path [] []).
Proof.
  intros Hs Hn Hp Hslash Hquery Hhash Hpq Hph Hrooted Hchecks.
  unfold UrlParse.urlsplit.
  assert (Hsafe : safe (scheme_prefix s ++ "//" ++ n ++ path)).
  { rewrite !safe_app. split; [|split; [by repeat constructor|done]].
    unfold scheme_prefix. destruct Hs as [->|Hs]; [constructor|].
    destruct (Py.truthy s); [|constructor].
    apply safe_app. split; [by apply scheme_ok_safe | by repeat constructor]. }
  assert (Hscheme :
    Py.lstrip UrlParse._WHATWG_C0_CONTROL_OR_SPACE
              (scheme_prefix s ++ "//" ++ n ++ path)
    = scheme_prefix s ++ "//" ++ n ++ path
    /\ UrlParse.split_scheme (scheme_prefix s ++ "//" ++ n ++ path)
       = (s, "//" ++ n ++ path)).
  { unfold scheme_prefix. destruct Hs as [->|Hs].
    - cbn [Py.truthy bool_decide negb app]. split; [done|].
      apply split_scheme_slash.
    - pose proof Hs as (_ & (c0 & t & -> & Hc0) & _).
      replace (Py.truthy (c0 :: t)) with true
        by (symmetry; by apply truthy_true).
      rewrite <- app_assoc. split; [|by apply split_scheme_unparse].
      apply lstrip_keep. by apply letter_facts in Hc0 as [_ ?]. }
  destruct Hscheme as [-> Hscheme].
  rewrite filter_safe, Hscheme by done.
  rewrite bool_decide_true by done.
  rewrite splitnetloc_unparse by done.
  unfold netloc_checks in Hchecks.
  destruct ((Py.has "[" n && negb (Py.has "]" n))
            || (Py.has "]" n && negb (Py.has "[" n))); [done|].
  destruct (if Py.has "[" n && Py.has "]" n
            then _check_bracketed_host (UrlParse.bracketed_host n)
            else Ok ()) as [[]|e]; [|done].
  cbn [mbind Exc_bind] in *.
  rewrite !split_once_notin by done. by rewrite Hchecks.
Qed.

(** *** What [urlparse] returns, and reading back [geturl] *)

Lemma urlparse_inv url parsed :
  UrlParse.urlparse url = Ok parsed ->
  (UrlParse.scheme parsed = [] \/ scheme_ok (UrlParse.scheme parsed))
  /\ safe (UrlParse.netloc parsed) /\ safe (UrlParse.path parsed)
  /\ ("/"%char ∉ UrlParse.netloc parsed)
  /\ ("?"%char ∉ UrlParse.netloc parsed)
  /\ ("#"%char ∉ UrlParse.netloc parsed)
  /\ ("?"%char ∉ UrlParse.path parsed) /\ ("#"%char ∉ UrlParse.path parsed)
  /\ netloc_checks (UrlParse.netloc parsed) = Ok ()
  /\ (UrlParse.netloc parsed <> [] -> rooted (UrlParse.path parsed))
  /\ (UrlParse.netloc parsed = [] -> UrlParse.scheme parsed = [] ->
      schemeless (UrlParse.path parsed)).
Proof.
  unfold UrlParse.urlparse.
  destruct (UrlParse.urlsplit url) as [[s n p q f]|e] eqn:Hsplit; [|done].
  apply urlsplit_inv in Hsplit
    as (Hs & Hn & Hp & Hslash & Hquery & Hhash & Hpq & Hph & Hchecks
        & Hrooted & Hschemeless).
  cbn [mbind Exc_bind UrlParse.s_scheme UrlParse.s_netloc UrlParse.s_path] in *.
  destruct (bool_decide (s ∈ UrlParse.uses_params) && Py.has ";" p).
  - destruct (splitparams_fst p) as [i Hi].
    destruct (UrlParse._splitparams p) as [path params]. cbn [fst] in Hi.
    subst path. intros [= <-].
    cbn [UrlParse.scheme UrlParse.netloc UrlParse.path] in *.
    repeat (split; [done|]).
    split; [by apply Forall_take|].
    repeat (split; [done|]).
    split; [by apply notin_take|]. split; [by apply notin_take|].
    split; [done|].
    split; [intros ?; by apply rooted_take, Hrooted|].
    intros ? ?. by apply schemeless_take, Hschemeless.
  - by intros [= <-].
Qed.

Lemma urlparse_unparse s n path :
  (s = [] \/ scheme_ok s) ->
  safe n -> safe path ->
  "/"%char ∉ n -> "?"%char ∉ n -> "#"%char ∉ n ->
  "?"%char ∉ path -> "#"%char ∉ path -> ";"%char ∉ path -> rooted path ->
  netloc_checks n = Ok () ->
  UrlParse.urlparse (scheme_prefix s ++ "//" ++ n ++ path)
  = Ok (UrlParse.mkParseResult s n path [] [] []).
Proof.
  intros Hs Hn Hp Hslash Hquery Hhash Hpq Hph Hsemi Hrooted Hchecks.
  unfold UrlParse.urlparse. rewrite urlsplit_unparse by done.
  cbn [mbind Exc_bind].
  replace (Py.has ";" path) with false by (symmetry; by apply has_false).
  by rewrite andb_false_r.
Qed.

Lemma geturl_with_netloc s n path :
  n <> [] -> rooted path ->
  UrlParse.geturl (UrlParse.mkParseResult s n path [] [] [])
  = scheme_prefix s ++ "//" ++ n ++ path.
Proof.
  intros Hn Hrooted.
  unfold UrlParse.geturl, UrlParse.urlunparse, UrlParse.urlunsplit.
  cbn [UrlParse.scheme UrlParse.netloc UrlParse.path UrlParse.params
       UrlParse.query UrlParse.fragment].
  replace (Py.truthy []) with false by done.
  replace (Py.truthy n) with true by (symmetry; by apply truthy_true).
  cbn [orb].
  replace (Py.truthy path && negb (bool_decide (take 1 path = "/")))
    with false by (by destruct Hrooted as [->|[t ->]]).
  unfold scheme_prefix. destruct (Py.truthy s); [|done].
  by rewrite <- app_assoc.
Qed.

(** *** The path [strip_url] keeps *)

Lemma strip_path_idemp path : strip_path (strip_path path) = strip_path path.
Proof.
  destruct (decide (path = "/")) as [->|Hpath]; [done|].
  unfold strip_path. rewrite (bool_decide_true (path ≠ "/")) by done.
  case_bool_decide; [apply rstrip_idemp | done].
Qed.

Lemma strip_path_sub path c : c ∈ strip_path path -> c ∈ path.
Proof.
  unfold strip_path. case_bool_decide; [apply rstrip_sub | done].
Qed.

Lemma strip_path_safe path : safe path -> safe (strip_path path).
Proof.
  unfold safe. rewrite !Forall_forall. intros Hsafe c Hc.
  by apply Hsafe, strip_path_sub.
Qed.

Lemma strip_path_rooted path : rooted path -> rooted (strip_path path).
Proof.
  unfold strip_path. case_bool_decide; [|done].
  intros [->|[t ->]]; [by left|]. simpl.
  destruct (Py.rstrip (Py.is_char "/") t); [by left | right; by eexists].
Qed.

Lemma strip_url_unfold url parsed :
  UrlParse.urlparse url = Ok parsed ->
  strip_url url
  = Ok (UrlParse.geturl
          (UrlParse.mkParseResult
             (UrlParse.scheme parsed) (UrlParse.netloc parsed)
             (strip_path (UrlParse.path parsed)) (UrlParse.params parsed)
             [] [])).
Proof. intros Hparse. unfold strip_url. by rewrite Hparse. Qed.

(** *** URLs without a network location *)

Lemma strip_path_take path : exists k, strip_path path = take k path.
Proof.
  unfold strip_path. case_bool_decide.
  - destruct (rstrip_decompose "/" path) as [k Hk].
    revert Hk. generalize (Py.rstrip (Py.is_char "/") path). intros r ->.
    exists (length r). by rewrite take_app_length.
  - exists (length path). by rewrite take_ge.
Qed.

Lemma slashed_rooted path : rooted (slashed path).
Proof.
  unfold slashed. destruct path as [|x t]; [by left|].
  cbn [Py.truthy take]. case_bool_decide as Hx; cbn [andb negb].
  - right. exists t. by injection Hx as ->.
  - right. by eexists.
Qed.

Lemma slashed_of_rooted path : rooted path -> slashed path = path.
Proof. by intros [->|[t ->]]. Qed.

Lemma slashed_sub path c : c ∈ slashed path -> c = "/"%char \/ c ∈ path.
Proof.
  unfold slashed. destruct (_ && _); [|by right].
  change (str_of_string "/" ++ path) with ("/"%char :: path).
  intros Hin. apply elem_of_cons in Hin as [->|?]; [by left | by right].
Qed.

Lemma strip_path_slashed path :
  strip_path path = path -> strip_path (slashed path) = slashed path.
Proof.
  intros Hfixed. unfold slashed. destruct path as [|x t]; [done|].
  rewrite truthy_cons. cbn [take].
  case_bool_decide as Hx; cbn [andb negb]; [done|].
  unfold strip_path in *.
  rewrite bool_decide_true by done.
  rewrite bool_decide_true in Hfixed by (intros [= -> ->]; by apply Hx).
  change (str_of_string "/" ++ x :: t) with ("/"%char :: x :: t).
  by apply rstrip_cons_fixed.
Qed.

Lemma urlsplit_unparse_plain s body :
  (s = [] \/ scheme_ok s) ->
  (s = [] -> schemeless body) ->
  safe body -> "?"%char ∉ body -> "#"%char ∉ body ->
  take 2 body <> "//" ->
  UrlParse.urlsplit (scheme_prefix s ++ body)
  = Ok (UrlParse.mkSplitResult s [] body [] []).
Proof.
  intros Hs Hbare Hsafe Hquery Hhash Hdouble.
  unfold UrlParse.urlsplit.
  assert (Hscheme :
    Py.lstrip UrlParse._WHATWG_C0_CONTROL_OR_SPACE (scheme_prefix s ++ body)
    = scheme_prefix s ++ body
    /\ UrlParse.split_scheme (scheme_prefix s ++ body) = (s, body)
    /\ safe (scheme_prefix s ++ body)).
  { unfold scheme_prefix. destruct Hs as [->|Hs].
    - destruct (Hbare eq_refl) as [Hstrip Hscheme]. done.
    - pose proof Hs as (_ & (c0 & t & -> & Hc0) & _).
      replace (Py.truthy (c0 :: t)) with true
        by (symmetry; by apply truthy_true).
      rewrite <- app_assoc. split; [|split].
      + apply lstrip_keep. by apply letter_facts in Hc0 as [_ ?].
      + by apply split_scheme_unparse.
      + rewrite !safe_app. split; [by apply scheme_ok_safe|].
        split; [by repeat constructor | done]. }
  destruct Hscheme as (-> & Hscheme & Hall).
  rewrite filter_safe, Hscheme by done.
  rewrite bool_decide_false by done. cbn [mbind Exc_bind].
  by rewrite !split_once_notin by done.
Qed.

(** *** The last segment of a path and the parameters cut from it *)

Lemma rfind_notin c s : c ∉ s -> Py.rfind c s = None.
Proof.
  induction s as [|x s IH]; [done|].
  intros [Hx Hs]%not_elem_of_cons. cbn [Py.rfind].
  rewrite IH by done. by rewrite bool_decide_false by done.
Qed.

Lemma rfind_None c s : Py.rfind c s = None -> c ∉ s.
Proof.
  induction s as [|x s IH]; [intros _; apply not_elem_of_nil|].
  cbn [Py.rfind]. destruct (Py.rfind c s) as [i|]; [done|].
  case_bool_decide; [done|]. intros _.
  apply not_elem_of_cons. split; [done | by apply IH].
Qed.

Lemma rfind_Some c s : forall r,
  Py.rfind c s = Some r -> s !! r = Some c /\ c ∉ drop (S r) s.
Proof.
  induction s as [|x s IH]; intros r; [done|].
  cbn [Py.rfind]. destruct (Py.rfind c s) as [i|] eqn:Hfind.
  - intros [= <-]. by apply IH.
  - case_bool_decide as Hx; [|done]. intros [= <-]. subst x.
    split; [done|]. change (c ∉ s). by apply rfind_None.
Qed.

Lemma rfind_app_notin c s t :
  c ∉ t -> Py.rfind c (s ++ c :: t) = Some (length s).
Proof.
  intros Ht. induction s as [|x s IH]; cbn [app Py.rfind length].
  - rewrite rfind_notin by done. by rewrite bool_decide_true.
  - by rewrite IH.
Qed.

(** A path is a directory part, empty or ending with [/], followed by its
    last segment. *)
Lemma last_segment_spec t :
  exists dir,
    t = dir ++ last_segment t
    /\ ("/"%char ∉ last_segment t)
    /\ (dir = [] \/ exists d, dir = d ++ ["/"%char]).
Proof.
  unfold last_segment. destruct (Py.rfind "/" t) as [r|] eqn:Hfind.
  - apply rfind_Some in Hfind as [Hr Hnot].
    exists (take (S r) t). split; [by rewrite take_drop|]. split; [done|].
    right. exists (take r t). by apply take_S_r.
  - exists []. split; [done|]. split; [by apply rfind_None | by left].
Qed.

Lemma last_segment_unique dir seg :
  "/"%char ∉ seg ->
  (dir = [] \/ exists d, dir = d ++ ["/"%char]) ->
  last_segment (dir ++ seg) = seg.
Proof.
  intros Hseg [->|[d ->]]; unfold last_segment.
  - cbn [app]. by rewrite rfind_notin.
  - rewrite <- app_assoc. cbn [app]. rewrite rfind_app_notin by done.
    rewrite (cons_middle "/"%char), app_assoc.
    replace (S (length d)) with (length (d ++ ["/"%char]))
      by (rewrite length_app; simpl; lia).
    by rewrite drop_app_length.
Qed.

Lemma last_segment_tail a b :
  "/"%char ∉ b -> exists a', last_segment (a ++ b) = a' ++ b.
Proof.
  intros Hb. destruct (last_segment_spec a) as (dir & Ha & Hseg & Hdir).
  exists (last_segment a). rewrite Ha at 1. rewrite <- app_assoc.
  apply last_segment_unique; [|done].
  rewrite elem_of_app. by intros [?|?].
Qed.

(** [_splitparams] cuts at the first [;] of the last segment. *)
Lemma splitparams_segment t :
  Py.has ";" t = true ->
  UrlParse._splitparams t
  = match Py.find ";" (last_segment t) with
    | Some k =>
        (take (length t - length (last_segment t) + k) t,
         drop (S k) (last_segment t))
    | None => (t, [])
    end.
Proof.
  intros Hsemi. unfold UrlParse._splitparams, last_segment.
  destruct (Py.rfind "/" t) as [r|] eqn:Hfind.
  - apply rfind_Some in Hfind as [Hr _].
    apply lookup_lt_Some in Hr as Hlt.
    unfold Py.find_from. rewrite (drop_S t "/"%char r Hr).
    cbn [Py.find]. rewrite bool_decide_false by done.
    destruct (Py.find ";" (drop (S r) t)) as [k|];
      cbn [fmap option_fmap option_map]; [|done].
    rewrite length_drop, drop_drop.
    replace (length t - (length t - S r) + k)%nat with (r + S k)%nat by lia.
    by replace (S r + S k)%nat with (S (r + S k)) by lia.
  - destruct (Py.find ";" t) as [k|] eqn:Hk.
    + by replace (length t - length t + k)%nat with k by lia.
    + apply find_None in Hk. by apply has_true in Hsemi.
Qed.

(** *** Reading back what [geturl] writes *)

Lemma geturl_written s n path params :
  UrlParse.geturl (UrlParse.mkParseResult s n path params [] [])
  = written s n (with_params path params).
Proof.
  unfold UrlParse.geturl, UrlParse.urlunparse, UrlParse.urlunsplit.
  cbn [UrlParse.scheme UrlParse.netloc UrlParse.path UrlParse.params
       UrlParse.query UrlParse.fragment].
  replace (Py.truthy []) with false by done.
  unfold written, writes_netloc, scheme_prefix, slashed.
  fold (with_params path params).
  generalize (with_params path params). intros u.
  destruct (Py.truthy s); [|done].
  by rewrite <- app_assoc.
Qed.

Lemma urlsplit_written s n u :
  readable s n u ->
  UrlParse.urlsplit (written s n u)
  = Ok (UrlParse.mkSplitResult s n (read_back s n u) [] []).
Proof.
  intros (Hs & Hn & Hslash & Hquery & Hhash & Hchecks & Hu & Huq & Huh
          & Hbare).
  unfold written, read_back. destruct (writes_netloc s n u) eqn:Hw.
  - apply urlsplit_unparse; try done.
    + eapply Forall_forall. intros c [->|Hc]%slashed_sub; [done|].
      unfold safe in Hu. rewrite Forall_forall in Hu. by apply Hu.
    + by intros [?|Hc]%slashed_sub.
    + by intros [?|Hc]%slashed_sub.
    + apply slashed_rooted.
  - unfold writes_netloc in Hw.
    apply orb_false_iff in Hw as [Hw Hdouble].
    apply orb_false_iff in Hw as [Hnil _].
    apply truthy_false in Hnil. subst n.
    apply bool_decide_eq_false in Hdouble.
    apply urlsplit_unparse_plain; try done.
    intros Hs0. by apply Hbare.
Qed.

Lemma urlparse_written s n u :
  readable s n u ->
  UrlParse.urlparse (written s n u)
  = Ok (UrlParse.mkParseResult s n
          (params_of s (read_back s n u)).1
          (params_of s (read_back s n u)).2 [] []).
Proof.
  intros Hr. unfold UrlParse.urlparse. rewrite urlsplit_written by done.
  cbn [mbind Exc_bind]. fold (params_of s (read_back s n u)).
  by destruct (params_of s (read_back s n u)).
Qed.

Lemma strip_url_written s n u :
  readable s n u ->
  strip_url (written s n u)
  = Ok (written s n (strip_step s (read_back s n u))).
Proof.
  intros Hr.
  rewrite (strip_url_unfold _ _ (urlparse_written s n u Hr)).
  cbn [UrlParse.scheme UrlParse.netloc UrlParse.path UrlParse.params].
  by rewrite geturl_written.
Qed.

(** *** The first normalisation *)

Lemma splitparams_cases url :
  Py.has ";" url = true ->
  UrlParse._splitparams url = (url, [])
  \/ exists i,
       UrlParse._splitparams url = (take i url, drop (S i) url)
       /\ url !! i = Some ";"%char
       /\ "/"%char ∉ drop (S i) url.
Proof.
  intros Hsemi. rewrite splitparams_segment by done.
  destruct (last_segment_spec url) as (dir & Hurl & Hseg & _).
  destruct (Py.find ";" (last_segment url)) as [k|] eqn:Hk; [|by left].
  right. apply find_Some in Hk as [Hk _].
  assert (Hlen : (length url - length (last_segment url))%nat = length dir).
  { rewrite Hurl at 1. rewrite length_app. lia. }
  rewrite Hlen. exists (length dir + k)%nat. split; [|split].
  - f_equal. rewrite Hurl at 2.
    replace (S (length dir + k)) with (length dir + S k)%nat by lia.
    by rewrite <- drop_drop, drop_app_length.
  - rewrite Hurl. by rewrite lookup_app_r, Nat.add_sub' by lia.
  - rewrite Hurl.
    replace (S (length dir + k)) with (length dir + S k)%nat by lia.
    rewrite <- drop_drop, drop_app_length.
    intros Hin. apply Hseg.
    rewrite <- (take_drop (S k) (last_segment url)), elem_of_app. by right.
Qed.

(** [urlparse] either keeps the path of [urlsplit] or cuts it at a [;]. *)
Lemma urlparse_cases url parsed :
  UrlParse.urlparse url = Ok parsed ->
  exists r,
    UrlParse.urlsplit url = Ok r
    /\ UrlParse.scheme parsed = UrlParse.s_scheme r
    /\ UrlParse.netloc parsed = UrlParse.s_netloc r
    /\ ((UrlParse.path parsed = UrlParse.s_path r
         /\ UrlParse.params parsed = [])
        \/ (UrlParse.s_scheme r ∈ UrlParse.uses_params
            /\ UrlParse.s_path r
               = UrlParse.path parsed ++ ";"%char :: UrlParse.params parsed
            /\ "/"%char ∉ UrlParse.params parsed)).
Proof.
  unfold UrlParse.urlparse.
  destruct (UrlParse.urlsplit url) as [[s n p q f]|e]; [|done].
  cbn [mbind Exc_bind]. intros Hparsed. eexists. split; [done|].
  cbn [UrlParse.s_scheme UrlParse.s_netloc UrlParse.s_path].
  destruct (bool_decide (s ∈ UrlParse.uses_params)) eqn:Hs;
    cbn [andb] in Hparsed; [|injection Hparsed as <-; by auto].
  destruct (Py.has ";" p) eqn:Hsemi; [|injection Hparsed as <-; by auto].
  apply bool_decide_eq_true in Hs.
  destruct (splitparams_cases p Hsemi) as [Heq|(i & Heq & Hi & Hslash)];
    rewrite Heq in Hparsed; injection Hparsed as <-;
    cbn [UrlParse.scheme UrlParse.netloc UrlParse.path UrlParse.params].
  - by auto.
  - split; [done|]. split; [done|]. right. split; [done|]. split; [|done].
    symmetry. by apply take_drop_middle.
Qed.

Lemma strip_path_decompose path :
  exists j, path = strip_path path ++ replicate j "/"%char.
Proof.
  unfold strip_path. case_bool_decide.
  - apply rstrip_decompose.
  - exists 0%nat. by rewrite app_nil_r.
Qed.

Lemma find_app_in c s t : c ∈ s -> Py.find c (s ++ t) = Py.find c s.
Proof.
  induction s as [|x s IH]; [by intros ?%elem_of_nil|].
  intros Hin. cbn [app Py.find]. case_bool_decide as Hx; [done|].
  rewrite IH; [done|]. apply elem_of_cons in Hin as [?|?]; [|done].
  by subst.
Qed.

(** Slashes taken away in front of a [;] do not make a scheme. *)
Lemma schemeless_squeeze a j b :
  schemeless (a ++ replicate j "/"%char ++ ";"%char :: b) ->
  schemeless (a ++ ";"%char :: b).
Proof.
  intros [Hstrip Hscheme]. split.
  - apply lstrip_fixed. right. destruct a as [|x a].
    + by eexists _, _.
    + apply lstrip_fixed in Hstrip as [?|(x' & t' & Heq & Hx)]; [done|].
      injection Heq as <- _. by eexists _, _.
  - revert Hscheme. unfold UrlParse.split_scheme.
    destruct (decide (":"%char ∈ a)) as [Hin|Hnot].
    + rewrite !find_app_in by done.
      destruct (Py.find ":" a) as [i|] eqn:Hfind; [|done].
      apply find_Some in Hfind as [Hi _]. apply lookup_lt_Some in Hi.
      rewrite !take_app_le by lia.
      destruct a as [|c0 a']; [simpl in Hi; lia|]. cbn [app].
      destruct (bool_decide (0 < i)%nat && Py.isascii c0 && Py.isalpha c0
                && forallb (fun c => Py.has c UrlParse.scheme_chars)
                           (take i (c0 :: a'))); [|done].
      intros [= _ Hdrop]. apply (f_equal length) in Hdrop.
      rewrite length_drop in Hdrop. simpl in Hdrop, Hi.
      rewrite length_app in Hdrop. lia.
    + intros _. rewrite find_app_notin by done.
      destruct (Py.find ":" (";"%char :: b)) as [k|] eqn:Hfind;
        cbn [fmap option_fmap option_map];
        [|by destruct (a ++ ";"%char :: b)].
      assert (Hk : (0 < k)%nat).
      { destruct k; [|lia]. by apply find_Some in Hfind as [? _]. }
      destruct (a ++ ";"%char :: b) as [|c0 t] eqn:Heq; [done|].
      destruct (forallb (fun c => Py.has c UrlParse.scheme_chars)
                        (take (length a + k) (c0 :: t))) eqn:Hall;
        [|by rewrite andb_false_r].
      exfalso. rewrite forallb_forall in Hall.
      assert (Hsemi : In ";"%char (take (length a + k) (c0 :: t))).
      { apply list_elem_of_In, list_elem_of_lookup. exists (length a).
        rewrite lookup_take_lt by lia. rewrite <- Heq.
        by rewrite lookup_app_r, Nat.sub_diag by lia. }
      by apply Hall in Hsemi.
Qed.

(** What the first [strip_url] returns, and that it can be read back. *)
Lemma strip_url_first url parsed :
  UrlParse.urlparse url = Ok parsed ->
  let s := UrlParse.scheme parsed in
  let n := UrlParse.netloc parsed in
  let u := with_params (strip_path (UrlParse.path parsed))
                       (UrlParse.params parsed) in
  strip_url url = Ok (written s n u)
  /\ readable s n u
  /\ ((s ∈ UrlParse.uses_params
       /\ is_Some (Py.find ";" (last_segment (read_back s n u))))
      \/ strip_path (read_back s n u) = read_back s n u).
Proof.
  intros Hparse s n u.
  destruct (urlparse_cases url parsed Hparse)
    as (r & Hsplit & Hscheme & Hnetloc & Hcases).
  apply urlsplit_inv in Hsplit
    as (Hs & Hn & Hp & Hslash & Hquery & Hhash & Hpq & Hph & Hchecks
        & _ & Hbare).
  rewrite <- Hscheme, <- Hnetloc in *. fold s n in Hs, Hn, Hslash, Hquery,
    Hhash, Hchecks, Hbare, Hcases.
  destruct (strip_path_take (UrlParse.path parsed)) as [k Hk].
  destruct (strip_path_decompose (UrlParse.path parsed)) as [j Hj].
  set (kept := strip_path (UrlParse.path parsed)) in *.
  assert (Hsub : forall c, c ∈ u -> c ∈ UrlParse.s_path r).
  { intros c. subst u. unfold with_params.
    destruct Hcases as [[<- ->]|(_ & -> & _)].
    - cbn. subst kept. apply strip_path_sub.
    - destruct (Py.truthy (UrlParse.params parsed)).
      + intros [Hc%strip_path_sub|Hc]%elem_of_app; apply elem_of_app;
          [by left | by right].
      + intros Hc%strip_path_sub. apply elem_of_app. by left. }
  split; [|split].
  - rewrite (strip_url_unfold url parsed Hparse). by rewrite geturl_written.
  - unfold readable. split_and!; try done.
    + apply Forall_forall. intros c Hc%Hsub.
      unfold safe in Hp. rewrite Forall_forall in Hp. by apply Hp.
    + by intros ?%Hsub.
    + by intros ?%Hsub.
    + intros Hw Hs0. unfold writes_netloc in Hw.
      apply orb_false_iff in Hw as [Hw _].
      apply orb_false_iff in Hw as [Hn0%truthy_false _].
      specialize (Hbare Hn0 Hs0). subst u. unfold with_params.
      destruct Hcases as [[Hpath ->]|(_ & Hpath & _)].
      * cbn. rewrite Hk, Hpath. by apply schemeless_take.
      * destruct (Py.truthy (UrlParse.params parsed)).
        -- rewrite Hpath, Hj, <- app_assoc in Hbare.
           by apply schemeless_squeeze in Hbare.
        -- rewrite Hk.
           replace (take k (UrlParse.path parsed))
             with (take (k `min` length (UrlParse.path parsed))
                        (UrlParse.s_path r)); [by apply schemeless_take|].
           rewrite Hpath, <- take_take, take_app_length. done.
  - subst u. unfold with_params.
    destruct (Py.truthy (UrlParse.params parsed)) eqn:Hparams.
    + left. destruct Hcases as [[_ Hnil]|(Huses & _ & Hno)];
        [by rewrite Hnil in Hparams|].
      split; [done|].
      assert (Hshape : exists pre,
        read_back s n (kept ++ ";" ++ UrlParse.params parsed)
        = pre ++ ";"%char :: UrlParse.params parsed).
      { unfold read_back, slashed.
        destruct (writes_netloc _ _ _); [|by exists kept].
        destruct (_ && _); [|by exists kept].
        exists ("/"%char :: kept). done. }
      destruct Hshape as [pre ->].
      destruct (last_segment_tail pre (";"%char :: UrlParse.params parsed))
        as [a' ->].
      { apply not_elem_of_cons. split; [done|]. done. }
      destruct (Py.find ";" (a' ++ ";"%char :: UrlParse.params parsed))
        eqn:Hfind; [by eexists|].
      apply find_None in Hfind. exfalso. apply Hfind.
      rewrite elem_of_app. right. left.
    + right. unfold read_back.
      destruct (writes_netloc s n kept).
      * apply strip_path_slashed. apply strip_path_idemp.
      * apply strip_path_idemp.
Qed.

(** *** The second normalisation *)

Lemma read_back_fixed s n u :
  read_back s n (read_back s n u) = read_back s n u
  /\ written s n (read_back s n u) = written s n u.
Proof.
  assert (Hw : writes_netloc s n (read_back s n u) = writes_netloc s n u).
  { unfold read_back. destruct (writes_netloc s n u) eqn:Hw; [|done].
    unfold writes_netloc in *.
    destruct (Py.truthy n || Py.truthy s && bool_decide (s ∈ _)); [done|].
    cbn [orb] in *. apply bool_decide_eq_true in Hw.
    rewrite slashed_of_rooted; [by apply bool_decide_eq_true|].
    destruct u as [|x [|y u]]; [done..|]. injection Hw as -> ->.
    right. by eexists. }
  unfold written. rewrite Hw. unfold read_back at 1. rewrite Hw.
  unfold read_back. destruct (writes_netloc s n u); [|done].
  by rewrite (slashed_of_rooted (slashed u)) by apply slashed_rooted.
Qed.

(** Two paths written after the same scheme and netloc give the same URL
    only when they are the same path, when one is what [urlsplit] reads and
    the other is not longer and starts as it does. *)
Lemma written_inj s n v t :
  read_back s n t = t ->
  (length v <= length t)%nat ->
  (v = [] \/ (exists c v' t', v = c :: v' /\ t = c :: t')
   \/ (length v + 2 <= length t)%nat) ->
  written s n v = written s n t -> v = t.
Proof.
  intros Hfixed Hlen Hhead. unfold written, read_back in *.
  intros Heq%app_inv_head. revert Hfixed Heq.
  assert (Hslashed : slashed v = t -> v = t).
  { unfold slashed. destruct v as [|x v]; [done|].
    rewrite truthy_cons. cbn [take andb].
    case_bool_decide as Hx; cbn [negb]; [done|].
    intros <-. destruct Hhead as [?|[(c & v' & t' & Hv & Ht)|Hshort]].
    - done.
    - injection Hv as <- <-. injection Ht as <- _. by destruct Hx.
    - simpl in Hshort. lia. }
  unfold writes_netloc.
  destruct (Py.truthy n || Py.truthy s && bool_decide (s ∈ _)) eqn:Hauth;
    cbn [orb].
  - intros Hfixed Heq. injection Heq as Heq. apply app_inv_head in Heq.
    rewrite Hfixed in Heq. by apply Hslashed.
  - apply orb_false_iff in Hauth as [->%truthy_false _]. cbn [app].
    case_bool_decide as Ht; case_bool_decide as Hv; intros Hfixed Heq.
    + injection Heq as Heq. rewrite Hfixed in Heq. by apply Hslashed.
    + rewrite Hfixed in Heq. apply (f_equal length) in Heq.
      simpl in Heq. lia.
    + exfalso. apply Ht. by rewrite <- Heq.
    + done.
Qed.

Lemma strip_path_nonempty p : strip_path p = [] -> length p <> 1%nat.
Proof.
  destruct p as [|c [|d p]]; [done| |done].
  unfold strip_path. case_bool_decide as Hc; [|done].
  cbn [Py.rstrip]. unfold Py.is_char. case_bool_decide; [|done].
  by subst c.
Qed.

(** What one step makes of a path is not longer than the path and starts
    as the path does. *)
Lemma strip_step_shape s t :
  let v := strip_step s t in
  (length v <= length t)%nat
  /\ (v = [] \/ (exists c v' t', v = c :: v' /\ t = c :: t')
      \/ (length v + 2 <= length t)%nat).
Proof.
  assert (Hplain : forall m,
    (length (take m t) <= length t)%nat
    /\ (take m t = [] \/ (exists c v' t', take m t = c :: v' /\ t = c :: t')
        \/ (length (take m t) + 2 <= length t)%nat)).
  { intros m. split; [rewrite length_take; lia|].
    destruct m as [|m]; [by left|]. destruct t as [|c t]; [by left|].
    right. left. by eexists _, _, _. }
  unfold strip_step, params_of.
  destruct (bool_decide (s ∈ UrlParse.uses_params) && Py.has ";" t)
    eqn:Hcut; cbn [fst snd].
  - apply andb_true_iff in Hcut as [_ Hsemi].
    destruct (splitparams_cases t Hsemi) as [->|(i & -> & Hi & _)];
      cbn [fst snd].
    + destruct (strip_path_take t) as [k ->]. apply Hplain.
    + apply lookup_lt_Some in Hi as Hlt.
      destruct (strip_path_take (take i t)) as [k Hk].
      assert (Hkept : strip_path (take i t) = take (k `min` i) t)
        by (by rewrite Hk, take_take).
      unfold with_params. destruct (Py.truthy (drop (S i) t)) eqn:Hq.
      * rewrite Hkept. cbv zeta.
        change (str_of_string ";" ++ drop (S i) t)
          with (";"%char :: drop (S i) t).
        rewrite !length_app, length_take. cbn [length]. rewrite length_drop.
        split; [lia|].
        destruct (k `min` i)%nat as [|m] eqn:Hm.
        -- destruct i as [|i].
           ++ right. left. destruct t as [|c t]; [done|].
              injection Hi as ->. by eexists _, _, _.
           ++ right. right.
              assert (length (take (S i) t) <> 1%nat)
                by (apply strip_path_nonempty; by rewrite Hkept).
              rewrite length_take in *. simpl. lia.
        -- right. left. destruct t as [|c t]; [done|]. by eexists _, _, _.
      * rewrite Hkept. apply Hplain.
  - destruct (strip_path_take t) as [k ->]. apply Hplain.
Qed.

Lemma strip_path_fixed_last p c :
  c <> "/"%char -> strip_path (p ++ [c]) = p ++ [c].
Proof.
  intros Hc. unfold strip_path. case_bool_decide as Hp; [|done]. clear Hp.
  induction p as [|x p IH]; cbn [app Py.rstrip].
  - unfold Py.is_char. by rewrite bool_decide_false.
  - rewrite IH. by destruct p.
Qed.

Lemma rstrip_snoc (p : ascii -> bool) s c :
  p c = true -> Py.rstrip p (s ++ [c]) = Py.rstrip p s.
Proof.
  intros Hc. induction s as [|x s IH]; cbn [app Py.rstrip].
  - by rewrite Hc.
  - by rewrite IH.
Qed.

Lemma strip_path_dir d :
  d <> [] -> strip_path (d ++ ["/"%char]) <> d ++ ["/"%char].
Proof.
  intros Hd. unfold strip_path.
  rewrite bool_decide_true by (by destruct d as [|? [|? ?]]).
  rewrite rstrip_snoc by done. intros Heq.
  destruct (rstrip_decompose "/" d) as [j Hj].
  rewrite Heq in Hj. apply (f_equal length) in Hj.
  rewrite !length_app in Hj. simpl in Hj. lia.
Qed.

(** One step leaves a path as it is exactly when no parameter mark is
    exposed, for a path whose trailing slashes are stripped already or
    whose last segment has a mark. *)
Lemma strip_step_fixed s t :
  (s ∈ UrlParse.uses_params /\ is_Some (Py.find ";" (last_segment t)))
  \/ strip_path t = t ->
  strip_step s t = t <-> exposed_mark s t = false.
Proof.
  intros Hfix. unfold strip_step, params_of, exposed_mark.
  destruct (decide (s ∈ UrlParse.uses_params)) as [Hs|Hs];
    [rewrite (bool_decide_true _ Hs)
    |rewrite (bool_decide_false _ Hs)]; cbn [andb fst snd];
    [|split; [done|]; intros _; destruct Hfix as [[? _]|?]; done].
  destruct (last_segment_spec t) as (dir & Ht & Hseg & Hdir).
  destruct (Py.find ";" (last_segment t)) as [k|] eqn:Hk.
  - pose proof Hk as [Hmark _]%find_Some.
    apply lookup_lt_Some in Hmark as Hlt.
    assert (Hsemi : Py.has ";" t = true).
    { apply has_true. rewrite Ht, elem_of_app. right.
      by apply list_elem_of_lookup_2 in Hmark. }
    rewrite Hsemi, splitparams_segment, Hk by done. cbn [fst snd].
    assert (Hlen : (length t - length (last_segment t))%nat = length dir).
    { rewrite Ht at 1. rewrite length_app. lia. }
    rewrite Hlen.
    set (seg := last_segment t) in *.
    assert (Hp : take (length dir + k) t = dir ++ take k seg).
    { rewrite Ht. by rewrite take_app_add. }
    assert (Hwhole : t = (dir ++ take k seg) ++ ";"%char :: drop (S k) seg).
    { rewrite Ht at 1. rewrite <- app_assoc. f_equal.
      symmetry. by apply take_drop_middle. }
    rewrite Hp. unfold with_params.
    destruct (Py.truthy (drop (S k) seg)) eqn:Hq.
    + apply truthy_true in Hq.
      assert (Hnotlast : S k <> length seg).
      { intros Heq. apply Hq. apply drop_ge. lia. }
      rewrite (bool_decide_false _ Hnotlast). cbn [orb].
      change (str_of_string ";" ++ drop (S k) seg)
        with (";"%char :: drop (S k) seg).
      split.
      * intros Heq.
        assert (Hkept : strip_path (dir ++ take k seg) = dir ++ take k seg).
        { apply (app_inv_tail (";"%char :: drop (S k) seg)).
          etrans; [exact Heq | exact Hwhole]. }
        clear Heq. rename Hkept into Heq.
        apply andb_false_iff. destruct k as [|k]; [right|by left].
        apply bool_decide_eq_false. intros Hlong.
        rewrite take_0, app_nil_r in Heq.
        destruct Hdir as [->|[d ->]]; [simpl in Hlong; rewrite Ht in Hlong;
          simpl in Hlong; lia|].
        apply (strip_path_dir d); [|done].
        intros ->. rewrite Ht in Hlong. rewrite length_app in Hlong.
        simpl in Hlong. lia.
      * intros Hno. etrans; [|symmetry; exact Hwhole].
        f_equal. apply andb_false_iff in Hno.
        destruct k as [|k].
        -- destruct Hno as [Hno|Hno]; [done|].
           apply bool_decide_eq_false in Hno.
           rewrite take_0, app_nil_r.
           destruct Hdir as [->|[d ->]]; [done|].
           destruct d as [|x d]; [done|]. exfalso. apply Hno.
           rewrite Ht. rewrite !length_app. simpl. lia.
        -- assert (Hlast : exists y, seg !! k = Some y).
           { apply lookup_lt_is_Some. lia. }
           destruct Hlast as [y Hy].
           rewrite (take_S_r seg k y Hy), app_assoc.
           apply strip_path_fixed_last. intros ->. apply Hseg.
           by apply list_elem_of_lookup_2 in Hy.
    + apply truthy_false in Hq.
      assert (Hlast : S k = length seg).
      { apply (f_equal length) in Hq. rewrite length_drop in Hq.
        simpl in Hq. lia. }
      rewrite (bool_decide_true _ Hlast). cbn [orb].
      split; [|done]. intros Heq. exfalso.
      apply (f_equal length) in Heq.
      destruct (strip_path_take (dir ++ take k seg)) as [m Hm].
      rewrite Hm, length_take in Heq.
      apply (f_equal length) in Hwhole.
      rewrite length_app in Hwhole. simpl in Hwhole. lia.
  - split; [done|]. intros _.
    destruct Hfix as [[_ [? ?]]|Hfix]; [done|].
    destruct (Py.has ";" t) eqn:Hsemi; cbn [fst snd].
    + by rewrite splitparams_segment, Hk by done.
    + done.
Qed.

(** C6, as the code has it.  A URL that [strip_url] returns is read by
    [urlsplit] and normalised again without an exception; it is normalised
    to itself exactly when its path, as [urlsplit] reads it, exposes no
    parameter mark. *)
Theorem strip_url_idempotent url normalised :
  strip_url url = Ok normalised ->
  exists r again,
    UrlParse.urlsplit normalised = Ok r
    /\ strip_url normalised = Ok again
    /\ ((normalised' ← strip_url url; strip_url normalised')
        = strip_url url
        <-> exposed_mark (UrlParse.s_scheme r) (UrlParse.s_path r) = false).
Proof.
  intros Hfirst.
  destruct (UrlParse.urlparse url) as [parsed|e] eqn:Hparse;
    [|unfold strip_url in Hfirst; by rewrite Hparse in Hfirst].
  destruct (strip_url_first url parsed Hparse) as (Hout & Hreadable & Hfix).
  set (s := UrlParse.scheme parsed) in *.
  set (n := UrlParse.netloc parsed) in *.
  set (u := with_params _ _) in *.
  rewrite Hfirst in Hout. injection Hout as ->.
  destruct (read_back_fixed s n u) as [Hback Hwritten].
  set (t := read_back s n u) in *.
  eexists _, _. split; [by apply urlsplit_written|].
  split; [by apply strip_url_written|].
  cbn [UrlParse.s_scheme UrlParse.s_path]. fold t.
  rewrite Hfirst. cbn [mbind Exc_bind].
  rewrite strip_url_written by done. fold t.
  rewrite <- (strip_step_fixed s t Hfix), <- Hwritten.
  destruct (strip_step_shape s t) as [Hlen Hhead].
  split.
  - intros [= Heq]. by apply (written_inj s n).
  - by intros ->.
Qed.

End UrlFacts.

Section DemoUrls.
Import Demo.

(** [;] after the last slash is a parameter mark for [urlparse]: once the
    slash behind it is stripped, the next parse reads the path anew. *)
Lemma strip_url_twice_differs :
  strip_url "https://www.noracooks.com/recipes/;/"
    = Ok (str_of_string "https://www.noracooks.com/recipes/;")
  /\ strip_url "https://www.noracooks.com/recipes/;"
     = Ok (str_of_string "https://www.noracooks.com/recipes")
  /\ (normalised ← strip_url "https://www.noracooks.com/recipes/;/";
      strip_url normalised)
     <> strip_url "https://www.noracooks.com/recipes/;/".
Proof. vm_compute. repeat split; discriminate. Qed.

(** Two URLs that are normalised in one step: one with a query and a
    fragment, one with a [;] inside its last segment. *)
Lemma strip_url_idempotent_witness :
  (normalised ←
     strip_url "https://www.noracooks.com/recipes/vegan-chili/?utm=1#top";
   strip_url normalised)
  = strip_url "https://www.noracooks.com/recipes/vegan-chili/?utm=1#top"
  /\ (normalised ← strip_url "https://www.noracooks.com/recipes/a;b/";
      strip_url normalised)
     = strip_url "https://www.noracooks.com/recipes/a;b/".
Proof.
  split.
  - destruct (strip_url_idempotent
                "https://www.noracooks.com/recipes/vegan-chili/?utm=1#top"
                "https://www.noracooks.com/recipes/vegan-chili" eq_refl)
      as (r & again & Hsplit & _ & Hiff).
    apply Hiff. vm_compute in Hsplit. injection Hsplit as <-. reflexivity.
  - destruct (strip_url_idempotent
                "https://www.noracooks.com/recipes/a;b/"
                "https://www.noracooks.com/recipes/a;b" eq_refl)
      as (r & again & Hsplit & _ & Hiff).
    apply Hiff. vm_compute in Hsplit. injection Hsplit as <-. reflexivity.
Defined.

(** The host of the first URL is an allowed host and its path meets the
    conditions, but its netloc, with the port, is no allowed host: the
    classifier returns false.  The path of the second URL contains the
    excluded fragment [print], but behind a [;] that [urlparse] cuts off as
    parameters: the classifier returns true. *)
Lemma is_recipe_url_differs_from_claim :
  UrlParse.urlparse "https://www.noracooks.com:443/recipes/vegan-chili"
    = Ok (UrlParse.mkParseResult "https" "www.noracooks.com:443"
            "/recipes/vegan-chili" "" "" "")
  /\ UrlParse.hostname
       (UrlParse.mkParseResult "https" "www.noracooks.com:443"
          "/recipes/vegan-chili" "" "" "")
     = Some (str_of_string "www.noracooks.com")
  /\ claimed_recipe_url "https" "www.noracooks.com" "/recipes/vegan-chili"
     = true
  /\ is_recipe_url "https://www.noracooks.com:443/recipes/vegan-chili"
     = Ok false
  /\ UrlParse.urlsplit "https://www.noracooks.com/recipes/vegan-chili;print"
     = Ok (UrlParse.mkSplitResult "https" "www.noracooks.com"
             "/recipes/vegan-chili;print" "" "")
  /\ UrlParse.hostname
       (UrlParse.mkParseResult "https" "www.noracooks.com"
          "/recipes/vegan-chili" "print" "" "")
     = Some (str_of_string "www.noracooks.com")
  /\ claimed_recipe_url "https" "www.noracooks.com"
       "/recipes/vegan-chili;print"
     = false
  /\ is_recipe_url "https://www.noracooks.com/recipes/vegan-chili;print"
     = Ok true.
Proof. vm_compute. done. Qed.

(** Scenario 1 and scenario 2 of the specification, on the normalised
    URLs. *)
Lemma is_recipe_url_scenarios :
  is_recipe_url "https://www.noracooks.com/recipes/vegan-chili" = Ok true
  /\ is_recipe_url "https://www.noracooks.com/category/soups" = Ok false
  /\ is_recipe_url "https://www.noracooks.com/about-nora" = Ok false
  /\ is_recipe_url "https://www.noracooks.com:443/recipes/vegan-chili"
     = Ok false.
Proof. vm_compute. done. Qed.

End DemoUrls.

(** ** More on the link extractor *)

Section ExtractorMore.

Implicit Types (self : AnchorExtractor) (events body : list event).

Lemma attr_map_of_snoc attrs kv :
  attr_map_of (attrs ++ [kv]) = <[kv.1 := kv.2]> (attr_map_of attrs).
Proof. unfold attr_map_of. by rewrite foldl_app. Qed.

(** X1. [attr_map.get(key)] is the value of the last attribute of that name, and
    [None] when there is none. *)
Theorem attr_get_last_wins attrs key :
  attr_get (attr_map_of attrs) key = last_attr attrs key.
Proof.
  unfold attr_get, last_attr.
  induction attrs as [|kv attrs IH] using rev_ind; [done|].
  rewrite attr_map_of_snoc, filter_app.
  destruct (decide (kv.1 = key)) as [Hkey|Hkey].
  - rewrite filter_cons_True, filter_nil by done.
    rewrite last_snoc, Hkey, lookup_insert_eq. done.
  - rewrite filter_cons_False, filter_nil, app_nil_r by done.
    by rewrite lookup_insert_ne.
Qed.

Lemma handle_grows self e :
  anchors (handle self e) = anchors self
  \/ exists r, is_Some (text r) /\ anchors (handle self e) = anchors self ++ [r].
Proof.
  destruct self as [found [current|] parts];
    destruct e as [tag attrs|tag|tag attrs|data|];
    cbn [handle]; unfold handle_starttag, handle_endtag, handle_data;
    cbn [_current anchors _text_parts];
    repeat case_bool_decide; cbn [_current anchors _text_parts];
    try (by left); right; eexists; (split; [|reflexivity]); by eexists.
Qed.

(** X2. Records once made stay: the list of records only grows at its end, and
    every record in it has its text set. *)
Theorem feed_keeps_records events : forall self,
  anchors self `prefix_of` anchors (feed self events)
  /\ (Forall (fun a => is_Some (text a)) (anchors self) ->
      Forall (fun a => is_Some (text a)) (anchors (feed self events))).
Proof.
  induction events as [|e events IH]; intros self; [done|].
  rewrite feed_cons. destruct (IH (handle self e)) as [Hprefix Htext].
  destruct (handle_grows self e) as [Heq|(r & Hr & Heq)];
    rewrite Heq in Hprefix, Htext.
  - done.
  - split.
    + etrans; [|done]. by apply prefix_app_r.
    + intros Hall. apply Htext, Forall_app. split; [done|].
      by constructor.
Qed.

Lemma feed_anchor_element found parts attrs body :
  plain body = true ->
  feed (mkAnchorExtractor found None parts) (anchor_element attrs body)
  = mkAnchorExtractor (found ++ [closed_anchor attrs (data_of body)]) None [].
Proof.
  intros Hbody. unfold anchor_element.
  rewrite feed_cons. cbn [handle]. rewrite handle_starttag_a.
  cbn [anchors]. rewrite feed_app, feed_inside by done.
  reflexivity.
Qed.

Lemma feed_blocks blocks : forall found,
  forallb plain_block blocks = true ->
  feed (mkAnchorExtractor found None [])
       (concat ((fun b => block_before b
                            ++ anchor_element (block_attrs b) (block_body b))
                  <$> blocks))
  = mkAnchorExtractor
      (found ++ ((fun b => closed_anchor (block_attrs b)
                             (data_of (block_body b))) <$> blocks))
      None [].
Proof.
  induction blocks as [|b blocks IH]; intros found Hblocks.
  - by rewrite app_nil_r.
  - cbn [forallb] in Hblocks. apply andb_true_iff in Hblocks as [Hb Hblocks].
    apply andb_true_iff in Hb as [Hbefore Hbody].
    rewrite !fmap_cons. cbn [concat]. rewrite !feed_app.
    rewrite feed_outside, feed_anchor_element by done.
    rewrite IH by done. by rewrite <- app_assoc.
Qed.

(** X3. For a document whose anchors are closed and not nested the parser ends
    with one record for each [<a>] element, in the order of the document;
    each holds the attributes of its start tag and the cleaned text of the
    text nodes inside the element, those of nested elements included. *)
Theorem feed_document blocks after :
  forallb plain_block blocks = true ->
  plain after = true ->
  feed AnchorExtractor_init (document blocks after)
  = mkAnchorExtractor
      ((fun b => closed_anchor (block_attrs b) (data_of (block_body b)))
         <$> blocks)
      None [].
Proof.
  intros Hblocks Hafter. unfold document, AnchorExtractor_init.
  rewrite feed_app, feed_blocks by done.
  by rewrite feed_outside.
Qed.

End ExtractorMore.

(** ** Cleaned text *)

Section CleanText.

Implicit Types (s t cur w : str) (ws : list str) (c : ascii).

Lemma flush_rev_word cur :
  cur <> [] -> Py.flush cur = [rev cur].
Proof. by destruct cur. Qed.

Lemma split_ws_go_word w : forall cur rest,
  Forall (fun c => Py.isspace c = false) w ->
  Py.split_ws_go cur (w ++ rest) = Py.split_ws_go (rev w ++ cur) rest.
Proof.
  induction w as [|c w IH]; intros cur rest Hw; [done|].
  apply Forall_cons in Hw as [Hc Hw]. cbn [app Py.split_ws_go].
  rewrite Hc, IH by done. cbn [rev]. by rewrite <- app_assoc.
Qed.

Lemma split_ws_go_word_only w cur :
  Forall (fun c => Py.isspace c = false) w ->
  Py.split_ws_go cur w = Py.flush (rev w ++ cur).
Proof.
  intros Hw. rewrite <- (app_nil_r w) at 1. by rewrite split_ws_go_word.
Qed.

Lemma rev_nonempty w : w <> [] -> rev w <> [].
Proof.
  intros Hne Hrev. apply Hne. apply (f_equal length) in Hrev.
  rewrite length_rev in Hrev. by destruct w.
Qed.

Lemma split_ws_go_blanks t : forall cur,
  Forall (fun c => Py.isspace c = true) t ->
  Py.split_ws_go cur t = Py.flush cur.
Proof.
  induction t as [|c t IH]; intros cur Ht; [done|].
  apply Forall_cons in Ht as [Hc Ht]. cbn [Py.split_ws_go].
  rewrite Hc, IH by done. by rewrite app_nil_r.
Qed.

Lemma split_ws_go_app_blanks s t : forall cur,
  Forall (fun c => Py.isspace c = true) t ->
  Py.split_ws_go cur (s ++ t) = Py.split_ws_go cur s.
Proof.
  induction s as [|c s IH]; intros cur Ht.
  - by apply split_ws_go_blanks.
  - cbn [app Py.split_ws_go]. by rewrite !IH.
Qed.

(** The pieces of [split()] are words. *)
Lemma split_ws_go_words s : forall cur,
  Forall (fun c => Py.isspace c = false) cur ->
  Forall word (Py.split_ws_go cur s).
Proof.
  assert (Hflush : forall cur,
    Forall (fun c => Py.isspace c = false) cur -> Forall word (Py.flush cur)).
  { intros [|c cur] Hcur; [constructor|]. constructor; [|constructor].
    split; [by apply rev_nonempty|].
    apply Forall_forall. intros x Hx%list_elem_of_In%in_rev%list_elem_of_In.
    rewrite Forall_forall in Hcur. by apply Hcur. }
  induction s as [|c s IH]; intros cur Hcur; cbn [Py.split_ws_go].
  - by apply Hflush.
  - destruct (Py.isspace c) eqn:Hc.
    + apply Forall_app. split; [by apply Hflush | by apply IH].
    + apply IH. by constructor.
Qed.

Lemma split_ws_words s : Forall word (Py.split_ws s).
Proof. by apply split_ws_go_words. Qed.

(** [split()] undoes a join of words by single blanks. *)
Lemma split_ws_join ws :
  Forall word ws -> Py.split_ws (Py.join " " ws) = ws.
Proof.
  unfold Py.split_ws. induction 1 as [|w ws [Hne Hw] Hws IH]; [done|].
  destruct ws as [|w' ws].
  - cbn [Py.join]. rewrite split_ws_go_word_only by done.
    rewrite app_nil_r, flush_rev_word by by apply rev_nonempty.
    by rewrite rev_involutive.
  - change (Py.join " " (w :: w' :: ws))
      with (w ++ " "%char :: Py.join " " (w' :: ws)).
    rewrite split_ws_go_word by done. cbn [Py.split_ws_go].
    replace (Py.isspace " ") with true by done.
    rewrite app_nil_r, flush_rev_word, IH by by apply rev_nonempty.
    by rewrite rev_involutive.
Qed.

Lemma rstrip_fixed_snoc (p : ascii -> bool) s x :
  p x = false -> Py.rstrip p (s ++ [x]) = s ++ [x].
Proof.
  intros Hx. induction s as [|y s IH].
  - simpl. by rewrite Hx.
  - cbn [app Py.rstrip]. rewrite IH. by destruct s.
Qed.

Lemma join_words_ends ws :
  Forall word ws -> ws <> [] ->
  (exists c t, Py.join " " ws = c :: t /\ Py.isspace c = false)
  /\ (exists t c, Py.join " " ws = t ++ [c] /\ Py.isspace c = false).
Proof.
  induction 1 as [|w ws [Hne Hw] Hws IH]; [done|]. intros _.
  assert (Hfirst : exists c t, w = c :: t /\ Py.isspace c = false).
  { destruct w as [|c t]; [done|]. apply Forall_cons in Hw as [Hc _].
    by eexists _, _. }
  assert (Hlast : exists t c, w = t ++ [c] /\ Py.isspace c = false).
  { destruct w as [|c t _] using rev_ind; [done|].
    apply Forall_app in Hw as [_ [Hc _]%Forall_cons]. by eexists _, _. }
  destruct ws as [|w' ws]; [done|].
  change (Py.join " " (w :: w' :: ws))
    with (w ++ " "%char :: Py.join " " (w' :: ws)).
  split.
  - destruct Hfirst as (c & t & -> & Hc). by eexists _, _.
  - destruct IH as [_ (t & c & Hjoin & Hc)]; [done|].
    rewrite Hjoin. exists (w ++ " "%char :: t), c.
    split; [by rewrite <- app_assoc | done].
Qed.

(** A join of words by single blanks has no blank to strip. *)
Lemma strip_join_words ws :
  Forall word ws ->
  Py.strip Py.isspace (Py.join " " ws) = Py.join " " ws.
Proof.
  intros Hws. destruct ws as [|w ws]; [done|].
  destruct (join_words_ends (w :: ws) Hws) as
    [(c & t & Hfirst & Hc) (t' & c' & Hlast & Hc')]; [done|].
  unfold Py.strip. rewrite Hfirst, lstrip_keep by done.
  rewrite <- Hfirst, Hlast. by apply rstrip_fixed_snoc.
Qed.

Lemma rstrip_decompose_pred (p : ascii -> bool) s :
  exists t, s = Py.rstrip p s ++ t /\ Forall (fun c => p c = true) t.
Proof.
  induction s as [|x s (t & IH & Ht)]; [by exists []|].
  simpl. destruct (Py.rstrip p s) as [|y r] eqn:Hr.
  - simpl in IH. subst s. destruct (p x) eqn:Hx.
    + exists (x :: t). split; [done | by constructor].
    + by exists t.
  - exists t. split; [|done]. simpl. by f_equal.
Qed.

(** Blanks at the ends do not change the words. *)
Lemma split_ws_strip s :
  Py.split_ws (Py.strip Py.isspace s) = Py.split_ws s.
Proof.
  unfold Py.strip, Py.split_ws.
  transitivity (Py.split_ws_go [] (Py.lstrip Py.isspace s)).
  - destruct (rstrip_decompose_pred Py.isspace (Py.lstrip Py.isspace s))
      as (t & Hdec & Ht).
    rewrite Hdec at 2. by rewrite split_ws_go_app_blanks.
  - induction s as [|c s IH]; [done|].
    simpl. destruct (Py.isspace c) eqn:Hc; simpl; by rewrite ?Hc.
Qed.

Lemma clean_title_words s : clean_title s = Py.join " " (Py.split_ws s).
Proof. unfold clean_title. apply strip_join_words, split_ws_words. Qed.

Lemma clean_title_idemp s : clean_title (clean_title s) = clean_title s.
Proof.
  rewrite !clean_title_words.
  by rewrite split_ws_join by apply split_ws_words.
Qed.

(** X4. The cleaning of [pick_title] gives the words of the candidate joined by
    single blanks; the [strip()] it ends with removes nothing, and cleaning
    a cleaned text changes nothing. *)
Theorem clean_title_normal_form s :
  clean_title s = Py.join " " (Py.split_ws s)
  /\ Forall word (Py.split_ws s)
  /\ clean_title (clean_title s) = clean_title s.
Proof.
  split; [apply clean_title_words|]. split; [apply split_ws_words|].
  apply clean_title_idemp.
Qed.

Lemma anchor_text_words parts :
  anchor_text parts = Py.join " " (Py.split_ws (Py.join " " parts)).
Proof. unfold anchor_text. by rewrite split_ws_strip. Qed.

(** X5. The text the extractor stores is already clean: for a record it made,
    [pick_title] returns the stored text whenever that has between 4 and
    120 characters, whatever the other attributes are. *)
Theorem pick_title_of_closed_anchor attrs parts :
  clean_title (anchor_text parts) = anchor_text parts
  /\ (acceptable (anchor_text parts) = true ->
      pick_title (closed_anchor attrs parts) = Some (anchor_text parts)).
Proof.
  assert (Hclean : clean_title (anchor_text parts) = anchor_text parts).
  { rewrite anchor_text_words, clean_title_words.
    by rewrite split_ws_join by apply split_ws_words. }
  split; [done|]. intros Hok.
  unfold pick_title, closed_anchor. cbn [text pick_title_loop].
  destruct (Py.truthy (anchor_text parts)) eqn:Htruthy.
  - cbn [negb]. by rewrite Hclean, Hok.
  - apply truthy_false in Htruthy. by rewrite Htruthy in Hok.
Qed.

End CleanText.

(** ** Title selection *)

Section Title.

Lemma acceptable_bounds cleaned :
  acceptable cleaned = true <-> (4 <= length cleaned <= 120)%nat.
Proof.
  unfold acceptable. rewrite andb_true_iff, !Nat.leb_le. done.
Qed.

Lemma pick_title_loop_spec (candidates : list (option str)) :
  pick_title_loop candidates
  = head (filter (fun cleaned => 4 <= length cleaned <= 120)%nat
                 (collapsed <$> omap id candidates)).
Proof.
  induction candidates as [|[c|] rest IH]; simpl; [done| |done].
  rewrite IH, clean_title_words. fold (collapsed c).
  unfold Py.truthy. case_bool_decide as Hc; simpl.
  - subst c. rewrite filter_cons_False; [done|]. vm_compute. lia.
  - destruct (acceptable (collapsed c)) eqn:Hacc.
    + rewrite filter_cons_True; [done | by apply acceptable_bounds].
    + rewrite filter_cons_False; [done|].
      rewrite <- acceptable_bounds. by rewrite Hacc.
Qed.

(** C5. [pick_title] tries the visible text, then [aria_label], then
    [title_attr]; it collapses the whitespace inside each candidate and
    trims it, and returns the first whose cleaned length is between 4 and
    120, or nothing.  An anchor with blank text, no [aria-label] and the
    title attribute "Best Tacos Ever" gets the title "Best Tacos Ever"; the
    text ["  Vegan    Chili  "] gives the title "Vegan Chili". *)
Theorem pick_title_first_acceptable (a : anchor) :
  pick_title a = spec_pick_title a
  /\ pick_title {| href := href a; title_attr := Some (str_of_string "Best Tacos Ever");
                   aria_label := None; text := Some (str_of_string "  ") |}
     = Some (str_of_string "Best Tacos Ever")
  /\ pick_title {| href := href a; title_attr := title_attr a;
                   aria_label := aria_label a;
                   text := Some (str_of_string "  Vegan    Chili  ") |}
     = Some (str_of_string "Vegan Chili").
Proof.
  split; [apply pick_title_loop_spec|]. split; reflexivity.
Qed.

End Title.

(** ** The loop of [extract_recipes] *)

Section ExtractLoop.
Context `{UrlLib}.

Implicit Types (a : anchor) (found new : list recipe).

Lemma extract_loop_cons base_url a rest found :
  extract_loop base_url (a :: rest) found
  = (made ← recipe_of_anchor base_url a;
     extract_loop base_url rest (found ++ option_list made)).
Proof.
  cbn [extract_loop]. unfold recipe_of_anchor, mbind, Exc_bind.
  repeat (case_match; try done); cbn [option_list]; by rewrite ?app_nil_r.
Qed.

Lemma extract_loop_app base_url anchors1 anchors2 found :
  extract_loop base_url (anchors1 ++ anchors2) found
  = (mid ← extract_loop base_url anchors1 found;
     extract_loop base_url anchors2 mid).
Proof.
  revert found. induction anchors1 as [|a anchors1 IH]; intros found; [done|].
  rewrite <- app_comm_cons, !extract_loop_cons.
  destruct (recipe_of_anchor base_url a) as [made|e]; [|done].
  cbn [mbind Exc_bind]. apply IH.
Qed.

(** X6. The loop reads the anchors from left to right and only appends: the
    loop over two lists one after the other is the loop over the first
    followed by the loop over the second, which is not run when the first
    raises; and what was found before is kept in front of what the loop
    finds. *)
Theorem extract_loop_composes base_url anchors1 anchors2 found :
  extract_loop base_url (anchors1 ++ anchors2) found
  = (mid ← extract_loop base_url anchors1 found;
     extract_loop base_url anchors2 mid)
  /\ extract_loop base_url anchors1 found
     = (new ← extract_loop base_url anchors1 []; Ok (found ++ new)).
Proof.
  split; [apply extract_loop_app|].
  revert found. induction anchors1 as [|a anchors1 IH]; intros found.
  - cbn. by rewrite app_nil_r.
  - rewrite !extract_loop_cons.
    destruct (recipe_of_anchor base_url a) as [made|e]; [|done].
    cbn [mbind Exc_bind app]. rewrite IH, (IH (option_list made)).
    destruct (extract_loop base_url anchors1 []) as [new|e]; [|done].
    cbn [mbind Exc_bind]. by rewrite app_assoc.
Qed.

Lemma pick_title_loop_Some candidates title :
  pick_title_loop candidates = Some title ->
  acceptable title = true /\ clean_title title = title.
Proof.
  induction candidates as [|[c|] rest IH]; cbn [pick_title_loop]; [done| |done].
  destruct (Py.truthy c); cbn [negb]; [|done].
  destruct (acceptable (clean_title c)) eqn:Hok; [|done].
  intros [= <-]. split; [done|]. apply clean_title_idemp.
Qed.

Lemma recipe_of_anchor_Some base_url a r :
  recipe_of_anchor base_url a = Ok (Some r) ->
  acceptable (recipe_title r) = true
  /\ clean_title (recipe_title r) = recipe_title r
  /\ made_from base_url [a] r.
Proof.
  unfold recipe_of_anchor, made_from.
  destruct (href a) as [h|] eqn:Hhref; [|done].
  destruct (Py.truthy h) eqn:Hh; cbn [negb]; [|done].
  destruct (urljoin base_url h) as [joined|] eqn:Hjoin; [|done].
  cbn [mbind Exc_bind].
  destruct (strip_url joined) as [url|] eqn:Hstrip; [|done].
  cbn [mbind Exc_bind].
  destruct (is_recipe_url url) as [[]|] eqn:Hok; [|done..].
  cbn [negb mbind Exc_bind].
  destruct (pick_title a) as [title|] eqn:Htitle; [|done].
  destruct (Py.truthy title); cbn [negb]; [|done].
  intros [= <-]. cbn [recipe_title recipe_url].
  apply pick_title_loop_Some in Htitle as Hfacts.
  destruct Hfacts as [Hacc Hclean].
  split; [done|]. split; [done|].
  exists a, h, joined. apply truthy_true in Hh.
  repeat split; try done. by apply list_elem_of_singleton.
Qed.

Lemma made_from_mono base_url anchors anchors' r :
  anchors ⊆ anchors' -> made_from base_url anchors r ->
  made_from base_url anchors' r.
Proof.
  intros Hsub (a & h & joined & Ha & Hrest).
  exists a, h, joined. split; [by apply Hsub | done].
Qed.

Lemma extract_loop_new base_url anchors : forall found out,
  extract_loop base_url anchors found = Ok out ->
  exists new,
    out = found ++ new
    /\ (length new <= length anchors)%nat
    /\ Forall (fun r => acceptable (recipe_title r) = true
                        /\ clean_title (recipe_title r) = recipe_title r
                        /\ made_from base_url anchors r) new.
Proof.
  induction anchors as [|a anchors IH]; intros found out.
  - intros [= <-]. exists []. by rewrite app_nil_r.
  - rewrite extract_loop_cons.
    destruct (recipe_of_anchor base_url a) as [made|e] eqn:Hmade; [|done].
    cbn [mbind Exc_bind]. intros Hloop.
    destruct (IH _ _ Hloop) as (new & -> & Hlen & Hall).
    exists (option_list made ++ new).
    split; [by rewrite app_assoc|].
    split; [rewrite length_app; destruct made; simpl; lia|].
    apply Forall_app. split.
    + destruct made as [r|]; [|constructor].
      apply recipe_of_anchor_Some in Hmade as (? & ? & Hfrom).
      constructor; [|constructor]. repeat split; try done.
      eapply made_from_mono; [|done]. set_solver.
    + eapply Forall_impl; [done|]. intros r (? & ? & Hfrom).
      repeat split; try done. eapply made_from_mono; [|done]. set_solver.
Qed.

(** X7. Every recipe [extract_recipes] returns comes from an anchor of the page
    with a non-empty [href]: its URL is the joined and normalised [href], it
    is accepted by [is_recipe_url], and its title is the anchor's picked
    title, clean and of 4 to 120 characters.  There is at most one recipe
    for each anchor. *)
Theorem extract_recipes_invariant `{HtmlLib} html base_url out :
  extract_recipes html base_url = Ok out ->
  exists events,
    feed_events html = Ok events
    /\ (length out <= length (anchors (feed AnchorExtractor_init events)))%nat
    /\ Forall (fun r =>
                 acceptable (recipe_title r) = true
                 /\ clean_title (recipe_title r) = recipe_title r
                 /\ made_from base_url
                      (anchors (feed AnchorExtractor_init events)) r) out.
Proof.
  unfold extract_recipes.
  destruct (feed_events html) as [events|e]; [|done].
  cbn [mbind Exc_bind]. intros Hloop. exists events. split; [done|].
  by destruct (extract_loop_new _ _ _ _ Hloop) as (new & -> & Hlen & Hall).
Qed.

(** X8. One anchor whose [href] cannot be joined, normalised or classified
    makes the loop raise, whatever it found before and whatever follows: the
    page gives no recipe at all. *)
Theorem extract_loop_raises base_url a href_ e before after found mid :
  extract_loop base_url before found = Ok mid ->
  href a = Some href_ ->
  Py.truthy href_ = true ->
  (url ← urljoin base_url href_; url ← strip_url url; is_recipe_url url)
  = Raise e ->
  extract_loop base_url (before ++ a :: after) found = Raise e.
Proof.
  intros Hbefore Hhref Htruthy Hchain.
  rewrite extract_loop_app, Hbefore. cbn [mbind Exc_bind].
  rewrite extract_loop_cons.
  assert (Hmade : recipe_of_anchor base_url a = Raise e).
  { unfold recipe_of_anchor. rewrite Hhref, Htruthy. cbn [negb].
    destruct (urljoin base_url href_) as [joined|e1];
      cbn [mbind Exc_bind] in *; [|by injection Hchain as ->].
    destruct (strip_url joined) as [url|e2];
      cbn [mbind Exc_bind] in *; [|by injection Hchain as ->].
    by rewrite Hchain. }
  by rewrite Hmade.
Qed.

End ExtractLoop.

(** ** More on deduplication *)

Section DedupeMore.

Implicit Types (recipes rest earlier : list recipe).

Lemma kept_after_fresh rest : forall earlier,
  NoDup (url_key <$> rest) ->
  (forall r, r ∈ rest -> url_key r ∉ url_key <$> earlier) ->
  kept_after earlier rest = rest.
Proof.
  induction rest as [|r rest IH]; intros earlier Hnodup Hfresh; [done|].
  cbn [kept_after]. rewrite fmap_cons in Hnodup.
  apply NoDup_cons in Hnodup as [Hr Hnodup].
  rewrite bool_decide_false by (apply Hfresh; left).
  cbn [app]. f_equal. apply IH; [done|].
  intros r' Hr'. rewrite fmap_app, elem_of_app. intros [Hin|Hin].
  - by apply (Hfresh r'); [right|].
  - apply list_elem_of_singleton in Hin. apply Hr. rewrite <- Hin.
    by apply list_elem_of_fmap_2.
Qed.

(** X9. Deduplicating twice is deduplicating once. *)
Theorem dedupe_recipes_idempotent recipes :
  dedupe_recipes (dedupe_recipes recipes) = dedupe_recipes recipes.
Proof.
  rewrite (dedupe_recipes_kept (dedupe_recipes recipes)).
  apply kept_after_fresh.
  - rewrite dedupe_recipes_kept. apply kept_after_NoDup.
  - intros r _. apply not_elem_of_nil.
Qed.

Lemma kept_after_filter rest : forall earlier earlier',
  kept_after (earlier ++ earlier') rest
  = filter (fun r => url_key r ∉ url_key <$> earlier)
           (kept_after earlier' rest).
Proof.
  induction rest as [|r rest IH]; intros earlier earlier'; [done|].
  cbn [kept_after]. rewrite filter_app, <- app_assoc, IH.
  f_equal. rewrite fmap_app.
  repeat case_bool_decide; try done.
  - rewrite filter_cons_False, filter_nil; [done|]. set_solver.
  - set_solver.
  - rewrite filter_cons_True, filter_nil; [done|]. set_solver.
Qed.

Lemma kept_after_app earlier rest1 rest2 :
  kept_after earlier (rest1 ++ rest2)
  = kept_after earlier rest1 ++ kept_after (earlier ++ rest1) rest2.
Proof.
  revert earlier. induction rest1 as [|r rest1 IH]; intros earlier.
  - by rewrite app_nil_r.
  - cbn [kept_after app]. rewrite IH, <- !app_assoc. done.
Qed.

(** X10. How [main] gathers: when the recipes of a second source are appended to
    those of a first, the deduplicated list is the deduplicated first list
    followed by the recipes of the deduplicated second list whose URL the
    first source does not have. *)
Theorem dedupe_recipes_app recipes1 recipes2 :
  dedupe_recipes (recipes1 ++ recipes2)
  = dedupe_recipes recipes1
      ++ filter (fun r => url_key r ∉ url_key <$> recipes1)
                (dedupe_recipes recipes2).
Proof.
  rewrite !dedupe_recipes_kept, kept_after_app. f_equal. cbn [app].
  rewrite <- (app_nil_r recipes1) at 1. apply kept_after_filter.
Qed.

(** X11. No URL is lost: the lowercased URLs of the result are those of the
    input, and the result is empty only for the empty input. *)
Theorem dedupe_recipes_keeps_urls recipes :
  (list_to_set (url_key <$> dedupe_recipes recipes) : gset str)
  = list_to_set (url_key <$> recipes)
  /\ (dedupe_recipes recipes = [] <-> recipes = []).
Proof.
  rewrite dedupe_recipes_kept. split.
  - apply set_eq. intros k.
    rewrite !elem_of_list_to_set, kept_after_keys. set_solver.
  - split; [|by intros ->].
    destruct recipes as [|r recipes]; [done|]. cbn [kept_after].
    by rewrite bool_decide_false by apply not_elem_of_nil.
Qed.

End DedupeMore.

(** ** More on a run of [main] *)

Section MainMore.
Context `{UrlLib} `{HtmlLib} `{RandomLib}.

Lemma gather_log world pages : forall recipes log,
  (gather world pages recipes log).2
  = log ++ concat (source_failure world <$> pages).
Proof.
  induction pages as [|url pages IH]; intros recipes log; simpl.
  - by rewrite app_nil_r.
  - unfold source_failure at 1.
    destruct (html ← fetch_url world url; extract_recipes html url)
      as [found|exc]; rewrite IH; [done | by rewrite <- app_assoc].
Qed.

Lemma configured_true world :
  configured world = true ->
  exists recipient sender,
    environ_get world "RECIPIENT_EMAIL" = Some recipient
    /\ environ_get world "SENDER_EMAIL" = Some sender
    /\ Py.truthy recipient = true /\ Py.truthy sender = true.
Proof.
  unfold configured.
  destruct (environ_get world "RECIPIENT_EMAIL") as [recipient|]; [|done].
  destruct (environ_get world "SENDER_EMAIL") as [sender|];
    cbn [Py.truthy_opt]; [|by rewrite andb_false_r].
  intros [? ?]%andb_true_iff. by exists recipient, sender.
Qed.

Lemma main_unconfigured world :
  configured world = false ->
  main world
  = mkRun [str_of_string "Missing required environment variables"] None
          (Ok (StatusError "Missing config")).
Proof.
  unfold configured, main.
  destruct (environ_get world "RECIPIENT_EMAIL") as [recipient|]; [|done].
  destruct (environ_get world "SENDER_EMAIL") as [sender|]; [|done].
  cbn [Py.truthy_opt]. by intros ->.
Qed.

(** X12. The run ends with the configuration error, with one line printed and no
    message composed, exactly when an address is unset or empty. *)
Theorem main_missing_config world :
  configured world = false
  <-> main world
      = mkRun [str_of_string "Missing required environment variables"] None
              (Ok (StatusError "Missing config")).
Proof.
  split; [apply main_unconfigured|].
  destruct (configured world) eqn:Hconf; [|done].
  destruct (configured_true world Hconf)
    as (recipient & sender & Hr & Hs & Hrt & Hst).
  unfold main. rewrite Hr, Hs, Hrt, Hst. cbn [andb negb].
  destruct (gather world RECIPE_PAGES [] []) as [gathered log].
  destruct (match dedupe_recipes gathered with
            | [] => _ | _ :: _ => _ end) as [[subject body]|e].
  - destruct (send_email world sender recipient subject body). done.
  - done.
Qed.

Context `{!RandomSpec}.

Lemma main_configured world recipient sender :
  environ_get world "RECIPIENT_EMAIL" = Some recipient ->
  environ_get world "SENDER_EMAIL" = Some sender ->
  Py.truthy recipient = true -> Py.truthy sender = true ->
  let recipes :=
    dedupe_recipes (concat (source_recipes world <$> RECIPE_PAGES)) in
  let week_label := Datetime.strftime_week_of (est_now world) in
  let subject :=
    "Weekly Vegan Recipes - " ++ week_label
      ++ (if recipes is [] then str_of_string " - No recipes found"
          else []) in
  exists body,
    main world
    = mkRun (concat (source_failure world <$> RECIPE_PAGES)
               ++ ["Sending email: " ++ subject]
               ++ (send_email world sender recipient subject body).1)
            (Some (mkEmail sender recipient subject body))
            (match (send_email world sender recipient subject body).2 with
             | Raise e => Raise e
             | Ok true => Ok (StatusSuccess (length recipes))
             | Ok false => Ok (StatusError "Failed to send email")
             end).
Proof.
  intros Hr Hs Hrt Hst. cbv zeta.
  unfold main. rewrite Hr, Hs, Hrt, Hst. cbn [andb negb].
  pose proof (gather_recipes world RECIPE_PAGES [] []) as Hgather.
  pose proof (gather_log world RECIPE_PAGES [] []) as Hlog.
  destruct (gather world RECIPE_PAGES [] []) as [gathered log].
  cbn [fst snd app] in Hgather, Hlog. subst gathered log.
  generalize (dedupe_recipes (concat (source_recipes world <$> RECIPE_PAGES))).
  generalize (concat (source_failure world <$> RECIPE_PAGES)).
  intros failures recipes.
  destruct recipes as [|r recipes'].
  - exists no_recipes_body.
    destruct (send_email world sender recipient _ no_recipes_body)
      as [lines success] eqn:Hsend.
    rewrite <- !app_assoc. reflexivity.
  - rewrite app_nil_r.
    destruct (pick_weekly_recipes_cases (r :: recipes') 5 (est_now world))
      as [[_ Hpick]|[_ (selected & Hpick & _)]]; [lia| |];
      rewrite Hpick; cbn [mbind Exc_bind];
      match goal with
      | |- context [send_email ?w ?s ?t ?u ?b] =>
          exists b; destruct (send_email w s t u b) as [lines success]
      end;
      rewrite <- !app_assoc; reflexivity.
Qed.

(** X13. An exception leaves [main] only when the addresses are configured and
    the mail client cannot be created, and it is that exception: nothing a
    source page, the selection or the delivery does makes a run raise. *)
Theorem main_raises_iff world e :
  returned (main world) = Raise e
  <-> configured world = true /\ ses_client world = Raise e.
Proof.
  destruct (configured world) eqn:Hconf.
  - destruct (configured_true world Hconf)
      as (recipient & sender & Hr & Hs & Hrt & Hst).
    destruct (main_configured world recipient sender Hr Hs Hrt Hst)
      as (body & ->).
    cbn [returned]. unfold send_email.
    destruct (ses_client world) as [send|e']; cbn [snd].
    + destruct (send sender recipient _ body); cbn [snd];
        split; [done | by intros [_ ?] | done | by intros [_ ?]].
    + split; [by intros [= ->] | by intros [_ [= ->]]].
  - rewrite (main_unconfigured world Hconf). cbn [returned].
    split; [done | by intros [? _]].
Qed.

(** X14. What a configured run reports once the mail client exists: one line for
    every source page that failed, in the order of [RECIPE_PAGES], the line
    announcing the subject, and the line for the delivery.  A delivery that
    raises is printed and turned into the error result; the subject says so
    when no recipe was found. *)
Theorem main_report world send :
  configured world = true ->
  ses_client world = Ok send ->
  let recipes :=
    dedupe_recipes (concat (source_recipes world <$> RECIPE_PAGES)) in
  let subject :=
    "Weekly Vegan Recipes - " ++ Datetime.strftime_week_of (est_now world)
      ++ (if recipes is [] then str_of_string " - No recipes found"
          else []) in
  let failures := concat (source_failure world <$> RECIPE_PAGES) in
  exists sender recipient body,
    environ_get world "SENDER_EMAIL" = Some sender
    /\ environ_get world "RECIPIENT_EMAIL" = Some recipient
    /\ handed_over (main world)
       = Some (mkEmail sender recipient subject body)
    /\ match send sender recipient subject body with
       | Ok _ =>
           printed (main world)
           = failures ++ ["Sending email: " ++ subject;
                          str_of_string "Email sent successfully"]
           /\ returned (main world) = Ok (StatusSuccess (length recipes))
       | Raise exc =>
           printed (main world)
           = failures ++ ["Sending email: " ++ subject;
                          "SES error: " ++ exn_msg exc]
           /\ returned (main world)
              = Ok (StatusError "Failed to send email")
       end.
Proof.
  intros Hconf Hses. cbv zeta.
  destruct (configured_true world Hconf)
    as (recipient & sender & Hr & Hs & Hrt & Hst).
  destruct (main_configured world recipient sender Hr Hs Hrt Hst)
    as (body & ->).
  exists sender, recipient, body.
  split; [done|]. split; [done|]. split; [done|].
  cbn [printed returned]. unfold send_email. rewrite Hses.
  by destruct (send sender recipient _ body).
Qed.

End MainMore.

(** ** The message body *)

Section Format.

Lemma string_of_uint_chars d x :
  x ∈ String.list_ascii_of_string (NilEmpty.string_of_uint d) ->
  x ∈ str_of_string "0123456789".
Proof.
  induction d; cbn [NilEmpty.string_of_uint String.list_ascii_of_string];
    intros Hx; try (apply elem_of_cons in Hx as [->|Hx]; [|by apply IHd]);
    try by apply elem_of_nil in Hx.
  all: vm_compute; set_solver.
Qed.

Lemma str_of_int_chars z x :
  x ∈ Py.str_of_int z -> x ∈ str_of_string "-0123456789".
Proof.
  unfold Py.str_of_int, NilZero.string_of_int, NilZero.string_of_uint.
  intros Hx.
  assert (Hdigits : forall d,
    x ∈ String.list_ascii_of_string
          match d with
          | Decimal.Nil => "0"%string
          | _ => NilEmpty.string_of_uint d
          end -> x ∈ str_of_string "0123456789").
  { intros d Hd. destruct d; try by apply (string_of_uint_chars _ _ Hd).
    cbn in Hd. apply list_elem_of_singleton in Hd as ->.
    vm_compute. set_solver. }
  destruct (Z.to_int z) as [d|d].
  - right. exact (Hdigits d Hx).
  - cbn [String.list_ascii_of_string] in Hx.
    apply elem_of_cons in Hx as [->|Hx]; [left|].
    right. exact (Hdigits d Hx).
Qed.

End Format.

Section FormatLines.
Local Open Scope nat_scope.

Lemma split_single c s : c ∉ s -> Py.split c s = [s].
Proof.
  induction s as [|x s IH]; [done|].
  intros [Hx Hs]%not_elem_of_cons. simpl.
  rewrite bool_decide_false by done. by rewrite IH.
Qed.

Lemma split_join c parts :
  parts <> [] -> Forall (fun p => c ∉ p) parts ->
  Py.split c (Py.join [c] parts) = parts.
Proof.
  induction parts as [|p parts IH]; [done|]. intros _ Hparts.
  apply Forall_cons in Hparts as [Hp Hparts].
  destruct parts as [|q parts]; [by apply split_single|].
  change (Py.join [c] (p :: q :: parts))
    with (p ++ c :: Py.join [c] (q :: parts)).
  rewrite split_app_sep, IH by done. by rewrite split_single.
Qed.

Lemma format_entries_length recipes : forall idx,
  length (format_entries idx recipes) = 3 * length recipes.
Proof.
  induction recipes as [|r recipes IH]; intros idx; [done|].
  cbn [format_entries app length]. rewrite IH. lia.
Qed.

Lemma format_entries_lookup recipes : forall idx i r,
  recipes !! i = Some r ->
  format_entries idx recipes !! (3 * i)
  = Some (Py.str_of_int (idx + Z.of_nat i)%Z ++ ". " ++ recipe_title r)
  /\ format_entries idx recipes !! (3 * i + 1)
     = Some ("   " ++ recipe_url r)
  /\ format_entries idx recipes !! (3 * i + 2) = Some [].
Proof.
  induction recipes as [|r' recipes IH]; intros idx i r Hi; [done|].
  destruct i as [|i].
  - injection Hi as ->. by rewrite Z.add_0_r.
  - cbn [lookup list_lookup] in Hi.
    destruct (IH (idx + 1)%Z i r Hi) as (H1 & H2 & H3).
    replace (idx + Z.of_nat (S i))%Z with (idx + 1 + Z.of_nat i)%Z by lia.
    replace (3 * S i) with (S (S (S (3 * i)))) by lia.
    done.
Qed.

Lemma format_entries_single_line recipes : forall idx,
  Forall (fun r => single_line (recipe_title r)
                   /\ single_line (recipe_url r)) recipes ->
  Forall single_line (format_entries idx recipes).
Proof.
  induction recipes as [|r recipes IH]; intros idx Hrecipes; [done|].
  apply Forall_cons in Hrecipes as [[Htitle Hurl] Hrecipes].
  cbn [format_entries app].
  apply Forall_cons_2; [|apply Forall_cons_2; [|apply Forall_cons_2]].
  - unfold single_line. rewrite !elem_of_app.
    intros [Hx%str_of_int_chars|[Hx|Hx]]; [| |done].
    + vm_compute in Hx. set_solver.
    + vm_compute in Hx. set_solver.
  - unfold single_line. rewrite elem_of_app. intros [Hx|Hx]; [|done].
    vm_compute in Hx. set_solver.
  - apply not_elem_of_nil.
  - by apply IH.
Qed.

(** X15. The body read back line by line, for a week label, titles and URLs
    without a line feed: [3 * len(recipes) + 5] lines, the heading first,
    the recipes numbered from 1 in the order given, each with its title,
    its URL and an empty line, and the source pages last. *)
Theorem format_recipes_lines recipes week_label :
  single_line week_label ->
  Forall (fun r => single_line (recipe_title r)
                   /\ single_line (recipe_url r)) recipes ->
  let lines := Py.split (ascii_of_nat 10)
                 (format_recipes recipes week_label) in
  length lines = 3 * length recipes + 5
  /\ take 2 lines = ["Weekly vegan recipe picks (" ++ week_label ++ ")"; []]
  /\ (forall i r, recipes !! i = Some r ->
        lines !! (3 * i + 2)
        = Some (Py.str_of_int (Z.of_nat i + 1)%Z ++ ". " ++ recipe_title r)
        /\ lines !! (3 * i + 3) = Some ("   " ++ recipe_url r)
        /\ lines !! (3 * i + 4) = Some [])
  /\ drop (3 * length recipes + 2) lines
     = str_of_string "Sources:" :: ((fun url => "- " ++ url) <$> RECIPE_PAGES).
Proof.
  intros Hlabel Hrecipes. cbv zeta. unfold format_recipes, newline.
  rewrite split_join; first last.
  - rewrite !Forall_app. repeat split.
    + apply Forall_cons_2; [|apply Forall_cons_2; [|done]].
      * change (single_line
                  ("Weekly vegan recipe picks (" ++ week_label ++ ")")).
        unfold single_line. rewrite !elem_of_app.
        intros [Hx|[Hx|Hx]]; [|done|]; vm_compute in Hx; set_solver.
      * apply not_elem_of_nil.
    + by apply (format_entries_single_line recipes 1).
    + apply Forall_cons_2; [|done]. vm_compute. set_solver.
    + vm_compute.
      apply Forall_cons_2; [|apply Forall_cons_2; [|done]]; set_solver.
  - done.
  - rewrite <- !app_assoc. cbn [app].
    pose proof (format_entries_length recipes 1) as Hlen.
    split; [|split; [done|split]].
    + cbn [length]. rewrite length_app, Hlen. cbn [length fmap list_fmap].
      rewrite length_fmap. cbn. lia.
    + intros i r Hi.
      destruct (format_entries_lookup recipes 1 i r Hi) as (H1 & H2 & H3).
      replace (3 * i + 2) with (S (S (3 * i))) by lia.
      replace (3 * i + 3) with (S (S (3 * i + 1))) by lia.
      replace (3 * i + 4) with (S (S (3 * i + 2))) by lia.
      assert (Hlt : 3 * i + 2 < length (format_entries 1 recipes))
        by (rewrite Hlen; apply lookup_lt_Some in Hi; lia).
      rewrite (Z.add_comm (Z.of_nat i) 1%Z), <- H1, <- H2, <- H3.
      split; [|split];
        apply (lookup_app_l (format_entries 1 recipes)); lia.
    + replace (3 * length recipes + 2)
        with (S (S (length (format_entries 1 recipes)))) by lia.
      cbn [drop]. by rewrite drop_app_length.
Qed.

End FormatLines.

(** ** More on [strip_url] *)

Section StripMore.
Context `{UrlLib}.

Lemma delimited_unique (D : list ascii) n : forall n' r r',
  n ++ r = n' ++ r' ->
  (forall c, c ∈ D -> c ∉ n) -> (forall c, c ∈ D -> c ∉ n') ->
  (r = [] \/ exists c t, r = c :: t /\ c ∈ D) ->
  (r' = [] \/ exists c t, r' = c :: t /\ c ∈ D) ->
  n = n' /\ r = r'.
Proof.
  induction n as [|x n IH]; intros n' r r' Heq Hn Hn' Hr Hr'.
  - destruct n' as [|x' n']; [done|]. cbn [app] in Heq.
    destruct Hr as [->|(c & t & -> & Hc)]; [done|].
    injection Heq as -> _. exfalso. apply (Hn' x' Hc). left.
  - destruct n' as [|x' n'].
    + cbn [app] in Heq.
      destruct Hr' as [->|(c & t & -> & Hc)]; [done|].
      injection Heq as -> _. exfalso. apply (Hn c Hc). left.
    + injection Heq as -> Heq.
      destruct (IH n' r r' Heq) as [-> ->]; [| |done..|done].
      * intros c Hc Hin. apply (Hn c Hc). by right.
      * intros c Hc Hin. apply (Hn' c Hc). by right.
Qed.

Lemma splitnetloc_text n rest :
  "/"%char ∉ n -> "?"%char ∉ n -> "#"%char ∉ n ->
  (rest = [] \/ exists c t, rest = c :: t /\ c ∈ ["/"; "?"; "#"]%char) ->
  UrlParse._splitnetloc ("//" ++ n ++ rest) 2 = (n, rest).
Proof.
  intros Hslash Hquery Hhash Hrest.
  destruct (UrlParse._splitnetloc ("//" ++ n ++ rest) 2)
    as [netloc rest'] eqn:Hsplit.
  apply splitnetloc_inv in Hsplit as (Heq & Hs' & Hq' & Hh' & Hrest'); [|done].
  injection Heq as Heq.
  destruct (delimited_unique ["/"; "?"; "#"]%char n netloc rest rest')
    as [-> ->]; try done.
  - intros c Hc. set_solver.
  - intros c Hc. set_solver.
Qed.

Lemma split_once_app c s t :
  c ∉ s -> UrlParse.split_once c (s ++ c :: t) = (s, t).
Proof.
  intros Hc. unfold UrlParse.split_once.
  rewrite find_app_notin, find_head by done.
  cbn [fmap option_fmap option_map]. rewrite Nat.add_0_r.
  rewrite take_app_length.
  replace (S (length s)) with (length s + 1)%nat by lia.
  rewrite <- drop_drop, drop_app_length. done.
Qed.

Lemma split_once_suffixes path q f :
  "?"%char ∉ path -> "#"%char ∉ path ->
  (forall q_, q = Some q_ -> "#"%char ∉ q_) ->
  let '(url, fragment) :=
    UrlParse.split_once "#" (path ++ query_suffix q ++ fragment_suffix f) in
  let '(url, query) := UrlParse.split_once "?" url in
  (url, query, fragment) = (path, default [] q, default [] f).
Proof.
  intros Hpq Hph Hq.
  assert (Hhash : "#"%char ∉ path ++ query_suffix q).
  { rewrite elem_of_app. intros [?|Hin]; [done|].
    destruct q as [q_|]; [|by apply elem_of_nil in Hin].
    apply elem_of_cons in Hin as [?|?]; [done|]. by apply (Hq q_). }
  assert (Hquery : UrlParse.split_once "?" (path ++ query_suffix q)
                   = (path, default [] q)).
  { destruct q as [q_|]; cbn [query_suffix default].
    - by apply split_once_app.
    - rewrite app_nil_r. by apply split_once_notin. }
  destruct f as [f_|]; cbn [fragment_suffix default].
  - rewrite app_assoc.
    change (str_of_string "#" ++ f_) with ("#"%char :: f_).
    rewrite split_once_app by done. by rewrite Hquery.
  - rewrite app_nil_r, split_once_notin by done. by rewrite Hquery.
Qed.

Lemma suffixes_start q f :
  let rest := query_suffix q ++ fragment_suffix f in
  rest = [] \/ exists c t, rest = c :: t /\ c ∈ ["/"; "?"; "#"]%char.
Proof.
  destruct q as [q_|]; [right|destruct f as [f_|]; [right | by left]];
    eexists _, _; (split; [reflexivity|]); set_solver.
Qed.

(** [urlparse] reads a URL written as scheme, netloc, path, query and
    fragment back into these parts. *)
Lemma urlparse_text s n path q f :
  writable s n path ->
  (forall q_, q = Some q_ -> safe q_ /\ "#"%char ∉ q_) ->
  (forall f_, f = Some f_ -> safe f_) ->
  UrlParse.urlparse (scheme_prefix s ++ "//" ++ n ++ path
                       ++ query_suffix q ++ fragment_suffix f)
  = Ok (UrlParse.mkParseResult s n path [] (default [] q) (default [] f)).
Proof.
  intros (Hs & Hn & Hslash & Hquery & Hhash & Hchecks & Hp & Hrooted
          & Hpq & Hph & Hsemi) Hq Hf.
  set (tail := query_suffix q ++ fragment_suffix f).
  set (rest := path ++ tail).
  assert (Htail : safe tail).
  { subst tail. apply safe_app. split.
    - destruct q as [q_|]; [|constructor].
      apply safe_app. split; [by repeat constructor | by apply (Hq q_)].
    - destruct f as [f_|]; [|constructor].
      apply safe_app. split; [by repeat constructor | by apply (Hf f_)]. }
  assert (Hrest : rest = [] \/ exists c t,
                    rest = c :: t /\ c ∈ ["/"; "?"; "#"]%char).
  { subst rest. destruct Hrooted as [->|[t ->]].
    - apply suffixes_start.
    - right. eexists _, _. split; [reflexivity | set_solver]. }
  unfold UrlParse.urlparse, UrlParse.urlsplit.
  assert (Hsafe : safe (scheme_prefix s ++ "//" ++ n ++ rest)).
  { subst rest. rewrite !safe_app.
    split; [|split; [by repeat constructor|done]].
    unfold scheme_prefix. destruct Hs as [->|Hs]; [constructor|].
    destruct (Py.truthy s); [|constructor].
    apply safe_app. split; [by apply scheme_ok_safe | by repeat constructor]. }
  assert (Hscheme :
    Py.lstrip UrlParse._WHATWG_C0_CONTROL_OR_SPACE
              (scheme_prefix s ++ "//" ++ n ++ rest)
    = scheme_prefix s ++ "//" ++ n ++ rest
    /\ UrlParse.split_scheme (scheme_prefix s ++ "//" ++ n ++ rest)
       = (s, "//" ++ n ++ rest)).
  { unfold scheme_prefix. destruct Hs as [->|Hs].
    - cbn [Py.truthy bool_decide negb app]. split; [done|].
      apply split_scheme_slash.
    - pose proof Hs as (_ & (c0 & t & -> & Hc0) & _).
      replace (Py.truthy (c0 :: t)) with true
        by (symmetry; by apply truthy_true).
      rewrite <- app_assoc. split; [|by apply split_scheme_unparse].
      apply lstrip_keep. by apply letter_facts in Hc0 as [_ ?]. }
  destruct Hscheme as [-> Hscheme].
  rewrite filter_safe, Hscheme by done.
  rewrite bool_decide_true by done.
  rewrite splitnetloc_text by done.
  unfold netloc_checks in Hchecks.
  destruct ((Py.has "[" n && negb (Py.has "]" n))
            || (Py.has "]" n && negb (Py.has "[" n))); [done|].
  destruct (if Py.has "[" n && Py.has "]" n
            then _check_bracketed_host (UrlParse.bracketed_host n)
            else Ok ()) as [[]|e]; [|done].
  cbn [mbind Exc_bind] in *.
  pose proof (split_once_suffixes path q f Hpq Hph
                (fun q_ Hq_ => proj2 (Hq q_ Hq_))) as Hsuffixes.
  subst rest tail.
  destruct (UrlParse.split_once "#" _) as [url fragment].
  destruct (UrlParse.split_once "?" url) as [url' query].
  injection Hsuffixes as -> -> ->.
  rewrite Hchecks. cbn [mbind Exc_bind].
  replace (Py.has ";" path) with false by (symmetry; by apply has_false).
  by rewrite andb_false_r.
Qed.



Lemma strip_url_text s n path q f :
  writable s n path -> n <> [] ->
  (forall q_, q = Some q_ -> safe q_ /\ "#"%char ∉ q_) ->
  (forall f_, f = Some f_ -> safe f_) ->
  strip_url (scheme_prefix s ++ "//" ++ n ++ path
               ++ query_suffix q ++ fragment_suffix f)
  = Ok (scheme_prefix s ++ "//" ++ n ++ strip_path path).
Proof.
  intros Hw Hn Hq Hf.
  rewrite (strip_url_unfold _ _ (urlparse_text s n path q f Hw Hq Hf)).
  cbn [UrlParse.scheme UrlParse.netloc UrlParse.path UrlParse.params].
  rewrite geturl_with_netloc; [done..|].
  apply strip_path_rooted. by destruct Hw as (_ & _ & _ & _ & _ & _ & _ & ? & _).
Qed.

Lemma scheme_name_lower s : scheme_name s -> scheme_ok (Py.lower s).
Proof.
  intros [Hchars (c0 & t & -> & Hc0)]. split; [|split].
  - unfold Py.lower. apply Forall_fmap. eapply Forall_impl; [done|].
    intros c Hc. simpl. by apply scheme_char_facts in Hc as [? _].
  - exists (Py.lower_char c0), (Py.lower t). split; [done|].
    by apply letter_facts in Hc0 as [? _].
  - unfold Py.lower. rewrite <- list_fmap_compose.
    apply list_fmap_ext. intros _ c _. simpl. apply lower_char_idemp.
Qed.

Lemma scheme_name_safe s : scheme_name s -> safe s /\ ":"%char ∉ s.
Proof.
  intros [Hchars _]. split.
  - eapply Forall_impl; [done|].
    intros c Hc. simpl in Hc. apply scheme_char_facts in Hc. tauto.
  - intros Hin. rewrite Forall_forall in Hchars.
    apply Hchars, scheme_char_facts in Hin. naive_solver.
Qed.

Lemma split_scheme_name s rest :
  scheme_name s -> UrlParse.split_scheme (s ++ ":" ++ rest) = (Py.lower s, rest).
Proof.
  intros Hs. pose proof (scheme_name_safe s Hs) as [_ Hcolon].
  destruct Hs as (Hchars & (c0 & t & -> & Hc0)).
  unfold UrlParse.split_scheme.
  rewrite find_app_notin by done.
  change (str_of_string ":" ++ rest) with (":"%char :: rest).
  rewrite find_head. cbn [fmap option_fmap option_map].
  rewrite Nat.add_0_r. cbn [app].
  change (c0 :: t ++ ":"%char :: rest) with ((c0 :: t) ++ ":"%char :: rest).
  rewrite take_app_length.
  rewrite bool_decide_true by (simpl; lia).
  apply andb_true_iff in Hc0 as [-> ->]. cbn [andb].
  assert (Hall : forallb (fun c => Py.has c UrlParse.scheme_chars) (c0 :: t)
                 = true).
  { apply forallb_forall. intros c Hc%list_elem_of_In.
    rewrite Forall_forall in Hchars. by apply Hchars. }
  rewrite Hall. f_equal.
  rewrite drop_app, drop_ge by lia.
  by replace (S (length (c0 :: t)) - length (c0 :: t))%nat with 1%nat by lia.
Qed.

(** [urlsplit], and so [strip_url], read a scheme in either case as the
    scheme in lower case. *)
Lemma strip_url_scheme_case s rest :
  scheme_name s ->
  strip_url (scheme_prefix s ++ rest)
  = strip_url (scheme_prefix (Py.lower s) ++ rest).
Proof.
  intros Hs. pose proof (scheme_name_lower s Hs) as Hlower.
  pose proof (scheme_name_safe s Hs) as [Hsafe _].
  pose proof (scheme_ok_safe _ Hlower) as Hsafe'.
  assert (Hsplit : UrlParse.urlsplit (scheme_prefix s ++ rest)
                   = UrlParse.urlsplit (scheme_prefix (Py.lower s) ++ rest)).
  { unfold UrlParse.urlsplit, scheme_prefix.
    pose proof Hs as (_ & (c0 & t & Heq & Hc0)).
    pose proof Hlower as (_ & (c1 & t1 & Heq1 & Hc1) & _).
    replace (Py.truthy s) with true by (symmetry; apply truthy_true; by subst).
    replace (Py.truthy (Py.lower s)) with true
      by (symmetry; apply truthy_true; by rewrite Heq1).
    rewrite <- !app_assoc.
    assert (Hkeep : forall x u y,
      x = y :: u -> Py.isascii y && Py.isalpha y = true ->
      Py.lstrip UrlParse._WHATWG_C0_CONTROL_OR_SPACE (x ++ ":" ++ rest)
      = x ++ ":" ++ rest).
    { intros x u y -> Hy. apply lstrip_keep.
      by apply letter_facts in Hy as [_ ?]. }
    rewrite (Hkeep s t c0), (Hkeep (Py.lower s) t1 c1) by done.
    rewrite !filter_app, !(filter_safe s), !(filter_safe (Py.lower s))
      by done.
    change (filter _ (str_of_string ":")) with (str_of_string ":").
    rewrite split_scheme_name by done.
    rewrite split_scheme_unparse by done. done. }
  unfold strip_url, UrlParse.urlparse. by rewrite Hsplit.
Qed.

(** X16. What [strip_url] makes of a URL written as scheme, netloc, path,
    query and fragment, the scheme in either case: the scheme is put in
    lower case, the query and the fragment are dropped, as are the slashes
    that end a path other than [/]; the netloc and the rest of the path are
    kept as written.  The result is a URL that [strip_url] leaves as it
    is. *)
Theorem strip_url_drops_query_and_fragment s n path q f :
  (s = [] \/ scheme_name s) ->
  writable [] n path -> n <> [] ->
  (forall q_, q = Some q_ -> safe q_ /\ "#"%char ∉ q_) ->
  (forall f_, f = Some f_ -> safe f_) ->
  let stripped :=
    scheme_prefix (Py.lower s) ++ "//" ++ n ++ strip_path path in
  strip_url (scheme_prefix s ++ "//" ++ n ++ path
               ++ query_suffix q ++ fragment_suffix f)
  = Ok stripped
  /\ strip_url stripped = Ok stripped.
Proof.
  intros Hs Hw0 Hn Hq Hf. cbv zeta.
  assert (Hw : writable (Py.lower s) n path).
  { destruct Hw0 as (_ & Hrest). split; [|done].
    destruct Hs as [->|Hs]; [by left | right; by apply scheme_name_lower]. }
  assert (Hfirst :
    strip_url (scheme_prefix s ++ "//" ++ n ++ path
                 ++ query_suffix q ++ fragment_suffix f)
    = strip_url (scheme_prefix (Py.lower s) ++ "//" ++ n ++ path
                   ++ query_suffix q ++ fragment_suffix f)).
  { destruct Hs as [->|Hs]; [done | by apply strip_url_scheme_case]. }
  rewrite Hfirst. split; [by apply strip_url_text|].
  pose proof (strip_url_text (Py.lower s) n (strip_path path) None None)
    as Hagain.
  cbn [query_suffix fragment_suffix app] in Hagain.
  rewrite app_nil_r, strip_path_idemp in Hagain.
  apply Hagain; [|done..].
  destruct Hw as (Hs' & Hsn & Hslash & Hquery & Hhash & Hchecks & Hp
                  & Hrooted & Hpq & Hph & Hsemi).
  repeat split; try done.
  - by apply strip_path_safe.
  - by apply strip_path_rooted.
  - intros ?%strip_path_sub. done.
  - intros ?%strip_path_sub. done.
  - intros ?%strip_path_sub. done.
Qed.


End StripMore.

Section StripOutput.
Context `{UrlLib}.

Lemma scheme_char_plain c :
  Py.has c UrlParse.scheme_chars = true -> c <> "?"%char /\ c <> "#"%char.
Proof.
  destruct c as [[] [] [] [] [] [] [] []]; vm_compute; intros Hc;
    try discriminate Hc; split; congruence.
Qed.

Lemma splitparams_snd url c :
  c ∈ (UrlParse._splitparams url).2 -> c ∈ url.
Proof.
  assert (Hdrop : forall i, c ∈ drop i url -> c ∈ url).
  { intros i Hin. rewrite <- (take_drop i url), elem_of_app. by right. }
  unfold UrlParse._splitparams.
  destruct (Py.rfind "/" url) as [slash|].
  - destruct (Py.find_from ";" slash url) as [i|]; cbn [snd];
      [apply Hdrop | by intros ?%elem_of_nil].
  - destruct (Py.find ";" url) as [i|]; cbn [snd]; [apply Hdrop | done].
Qed.

Lemma urlparse_params url parsed c :
  UrlParse.urlparse url = Ok parsed ->
  c ∈ UrlParse.params parsed ->
  exists r, UrlParse.urlsplit url = Ok r /\ c ∈ UrlParse.s_path r.
Proof.
  unfold UrlParse.urlparse.
  destruct (UrlParse.urlsplit url) as [[s n p q f]|e]; [|done].
  cbn [mbind Exc_bind].
  destruct (bool_decide (s ∈ UrlParse.uses_params) && Py.has ";" p).
  - pose proof (splitparams_snd p c) as Hsnd.
    destruct (UrlParse._splitparams p) as [path params]. cbn [snd] in Hsnd.
    intros [= <-] Hc. eexists. split; [done|]. by apply Hsnd.
  - intros [= <-] Hc. by apply elem_of_nil in Hc.
Qed.

Lemma geturl_chars s n path params c :
  c ∈ UrlParse.geturl (UrlParse.mkParseResult s n path params [] []) ->
  c ∈ s \/ c ∈ n \/ c ∈ path \/ c ∈ params
  \/ c ∈ [":"; "/"; ";"]%char.
Proof.
  unfold UrlParse.geturl, UrlParse.urlunparse, UrlParse.urlunsplit.
  cbn [UrlParse.scheme UrlParse.netloc UrlParse.path UrlParse.params
       UrlParse.query UrlParse.fragment].
  replace (Py.truthy []) with false by done.
  repeat match goal with
         | |- context [if ?b then _ else _] => destruct b
         end;
    rewrite ?elem_of_app, ?elem_of_cons; set_solver.
Qed.

(** X18. Whatever the URL, a result of [strip_url] has no [?], no [#] and no
    TAB, CR or LF; and [strip_url] raises exactly when [urlparse] does, with
    the same exception. *)
Theorem strip_url_output url :
  (forall out, strip_url url = Ok out ->
     ("?"%char ∉ out) /\ ("#"%char ∉ out) /\ safe out)
  /\ (forall e, strip_url url = Raise e <-> UrlParse.urlparse url = Raise e).
Proof.
  split; [|intros e; unfold strip_url;
           destruct (UrlParse.urlparse url); cbn [mbind Exc_bind];
           [split; intros; discriminate | split; by intros [= ->]]].
  intros out Hout.
  destruct (UrlParse.urlparse url) as [parsed|e] eqn:Hparse;
    [|unfold strip_url in Hout; by rewrite Hparse in Hout].
  rewrite (strip_url_unfold url parsed Hparse) in Hout.
  injection Hout as <-.
  destruct (urlparse_inv url parsed Hparse)
    as (Hs & Hn & Hp & _ & Hquery & Hhash & Hpq & Hph & _).
  assert (Hparams : forall c, c ∈ UrlParse.params parsed ->
            c <> "?"%char /\ c <> "#"%char
            /\ UrlParse._UNSAFE_URL_BYTES_TO_REMOVE c = false).
  { intros c Hc.
    destruct (urlparse_params url parsed c Hparse Hc) as (r & Hsplit & Hin).
    apply urlsplit_inv in Hsplit
      as (_ & _ & Hsafe & _ & _ & _ & Hq & Hh & _).
    unfold safe in Hsafe. rewrite Forall_forall in Hsafe.
    split; [by intros ->|]. split; [by intros ->|]. by apply Hsafe. }
  assert (Hscheme : forall c, c ∈ UrlParse.scheme parsed ->
            c <> "?"%char /\ c <> "#"%char
            /\ UrlParse._UNSAFE_URL_BYTES_TO_REMOVE c = false).
  { intros c Hc. destruct Hs as [Hs|[Hchars _]].
    - rewrite Hs in Hc. by apply elem_of_nil in Hc.
    - rewrite Forall_forall in Hchars. specialize (Hchars c Hc).
      cbv beta in Hchars.
      destruct (scheme_char_plain c Hchars), (scheme_char_facts c Hchars)
        as (_ & _ & ?). done. }
  assert (Hall : forall c,
    c ∈ UrlParse.geturl
          (UrlParse.mkParseResult
             (UrlParse.scheme parsed) (UrlParse.netloc parsed)
             (strip_path (UrlParse.path parsed)) (UrlParse.params parsed)
             [] []) ->
    c <> "?"%char /\ c <> "#"%char
    /\ UrlParse._UNSAFE_URL_BYTES_TO_REMOVE c = false).
  { intros c Hc. unfold safe in Hn, Hp. rewrite Forall_forall in Hn, Hp.
    apply geturl_chars in Hc
      as [Hc|[Hc|[Hc%strip_path_sub|[Hc|Hc]]]].
    - by apply Hscheme.
    - split; [by intros ->|]. split; [by intros ->|]. by apply Hn.
    - split; [by intros ->|]. split; [by intros ->|]. by apply Hp.
    - by apply Hparams.
    - repeat (apply elem_of_cons in Hc as [->|Hc]; [done|]).
      by apply elem_of_nil in Hc. }
  split; [intros Hin; by destruct (Hall _ Hin) as (? & _)|].
  split; [intros Hin; by destruct (Hall _ Hin) as (_ & ? & _)|].
  apply Forall_forall. intros c Hin. by destruct (Hall _ Hin) as (_ & _ & ?).
Qed.

End StripOutput.

(** ** Classifying after stripping *)

Section StripThenClassify.
Context `{UrlLib}.

Lemma lstrip_rstrip (p : ascii -> bool) s :
  Py.lstrip p (Py.rstrip p s) = Py.rstrip p (Py.lstrip p s).
Proof.
  induction s as [|x s IH]; [done|].
  cbn [Py.rstrip Py.lstrip].
  destruct (Py.rstrip p s) as [|y r] eqn:Hr.
  - destruct (p x) eqn:Hx.
    + by rewrite <- IH.
    + cbn [Py.lstrip Py.rstrip]. by rewrite Hx, Hr.
  - cbn [Py.lstrip]. destruct (p x) eqn:Hx.
    + by rewrite <- IH.
    + cbn [Py.rstrip]. by rewrite Hr.
Qed.

Lemma strip_strip_path path :
  Py.strip (Py.is_char "/") (strip_path path) = Py.strip (Py.is_char "/") path.
Proof.
  unfold strip_path. case_bool_decide; [|done].
  unfold Py.strip. by rewrite lstrip_rstrip, rstrip_idemp.
Qed.

(** X19. The order of the two steps of [extract_recipes] does not matter for a
    URL with a netloc and no path parameters: the stripped URL is classified
    as the URL itself is. *)
Theorem is_recipe_url_after_strip url parsed :
  UrlParse.urlparse url = Ok parsed ->
  UrlParse.netloc parsed <> [] ->
  ";"%char ∉ UrlParse.path parsed ->
  UrlParse.params parsed = [] ->
  (stripped ← strip_url url; is_recipe_url stripped) = is_recipe_url url.
Proof.
  intros Hparse Hnetloc Hsemi Hparams.
  destruct (urlparse_inv url parsed Hparse)
    as (Hs & Hn & Hp & Hslash & Hquery & Hhash & Hpq & Hph & Hchecks
        & Hrooted & _).
  specialize (Hrooted Hnetloc).
  rewrite (strip_url_unfold url parsed Hparse), Hparams.
  rewrite geturl_with_netloc by (done || by apply strip_path_rooted).
  cbn [mbind Exc_bind]. unfold is_recipe_url.
  rewrite urlparse_unparse, Hparse;
    [| done | done | by apply strip_path_safe | done | done | done
     | by intros ?%strip_path_sub | by intros ?%strip_path_sub
     | by intros ?%strip_path_sub | by apply strip_path_rooted | done].
  cbn [mbind Exc_bind UrlParse.scheme UrlParse.netloc UrlParse.path].
  by rewrite strip_strip_path.
Qed.

End StripThenClassify.

(** ** The seed of the week *)

Section Seed.

Lemma to_int_not_nil z :
  Z.to_int z <> Decimal.Pos Decimal.Nil
  /\ Z.to_int z <> Decimal.Neg Decimal.Nil.
Proof.
  split; intros Hz; pose proof (DecimalZ.of_to z) as Hof;
    rewrite Hz in Hof; cbn in Hof; subst z; done.
Qed.

Lemma str_of_int_inj a b : Py.str_of_int a = Py.str_of_int b -> a = b.
Proof.
  unfold Py.str_of_int. intros Heq.
  apply (f_equal String.string_of_list_ascii) in Heq.
  rewrite !String.string_of_list_ascii_of_string in Heq.
  apply (f_equal NilZero.int_of_string) in Heq.
  destruct (to_int_not_nil a), (to_int_not_nil b).
  rewrite !NilZero.isi in Heq by done.
  injection Heq as Heq.
  by rewrite <- (DecimalZ.of_to a), <- (DecimalZ.of_to b), Heq.
Qed.

(** X20. Two instants have the same seed exactly when they have the same ISO
    year and ISO week: the seeds of different weeks differ. *)
Theorem week_seed_inj (A B : Datetime.datetime) :
  week_seed A = week_seed B <-> iso_year_week A = iso_year_week B.
Proof.
  rewrite !week_seed_year_week.
  destruct (iso_year_week A) as [ya wa], (iso_year_week B) as [yb wb].
  cbn [fst snd]. split; [|by intros [= -> ->]].
  intros Heq.
  change (Py.str_of_int ya ++ "-W" ++ Py.str_of_int wa)
    with (Py.str_of_int ya ++ "-"%char :: "W"%char :: Py.str_of_int wa)
    in Heq.
  change (Py.str_of_int yb ++ "-W" ++ Py.str_of_int wb)
    with (Py.str_of_int yb ++ "-"%char :: "W"%char :: Py.str_of_int wb)
    in Heq.
  rewrite !(cons_middle "-"%char), !app_assoc in Heq.
  assert (Hnot : forall z c, c ∈ ["W"%char] -> c ∉ Py.str_of_int z ++ ["-"%char]).
  { intros z c ->%list_elem_of_singleton.
    rewrite elem_of_app. intros [Hin%str_of_int_chars|Hin].
    - vm_compute in Hin. set_solver.
    - set_solver. }
  destruct (delimited_unique ["W"%char]
              (Py.str_of_int ya ++ ["-"%char]) (Py.str_of_int yb ++ ["-"%char])
              ("W"%char :: Py.str_of_int wa) ("W"%char :: Py.str_of_int wb))
    as [Hy Hw]; try done.
  - apply Hnot.
  - apply Hnot.
  - right. eexists _, _. split; [done | set_solver].
  - right. eexists _, _. split; [done | set_solver].
  - apply app_inj_tail in Hy as [Hy _]. injection Hw as Hw.
    by rewrite (str_of_int_inj _ _ Hy), (str_of_int_inj _ _ Hw).
Qed.

End Seed.

(** ** Concrete instances *)

Section DemoMore.
Import Demo.

Local Ltac evaluated := apply (bool_decide_unpack _); vm_compute; exact I.


(** [Soups: <a href='/recipes/vegan-chili/'><b>Vegan</b> Chili</a>.] *)
Lemma feed_document_witness :
  feed AnchorExtractor_init
    (document
       [mkBlock [Data "Soups: "]
                [(str_of_string "href",
                  Some (str_of_string "/recipes/vegan-chili/"))]
                [StartTag "b" []; Data "Vegan"; EndTag "b"; Data " Chili"]]
       [Data "."])
  = mkAnchorExtractor
      [mkAnchor (Some (str_of_string "/recipes/vegan-chili/")) None None
                (Some (str_of_string "Vegan Chili"))]
      None [].
Proof.
  apply (feed_document
           [mkBlock [Data "Soups: "]
                    [(str_of_string "href",
                      Some (str_of_string "/recipes/vegan-chili/"))]
                    [StartTag "b" []; Data "Vegan"; EndTag "b";
                     Data " Chili"]]
           [Data "."]);
    reflexivity.
Defined.

Lemma extract_recipes_invariant_witness :
  extract_recipes chili_page lunch
  = Ok [mkRecipe "Vegan Chili"
                 "https://www.noracooks.com/recipes/vegan-chili"]
  /\ exists events,
       feed_events chili_page = Ok events
       /\ (1 <= length (anchors (feed AnchorExtractor_init events)))%nat
       /\ Forall (fun r =>
                    acceptable (recipe_title r) = true
                    /\ clean_title (recipe_title r) = recipe_title r
                    /\ made_from lunch
                         (anchors (feed AnchorExtractor_init events)) r)
                 [mkRecipe "Vegan Chili"
                           "https://www.noracooks.com/recipes/vegan-chili"].
Proof.
  split; [reflexivity|].
  apply (extract_recipes_invariant chili_page lunch
           [mkRecipe "Vegan Chili"
                     "https://www.noracooks.com/recipes/vegan-chili"]).
  reflexivity.
Defined.

(** A link to a host with an unbalanced bracket, between two links to a
    recipe. *)
Lemma extract_loop_raises_witness :
  extract_loop lunch
    ([mkAnchor (Some (str_of_string "/recipes/vegan-chili/")) None None
               (Some (str_of_string "Vegan Chili"))]
       ++ mkAnchor (Some (str_of_string "http://[oops/")) None None
                   (Some (str_of_string "Broken link"))
       :: [mkAnchor (Some (str_of_string "/recipes/vegan-chili/")) None None
                    (Some (str_of_string "Vegan Chili"))])
    []
  = Raise (ValueError "Invalid IPv6 URL").
Proof.
  apply (extract_loop_raises lunch
           (mkAnchor (Some (str_of_string "http://[oops/")) None None
                     (Some (str_of_string "Broken link")))
           "http://[oops/" (ValueError "Invalid IPv6 URL")
           [mkAnchor (Some (str_of_string "/recipes/vegan-chili/")) None None
                     (Some (str_of_string "Vegan Chili"))]
           [mkAnchor (Some (str_of_string "/recipes/vegan-chili/")) None None
                     (Some (str_of_string "Vegan Chili"))]
           []
           [mkRecipe "Vegan Chili"
                     "https://www.noracooks.com/recipes/vegan-chili"]);
    reflexivity.
Defined.

(** The mail client cannot be created. *)
Lemma main_raises_iff_witness :
  returned
    (main (mkWorld environ http wednesday
             (Raise (Exn "NoRegionError" "You must specify a region."))))
  = Raise (Exn "NoRegionError" "You must specify a region.").
Proof.
  apply (proj2 (main_raises_iff
                  (mkWorld environ http wednesday
                     (Raise (Exn "NoRegionError"
                                 "You must specify a region.")))
                  (Exn "NoRegionError" "You must specify a region."))).
  split; reflexivity.
Defined.

(** The dinner page cannot be fetched and the delivery is refused. *)
Lemma main_report_witness :
  configured world_undelivered = true
  /\ printed (main world_undelivered)
     = ["Failed to fetch or parse " ++ dinner
          ++ ": <urlopen error timed out>";
        str_of_string
          "Sending email: Weekly Vegan Recipes - Week of Nov 04, 2026";
        str_of_string "SES error: MessageRejected"]
  /\ returned (main world_undelivered)
     = Ok (StatusError "Failed to send email").
Proof.
  split; [reflexivity|].
  destruct (main_report world_undelivered
              (fun _ _ _ _ => Raise (Exn "ClientError" "MessageRejected"))
              eq_refl eq_refl)
    as (sender & recipient & body & _ & _ & _ & Hsent).
  exact Hsent.
Defined.

Lemma format_recipes_lines_witness :
  length (Py.split (ascii_of_nat 10)
            (format_recipes
               [mkRecipe "Vegan Chili"
                         "https://www.noracooks.com/recipes/vegan-chili"]
               "Week of Nov 04, 2026"))
  = 8%nat.
Proof.
  refine (proj1 (format_recipes_lines
                   [mkRecipe "Vegan Chili"
                             "https://www.noracooks.com/recipes/vegan-chili"]
                   "Week of Nov 04, 2026" _ _)).
  - evaluated.
  - apply Forall_cons_2; [split; evaluated | apply Forall_nil_2].
Defined.

Lemma strip_url_drops_query_and_fragment_witness :
  strip_url "HTTPS://www.noracooks.com/recipes/vegan-chili/?utm=1#top"
  = Ok (str_of_string "https://www.noracooks.com/recipes/vegan-chili").
Proof.
  refine (proj1 (strip_url_drops_query_and_fragment
                   "HTTPS" "www.noracooks.com" "/recipes/vegan-chili/"
                   (Some (str_of_string "utm=1"))
                   (Some (str_of_string "top")) _ _ _ _ _)).
  - right. split; [evaluated | eexists _, _; split; reflexivity].
  - unfold writable.
    split; [by left|].
    split; [evaluated|]; split; [evaluated|]; split; [evaluated|].
    split; [evaluated|]; split; [reflexivity|]; split; [evaluated|].
    split; [right; eexists; reflexivity|].
    split; [evaluated|]; split; evaluated.
  - intros Hnetloc. discriminate Hnetloc.
  - intros q_ [= <-]. split; evaluated.
  - intros f_ [= <-]. evaluated.
Defined.


Lemma is_recipe_url_after_strip_witness :
  (stripped ←
     strip_url "https://www.noracooks.com/recipes/vegan-chili/?utm=1#top";
   is_recipe_url stripped)
  = is_recipe_url "https://www.noracooks.com/recipes/vegan-chili/?utm=1#top".
Proof.
  apply (is_recipe_url_after_strip
           "https://www.noracooks.com/recipes/vegan-chili/?utm=1#top"
           (UrlParse.mkParseResult "https" "www.noracooks.com"
              "/recipes/vegan-chili/" "" "utm=1" "top")).
  - reflexivity.
  - intros Hnetloc. discriminate Hnetloc.
  - evaluated.
  - reflexivity.
Defined.

End DemoMore.
